(** * fshare: a shallow embedding of the share-session server

    The server keeps three Firebase nodes ([sessions], [sessionCounter],
    [queue]), accepts submissions over HTTP, promotes queued sessions and
    runs each promoted session through [processSession].

    Modelling conventions.
    - A JavaScript number is represented by its exact rational value
      ([Q]).  The comparisons, [Math.floor] and [toFixed] of the code are
      exact on that value; the products, sums and quotients whose result
      the code goes on to round down or to print ([generateSessionId],
      the success rate) are rounded to the nearest double
      ([round_to_double]); [parseFloat] of a printed decimal is taken to
      be the number that the digits denote.  Infinities and NaN are left
      out.
    - A session identifier is the decimal string of an integer in
      [100000, 999999] ([generateSessionId]); it is represented by that
      integer ([N]).
    - Asynchronous code is sequentialised: one call runs to its end on an
      explicit [World]; the answers of the network, of the clock and of
      the random generator come from an [Env] record.  Interleavings of
      several runners are not modelled, with one exception: [saveProgress]
      is cut at its [await] into the read of the document and
      [saveProgress_write], so that a write by someone else in between
      can be placed there.
    - The store is always reachable: the only write that fails is one
      that the Firebase client refuses because the value holds
      [undefined].
    - [console.log] and [console.error] calls are dropped. *)

From Stdlib Require Import ZArith QArith Qround List String Ascii Bool Lia PeanoNat.
From Stdlib Require Import DecimalString Lqa Qpower.
Import ListNotations.

Close Scope Q_scope.
Open Scope nat_scope.
Open Scope string_scope.
Open Scope list_scope.

Set Implicit Arguments.

(** ** JavaScript numbers *)

(** The value of a number-typed expression: a number, or [undefined] (a
    property that the object does not have). *)
Inductive jsnum : Type :=
| undefined : jsnum
| num : Q -> jsnum.

Definition Qltb (x y : Q) : bool := negb (Qle_bool y x).
Definition Qgtb (x y : Q) : bool := Qltb y x.

Definition Qnat (n : nat) : Q := inject_Z (Z.of_nat n).

(** [x || 0] on a number-or-undefined value. *)
Definition or_zero (x : option jsnum) : Q :=
  match x with
  | Some (num q) => if Qeq_bool q 0 then 0%Q else q
  | _ => 0%Q
  end.

(** *** Rounding to a double

    [binade q] is [floor (log2 q)] for a positive [q]. *)
Definition binade (q : Q) : Z :=
  if Qle_bool 1 q then Z.log2 (Qfloor q)
  else (- Z.log2_up (Qceiling (/ q)))%Z.

(** The integer nearest to [m]; of two that are equally near, the even
    one. *)
Definition round_half_even (m : Q) : Z :=
  let f := Qfloor m in
  match Qcompare (m - inject_Z f) (1 # 2) with
  | Lt => f
  | Gt => (f + 1)%Z
  | Eq => if Z.even f then f else (f + 1)%Z
  end.

(** A positive [q] rounded to 53 significant bits, or to a multiple of
    [2^-1074] below the normal range. *)
Definition round_positive (q : Q) : Q :=
  let u := Z.max (binade q - 52) (-1074) in
  (inject_Z (round_half_even (q / Qpower 2 u)) * Qpower 2 u)%Q.

(** The double nearest to [q] (IEEE 754 binary64, ties to even), for a
    [q] of magnitude below [2^1024]; every use in this file stays far
    below that. *)
Definition round_to_double (q : Q) : Q :=
  match Qcompare q 0 with
  | Eq => 0%Q
  | Gt => round_positive q
  | Lt => (- round_positive (- q))%Q
  end.

Arguments round_to_double q : simpl never.

(** [q] is the value of a double. *)
Definition is_double (q : Q) : Prop := (round_to_double q == q)%Q.

(** [Number.prototype.toFixed(d)] on a non-negative number: the integer [n]
    closest to [x * 10^d] (the larger one on a tie), printed with [d]
    digits after the point. *)
Definition toFixed_scaled (d : nat) (x : Q) : Z :=
  Qfloor (x * inject_Z (10 ^ Z.of_nat d) + (1 # 2))%Q.

Fixpoint pad_left (d : nat) (s : string) : string :=
  if Nat.leb d (String.length s) then s
  else match d with
       | O => s
       | S d' => pad_left d' (String "0" s)
       end.

Definition decimal_of_N (n : N) : string :=
  match n with
  | N0 => "0"
  | _ => NilEmpty.string_of_uint (N.to_uint n)
  end.

Definition toFixed (d : nat) (x : Q) : string :=
  let n := Z.to_N (toFixed_scaled d x) in
  let p := Z.to_N (10 ^ Z.of_nat d) in
  let int_part := decimal_of_N (n / p) in
  match d with
  | O => int_part
  | _ => int_part ++ "." ++ pad_left d (decimal_of_N (n mod p))
  end.

(** [parseFloat(x.toFixed(1))]: the number the printed digits denote. *)
Definition parseFloat_toFixed1 (x : Q) : Q :=
  (toFixed_scaled 1 x # 10)%Q.

(** ** JavaScript objects keyed by session identifiers *)

Definition sessionId := N.

Module JsObject.
Section Obj.
Variable V : Type.

(** Entries in the order in which their keys were first written. *)
Definition t := list (sessionId * V).

Fixpoint get (k : sessionId) (o : t) : option V :=
  match o with
  | [] => None
  | (k', v) :: rest => if N.eqb k k' then Some v else get k rest
  end.

(** [o[k] = v]: overwrite in place, or add at the end. *)
Fixpoint set (k : sessionId) (v : V) (o : t) : t :=
  match o with
  | [] => [(k, v)]
  | (k', v') :: rest =>
      if N.eqb k k' then (k, v) :: rest else (k', v') :: set k v rest
  end.

Definition remove (k : sessionId) (o : t) : t :=
  filter (fun e => negb (N.eqb k (fst e))) o.

Definition values (o : t) : list V := map snd o.

Fixpoint insert_sorted (k : sessionId) (l : list sessionId) : list sessionId :=
  match l with
  | [] => [k]
  | k' :: rest =>
      if N.leb k k' then k :: l else k' :: insert_sorted k rest
  end.

(** [Object.keys(o)]: integer-like keys are enumerated in ascending
    numeric order, whatever the order of their insertion (this is also
    the order in which Firebase returns the children of a node). *)
Definition keys (o : t) : list sessionId :=
  fold_right insert_sorted [] (map fst o).
End Obj.
End JsObject.

Arguments JsObject.get {V} k o.
Arguments JsObject.set {V} k v o.
Arguments JsObject.remove {V} k o.
Arguments JsObject.values {V} o.
Arguments JsObject.keys {V} o.

(** ** Sessions *)

Inductive Status : Type :=
| queued | started | in_progress | completed | failed | terminated.

Definition Status_eqb (a b : Status) : bool :=
  match a, b with
  | queued, queued | started, started | in_progress, in_progress
  | completed, completed | failed, failed | terminated, terminated => true
  | _, _ => false
  end.

(** [['started', 'in_progress'].includes(s.status)] *)
Definition is_active_status (s : Status) : bool :=
  Status_eqb s started || Status_eqb s in_progress.

Definition is_terminal_status (s : Status) : bool :=
  Status_eqb s completed || Status_eqb s failed || Status_eqb s terminated.

Definition timestamp := N.

(** A session record, with the properties that the server writes
    ([None]: the object has no such property).  [amount] is the property
    that [processSession] reads for the number of shares to perform. *)
Record Session : Type := mkSession {
  status : Status;
  totalShares : Z;
  completedShares : nat;
  failedShares : option jsnum;
  error : option string;
  url : option string;
  interval : option Q;
  createdAt : timestamp;
  lastUpdated : option timestamp;
  sessionNumber : option Z;
  cookie : option string;
  successRate : option string;
  amount : option Q
}.

(** The object literal passed to [saveProgress]. *)
Record Progress : Type := mkProgress {
  p_status : option Status;
  p_error : option string;
  p_completedShares : option nat;
  p_failedShares : option jsnum
}.

(** ** The world and its environment *)

Inductive ShareResult : Type :=
| Shared                    (* performShare resolved to a truthy post id *)
| NotShared                 (* performShare resolved to a falsy value *)
| Rejected (msg : string).  (* the scheduled job's promise rejected *)

Record Env : Type := mkEnv {
  env_validateCookie : string -> bool;
  env_getFacebookToken : string -> option string;
  env_getPostId : string -> option string;
  env_performShare : nat -> ShareResult;   (* answer to the k-th call *)
  env_clock : nat -> timestamp;            (* answer to the k-th reading *)
  env_random : nat -> Q                    (* k-th Math.random(), in [0, 1) *)
}.

Record World : Type := mkWorld {
  sessions : JsObject.t Session;       (* db.ref('sessions') *)
  sessionCounter : option Z;           (* db.ref('sessionCounter'); None is null *)
  queue : JsObject.t Session;          (* db.ref('queue') *)
  clockReads : nat;
  shareCalls : nat;
  randomReads : nat;
  history : list (JsObject.t Session)  (* ghost: every content [sessions] had, newest first *)
}.

Definition with_sessions (w : World) (s : JsObject.t Session) : World :=
  mkWorld s (sessionCounter w) (queue w) (clockReads w) (shareCalls w)
          (randomReads w) (s :: history w).

Definition with_counter (w : World) (c : option Z) : World :=
  mkWorld (sessions w) c (queue w) (clockReads w) (shareCalls w)
          (randomReads w) (history w).

Definition with_queue (w : World) (q : JsObject.t Session) : World :=
  mkWorld (sessions w) (sessionCounter w) q (clockReads w) (shareCalls w)
          (randomReads w) (history w).

(** ** A state and exception monad *)

Inductive Res (A : Type) : Type :=
| Ok (a : A)
| Throw (e : string).

Arguments Ok {A} a.
Arguments Throw {A} e.

Definition M (A : Type) : Type := World -> Res A * World.

Definition ret {A} (a : A) : M A := fun w => (Ok a, w).

Definition bind {A B} (m : M A) (k : A -> M B) : M B :=
  fun w =>
    match m w with
    | (Ok a, w') => k a w'
    | (Throw e, w') => (Throw e, w')
    end.

Definition throw {A} (e : string) : M A := fun w => (Throw e, w).

Definition try_catch {A} (body : M A) (handler : string -> M A) : M A :=
  fun w =>
    match body w with
    | (Ok a, w') => (Ok a, w')
    | (Throw e, w') => handler e w'
    end.

Declare Scope js_scope.
Delimit Scope js_scope with js.
Notation "x <- m ;; k" := (bind m (fun x => k))
  (at level 100, m at next level, right associativity) : js_scope.
Notation "m ;;; k" := (bind m (fun _ => k))
  (at level 100, right associativity) : js_scope.
Open Scope js_scope.

Definition Date_now (env : Env) : M timestamp :=
  fun w =>
    (Ok (env_clock env (clockReads w)),
     mkWorld (sessions w) (sessionCounter w) (queue w) (S (clockReads w))
             (shareCalls w) (randomReads w) (history w)).

(** ** Store access *)

Definition readSessions : M (JsObject.t Session) :=
  fun w => (Ok (sessions w), w).

Definition holds_undefined (s : Session) : bool :=
  match failedShares s with
  | Some undefined => true
  | _ => false
  end.

(** [sessionsRef.set(sessions)] refuses a value that contains [undefined]
    (the client library throws before sending anything); [writeSessions]
    catches and logs that error, so the stored document stays as it was. *)
Definition writeSessions (doc : JsObject.t Session) : M unit :=
  fun w =>
    if existsb holds_undefined (JsObject.values doc)
    then (Ok tt, w)
    else (Ok tt, with_sessions w doc).

(** [broadcastActiveSessions]: reads the store and the clock, builds the
    snapshot and sends it to the open sockets; nothing is written. *)
Definition broadcastActiveSessions (env : Env) : M unit :=
  _ <- readSessions ;;
  _ <- Date_now env ;;
  ret tt.

(** [(c / (c + (f || 0))) * 100]: a sum, a quotient and a product of
    doubles, each rounded. *)
Definition percentage (c : nat) (f : option jsnum) : Q :=
  round_to_double
    (round_to_double
       (Qnat c / round_to_double (Qnat c + or_zero f)) * 100)%Q.

Definition successRate_of (p : Progress) : string :=
  match p_completedShares p with
  | Some c =>
      if Qgtb (Qnat c) 0
      then toFixed 2 (percentage c (p_failedShares p))
      else "0.00"
  | None => "0.00"
  end.

Definition or_else {A} (x : option A) (d : A) : A :=
  match x with Some a => a | None => d end.

Definition or_keep {A} (x y : option A) : option A :=
  match x with Some a => Some a | None => y end.

(** [{ ...base, ...progress, lastUpdated, successRate }] *)
Definition merge_progress (base : Session) (p : Progress) (now : timestamp)
  : Session :=
  mkSession (or_else (p_status p) (status base))
            (totalShares base)
            (or_else (p_completedShares p) (completedShares base))
            (or_keep (p_failedShares p) (failedShares base))
            (or_keep (p_error p) (error base))
            (url base) (interval base) (createdAt base)
            (Some now)
            (sessionNumber base) (cookie base)
            (Some (successRate_of p))
            (amount base).

(** What [saveProgress] does once [await readSessions()] has handed it
    the document [all]: it changes [all] at [id] and writes the whole
    document back, over whatever the node holds by then. *)
Definition saveProgress_write (env : Env) (id : sessionId) (p : Progress)
           (all : JsObject.t Session) : M unit :=
  base <- match JsObject.get id all with
          | Some s => ret s
          | None =>
              t1 <- Date_now env ;;
              t2 <- Date_now env ;;
              ret (mkSession started 0 0 (Some (num 0)) None None None t1
                             (Some t2) None None None None)
          end ;;
  now <- Date_now env ;;
  writeSessions (JsObject.set id (merge_progress base p now) all) ;;;
  broadcastActiveSessions env.

(** [saveProgress] with no other writer between its read and its write. *)
Definition saveProgress (env : Env) (id : sessionId) (p : Progress) : M unit :=
  all <- readSessions ;;
  saveProgress_write env id p all.

(** ** The session runner *)

Definition MAX_CONSECUTIVE_FAILURES : nat := 10.
Definition MAX_PARALLEL_SESSIONS : nat := 5.
Definition BACKUP_INTERVAL : Z := 60000.
Definition maxRetries : nat := 3.

(** [fbOperationLimiter.schedule(() => performShare(...))] *)
Definition schedule_performShare (env : Env) : M bool :=
  fun w =>
    let w' := mkWorld (sessions w) (sessionCounter w) (queue w) (clockReads w)
                      (S (shareCalls w)) (randomReads w) (history w) in
    match env_performShare env (shareCalls w) with
    | Shared => (Ok true, w')
    | NotShared => (Ok false, w')
    | Rejected msg => (Throw msg, w')
    end.

(** [let success = false;
     for (let retry = 0; retry < maxRetries; retry++) {
       success = await ...; if (success) break; }] *)
Fixpoint attempt (env : Env) (retries : nat) : M bool :=
  match retries with
  | O => ret false
  | S r =>
      success <- schedule_performShare env ;;
      if success then ret true else attempt env r
  end.

(** [i < amount] *)
Definition loop_guard (i : nat) (amount : jsnum) : bool :=
  match amount with
  | undefined => false
  | num q => Qltb (Qnat i) q
  end.

(** [i === amount - 1] *)
Definition is_last (i : nat) (amount : jsnum) : bool :=
  match amount with
  | undefined => false
  | num q => Qeq_bool (Qnat i) (q - 1)
  end.

(** The values that [i] takes in [for (let i = 0; i < amount; i++)]:
    see [loop_indices_guard]. *)
Definition iterations (amount : jsnum) : nat :=
  match amount with
  | undefined => 0
  | num q => Z.to_nat (Qceiling q)
  end.

Definition loop_indices (amount : jsnum) : list nat :=
  seq 0 (iterations amount).

(** Pacing: two clock readings around a sleep of
    [Math.max(0, interval * 1000 - elapsed)] milliseconds; the sleep does
    not touch the world. *)
Definition pace (env : Env) : M unit :=
  _ <- Date_now env ;;
  _ <- Date_now env ;;
  ret tt.

Definition counts (sc fc : nat) : Progress :=
  mkProgress None None (Some sc) (Some (num (Qnat fc))).

Definition terminated_progress (sc fc : nat) : Progress :=
  mkProgress (Some terminated)
             (Some ("Terminated due to "
                    ++ decimal_of_N (N.of_nat MAX_CONSECUTIVE_FAILURES)
                    ++ " consecutive failures")%string)
             (Some sc) (Some (num (Qnat fc))).

(** [if (i % 5 === 0 || i === amount - 1)] *)
Definition flush_due (i : nat) (amount : jsnum) : bool :=
  Nat.eqb (i mod 5) 0 || is_last i amount.

Definition flush (env : Env) (id : sessionId) (amount : jsnum)
           (i sc fc : nat) : M unit :=
  if flush_due i amount then saveProgress env id (counts sc fc) else ret tt.

(** One turn of the [for] loop body. *)
Inductive IterExit : Type :=
| Next (successCount failedCount consecutiveFailures : nat)
| Stop.                                       (* [return] inside the loop *)

Definition iteration (env : Env) (id : sessionId) (amount : jsnum)
           (i successCount failedCount consecutiveFailures : nat)
  : M IterExit :=
  pace env ;;;
  success <- attempt env maxRetries ;;
  if success then
    flush env id amount i (S successCount) failedCount ;;;
    ret (Next (S successCount) failedCount 0)
  else
    if Nat.leb MAX_CONSECUTIVE_FAILURES (S consecutiveFailures) then
      saveProgress env id (terminated_progress successCount (S failedCount)) ;;;
      ret Stop
    else
      flush env id amount i successCount (S failedCount) ;;;
      ret (Next successCount (S failedCount) (S consecutiveFailures)).

Inductive LoopExit : Type :=
| LoopDone (successCount failedCount : nat)   (* the loop ran to its end *)
| LoopReturned.                               (* it was left by [return] *)

Fixpoint action_loop (env : Env) (id : sessionId) (amount : jsnum)
         (indices : list nat) (successCount failedCount consecutiveFailures : nat)
  : M LoopExit :=
  match indices with
  | [] => ret (LoopDone successCount failedCount)
  | i :: rest =>
      step <- iteration env id amount i successCount failedCount
                        consecutiveFailures ;;
      match step with
      | Stop => ret LoopReturned
      | Next sc fc cf => action_loop env id amount rest sc fc cf
      end
  end.

Definition setup_failure (msg : string) (amount : jsnum) : Progress :=
  mkProgress (Some failed) (Some msg) None (Some amount).

(** The number-valued bindings that the [catch] block of [processSession]
    can see: the module-level constants.  [amount] is declared with
    [const] inside the [try] block and is not among them. *)
Definition catch_scope (WORKER_COUNT : nat) : list (string * jsnum) :=
  [ ("BACKUP_INTERVAL", num (inject_Z BACKUP_INTERVAL));
    ("MAX_CONSECUTIVE_FAILURES", num (Qnat MAX_CONSECUTIVE_FAILURES));
    ("MAX_PARALLEL_SESSIONS", num (Qnat MAX_PARALLEL_SESSIONS));
    ("WORKER_COUNT", num (Qnat WORKER_COUNT)) ].

Fixpoint resolve (scope : list (string * jsnum)) (name : string)
  : option jsnum :=
  match scope with
  | [] => None
  | (n, v) :: rest => if String.eqb n name then Some v else resolve rest name
  end.

Definition processSession_try (env : Env) (id : sessionId) : M unit :=
  all <- readSessions ;;
  match JsObject.get id all with
  | None => ret tt
  | Some session =>
      let amount := match amount session with
                    | Some q => num q
                    | None => undefined
                    end in
      let isAlive := match cookie session with
                     | Some c => env_validateCookie env c
                     | None => false
                     end in
      if negb isAlive then
        saveProgress env id (setup_failure "Invalid cookie" amount)
      else
        match match cookie session with
              | Some c => env_getFacebookToken env c
              | None => None
              end with
        | None =>
            saveProgress env id (setup_failure "Token retrieval failed" amount)
        | Some facebookToken =>
            match env_getPostId env (or_else (url session) "undefined") with
            | None =>
                saveProgress env id (setup_failure "Invalid post ID" amount)
            | Some postId =>
                saveProgress env id
                  (mkProgress (Some in_progress) None None None) ;;;
                _ <- Date_now env ;;
                exit <- action_loop env id amount (loop_indices amount) 0 0 0 ;;
                match exit with
                | LoopReturned => ret tt
                | LoopDone successCount failedCount =>
                    saveProgress env id
                      (mkProgress (Some completed) None (Some successCount)
                                  (Some (num (Qnat failedCount))))
                end
            end
        end
  end.

(** The [catch] block evaluates
    [{ status: 'failed', error: error.message, failedShares: amount }]
    before it can call [saveProgress]; an identifier without a binding
    raises a [ReferenceError]. *)
Definition processSession_catch (env : Env) (WORKER_COUNT : nat)
           (id : sessionId) (message : string) : M unit :=
  match resolve (catch_scope WORKER_COUNT) "amount" with
  | Some v =>
      saveProgress env id (mkProgress (Some failed) (Some message) None (Some v))
  | None => throw "ReferenceError: amount is not defined"
  end.

Definition processSession (env : Env) (WORKER_COUNT : nat) (id : sessionId)
  : M unit :=
  try_catch (processSession_try env id)
            (processSession_catch env WORKER_COUNT id).

(** ** Sequence numbers *)

Definition activeSessions (all : JsObject.t Session) : list Session :=
  filter (fun s => is_active_status (status s)) (JsObject.values all).

Definition counter_is_zero (c : option Z) : bool :=
  match c with
  | Some z => Z.eqb z 0
  | None => false
  end.

Definition counterRef_set (z : Z) : M unit :=
  fun w => (Ok tt, with_counter w (Some z)).

Definition counterRef_once : M (option Z) :=
  fun w => (Ok (sessionCounter w), w).

Definition getNextSessionNumber : M Z :=
  currentValue <- counterRef_once ;;
  all <- readSessions ;;
  if Nat.eqb (List.length (activeSessions all)) 0
     && negb (counter_is_zero currentValue)
  then
    counterRef_set 0 ;;;
    ret 1%Z
  else
    let newValue := (or_else currentValue 0 + 1)%Z in
    counterRef_set newValue ;;;
    ret newValue.

(** ** Queue processing *)

(** [ref.child(id).set(value)]: like [sessionsRef.set], it throws on a
    value that contains [undefined]. *)
Definition sessions_child_set (id : sessionId) (data : Session) : M unit :=
  fun w =>
    if holds_undefined data
    then (Throw "Reference.set failed: value contains undefined", w)
    else (Ok tt, with_sessions w (JsObject.set id data (sessions w))).

Definition queue_child_set (id : sessionId) (data : Session) : M unit :=
  fun w =>
    if holds_undefined data
    then (Throw "Reference.set failed: value contains undefined", w)
    else (Ok tt, with_queue w (JsObject.set id data (queue w))).

Definition queue_child_remove (id : sessionId) : M unit :=
  fun w => (Ok tt, with_queue w (JsObject.remove id (queue w))).

Definition readQueue : M (JsObject.t Session) :=
  fun w => (Ok (queue w), w).

(** [processQueue]: the result is the identifier for which a worker (a
    [processSession] run in its own thread) is started, if any. *)
Definition processQueue (WORKER_COUNT : nat) : M (option sessionId) :=
  try_catch
    (q <- readQueue ;;
     all <- readSessions ;;
     let activeCount := List.length (activeSessions all) in
     if Nat.leb (MAX_PARALLEL_SESSIONS * WORKER_COUNT) activeCount then
       ret None
     else
       match JsObject.keys q with
       | [] => ret None
       | nextSessionId :: _ =>
           match JsObject.get nextSessionId q with
           | None => throw "Reference.set failed: value is undefined"
           | Some sessionData =>
               sessions_child_set nextSessionId sessionData ;;;
               queue_child_remove nextSessionId ;;;
               ret (Some nextSessionId)
           end
       end)
    (fun _ => ret None).

(** ** Startup *)

Definition interrupt (s : Session) : Session :=
  if Status_eqb (status s) in_progress then
    mkSession failed (totalShares s) (completedShares s) (failedShares s)
              (Some "Server restart interrupted this session")
              (url s) (interval s) (createdAt s) (lastUpdated s)
              (sessionNumber s) (cookie s) (successRate s) (amount s)
  else s.

(** The [for ... of Object.entries(sessions)] loop of the startup code. *)
Definition recover (o : JsObject.t Session) : JsObject.t Session :=
  map (fun e => (fst e, interrupt (snd e))) o.

Definition startup : M unit :=
  all <- readSessions ;;
  let needsUpdate :=
    existsb (fun s => Status_eqb (status s) in_progress) (JsObject.values all) in
  let all' := recover all in
  (if needsUpdate then writeSessions all' else ret tt) ;;;
  if Nat.eqb (List.length (activeSessions all')) 0 then
    fun w =>
      if negb (counter_is_zero (sessionCounter w))
      then counterRef_set 0 w
      else (Ok tt, w)
  else ret tt.

(** ** The submission endpoint *)

(** Strings are sequences of one-byte characters. *)
Definition to_lower (c : ascii) : ascii :=
  let n := nat_of_ascii c in
  if Nat.leb 65 n && Nat.leb n 90 then ascii_of_nat (n + 32) else c.

Fixpoint lower (s : string) : string :=
  match s with
  | EmptyString => EmptyString
  | String c rest => String (to_lower c) (lower rest)
  end.

Fixpoint strip_prefix (p s : string) : option string :=
  match p, s with
  | EmptyString, _ => Some s
  | String a p', String b s' =>
      if Ascii.eqb a b then strip_prefix p' s' else None
  | String _ _, EmptyString => None
  end.

(** [s.includes(sub)] *)
Fixpoint includes (s sub : string) : bool :=
  String.prefix sub s ||
  match s with
  | EmptyString => false
  | String _ rest => includes rest sub
  end.

Definition is_line_terminator (c : ascii) : bool :=
  let n := nat_of_ascii c in Nat.eqb n 10 || Nat.eqb n 13.

(** [url.match(/^https?:\/\/(www\.)?facebook\.com\/.+/i)] *)
Definition url_matches (u : string) : bool :=
  match strip_prefix "http" (lower u) with
  | None => false
  | Some r1 =>
      let r2 := or_else (strip_prefix "s" r1) r1 in
      match strip_prefix "://" r2 with
      | None => false
      | Some r3 =>
          let r4 := or_else (strip_prefix "www." r3) r3 in
          match strip_prefix "facebook.com/" r4 with
          | Some (String c _) => negb (is_line_terminator c)
          | _ => false
          end
      end
  end.

Definition is_space (c : ascii) : bool :=
  let n := nat_of_ascii c in
  (Nat.leb 9 n && Nat.leb n 13) || Nat.eqb n 32 || Nat.eqb n 160.

Fixpoint trim_start (s : string) : string :=
  match s with
  | EmptyString => EmptyString
  | String c rest => if is_space c then trim_start rest else s
  end.

Fixpoint rev_string (acc s : string) : string :=
  match s with
  | EmptyString => acc
  | String c rest => rev_string (String c acc) rest
  end.

(** [s.trim()] *)
Definition trim (s : string) : string :=
  rev_string "" (trim_start (rev_string "" (trim_start s))).

(** An element of a cookie array: an object with string properties [key]
    and [value], or [null] (reading a property of it throws). *)
Inductive cookie_item : Type :=
| Item (key value : string)
| NullItem.

Definition truthy (s : string) : bool :=
  match s with EmptyString => false | _ => true end.

Fixpoint join (sep : string) (l : list string) : string :=
  match l with
  | [] => ""
  | [x] => x
  | x :: rest => x ++ sep ++ join sep rest
  end.

(** [convertJsonToCookieString] on an array; [None]: it throws. *)
Definition convertJsonToCookieString (items : list cookie_item)
  : option string :=
  if existsb (fun it => match it with NullItem => true | _ => false end) items
  then None
  else
    Some (join "; "
            (flat_map (fun it =>
                         match it with
                         | Item k v =>
                             if truthy k && truthy v then [k ++ "=" ++ v] else []
                         | NullItem => []
                         end) items))%string.

(** The [cookie] field of a request body. *)
Inductive cookie_arg : Type :=
| CookieString (s : string)
| CookieArray (items : list cookie_item)
| CookieOther.

(** A request to [/api/v1/submit]; a field is [None] when it does not
    have the type that the handler asks for ([string] for [url], [number]
    for [amount] and [interval]). *)
Record Request : Type := mkRequest {
  req_header : option string;   (* req.headers[REQUIRED_HEADER.toLowerCase()] *)
  body_cookie : cookie_arg;
  body_url : option string;
  body_amount : option Q;
  body_interval : option Q
}.

Inductive ResponseData : Type :=
| NoData
| QueuedData (sessionId : sessionId) (sessionNumber : Z)
| ErrorData (error : string).

Inductive Response : Type :=
| Forbidden    (* res.status(403).json({ error: 'Forbidden', ... }) *)
| apiResponse (status : nat) (message : string) (data : ResponseData).

Section Submit.
(** [process.env.HV] *)
Variable HEADER_VALUE : option string.
(** [JSON.parse] on a cookie string, followed by the array test of
    [convertJsonToCookieString]: [Some items] when the text is a JSON
    array, [None] when either step throws. *)
Variable JSON_parse_array : string -> option (list cookie_item).
Variable env : Env.

Definition option_string_eqb (a b : option string) : bool :=
  match a, b with
  | Some x, Some y => String.eqb x y
  | None, None => true
  | _, _ => false
  end.

Definition checkHeader (req : Request) : bool :=
  option_string_eqb (req_header req) HEADER_VALUE.

Definition Math_random : M Q :=
  fun w =>
    (Ok (env_random env (randomReads w)),
     mkWorld (sessions w) (sessionCounter w) (queue w) (clockReads w)
             (shareCalls w) (S (randomReads w)) (history w)).

(** [Math.floor(100000 + Math.random() * 900000)]: the product and the
    sum are doubles. *)
Definition sessionId_of (r : Q) : sessionId :=
  Z.to_N (Qfloor (round_to_double
                    (100000 + round_to_double (r * 900000))%Q)).

Definition generateSessionId : M sessionId :=
  r <- Math_random ;;
  ret (sessionId_of r).

(** The [cookieString] of the handler; [None]: the outer [catch]. *)
Definition cookieString_of (c : cookie_arg) : option string :=
  match c with
  | CookieArray items => convertJsonToCookieString items
  | CookieString s =>
      match JSON_parse_array s with
      | Some items =>
          match convertJsonToCookieString items with
          | Some cs => Some cs
          | None => Some s
          end
      | None => Some s
      end
  | CookieOther => None
  end.

Definition requiredCookieKeys : list string :=
  ["xs="; "c_user="; "fr="; "datr="].

Definition submit_handler_try (req : Request) : M Response :=
  match body_cookie req, body_url req, body_amount req, body_interval req with
  | CookieOther, _, _, _ | _, None, _, _ | _, _, None, _ | _, _, _, None =>
      ret (apiResponse 400
             "Invalid parameter types. Expected: cookie(string or array), url(string), amount(number), interval(number)"
             NoData)
  | cookie, Some url, Some amount, Some interval =>
      match cookieString_of cookie with
      | None =>
          ret (apiResponse 400
                 "Invalid cookie format. Must be either a valid JSON array or string format."
                 NoData)
      | Some cookieString =>
          if negb (existsb (includes cookieString) requiredCookieKeys) then
            ret (apiResponse 400
                   "Invalid Facebook cookie. Must contain authentication tokens."
                   NoData)
          else if negb (url_matches url) then
            ret (apiResponse 400
                   "Invalid Facebook URL format. Must start with https://facebook.com/"
                   NoData)
          else if Qle_bool amount 0 then
            ret (apiResponse 400
                   "Share amount must be at least 1 or greater than 0" NoData)
          else if Qltb interval (1 # 10) || Qgtb interval 60 then
            ret (apiResponse 400
                   "Interval must be between 0.1 and 60 seconds" NoData)
          else if Qltb interval 1 && Qgtb amount 100 then
            ret (apiResponse 400
                   "For intervals below 1 second, maximum shares is 100" NoData)
          else
            sessionId <- generateSessionId ;;
            sessionNumber <- getNextSessionNumber ;;
            now <- Date_now env ;;
            queue_child_set sessionId
              (mkSession queued (Qfloor amount) 0 None None
                         (Some (trim url))
                         (Some (parseFloat_toFixed1 interval))
                         now None (Some sessionNumber) (Some cookieString)
                         None None) ;;;
            ret (apiResponse 200 "Sharing process queued successfully"
                   (QueuedData sessionId sessionNumber))
      end
  end.

Definition submit_handler (req : Request) : M Response :=
  try_catch (submit_handler_try req)
            (fun message =>
               ret (apiResponse 500 "Internal server error"
                                (ErrorData message))).

(** [app.post("/api/v1/submit", checkHeader, async (req, res) => ...)] *)
Definition submit (req : Request) : M Response :=
  if checkHeader req then submit_handler req else ret Forbidden.
End Submit.
(** ** Properties stated by the specification *)

Unset Implicit Arguments.

(** No stored record holds [undefined] (Firebase cannot store it). *)
Definition clean (o : JsObject.t Session) : Prop :=
  existsb holds_undefined (JsObject.values o) = false.

(** The requested count of a stored session is [totalShares] (what the
    snapshot reports as [amount]); the failed count of a record is
    [failedShares || 0]. *)
Definition requested (s : Session) : Q := inject_Z (totalShares s).

Definition counted (s : Session) : Q :=
  (Qnat (completedShares s) + or_zero (failedShares s))%Q.

Definition counts_invariant (s : Session) : Prop :=
  (counted s <= requested s)%Q /\
  (is_terminal_status (status s) = true ->
   (counted s == requested s)%Q \/
   (status s = terminated /\ (counted s <= requested s)%Q)).

(** The three setup calls of [processSession] succeed for [s]. *)
Definition setup_ok (env : Env) (s : Session) : Prop :=
  exists c,
    cookie s = Some c /\
    env_validateCookie env c = true /\
    env_getFacebookToken env c <> None /\
    env_getPostId env (or_else (url s) "undefined") <> None.

(** One of the three setup calls of [processSession] fails for [s]. *)
Definition setup_fails (env : Env) (s : Session) : Prop :=
  match cookie s with
  | None => True
  | Some c =>
      env_validateCookie env c = false \/
      env_getFacebookToken env c = None \/
      env_getPostId env (or_else (url s) "undefined") = None
  end.

Definition run {A} (m : M A) (w : World) : World := snd (m w).
Definition result {A} (m : M A) (w : World) : Res A := fst (m w).

(** What the specification says of a session whose shares always fail. *)
Definition reaches_terminated (env : Env) (WORKER_COUNT : nat)
           (id : sessionId) (w : World) : Prop :=
  exists s',
    JsObject.get id (sessions (run (processSession env WORKER_COUNT id) w))
      = Some s' /\
    status s' = terminated.

(** [m] wrote to the [sessions] node when run from [w]. *)
Definition wrote {A} (m : M A) (w : World) : bool :=
  Nat.ltb (List.length (history w)) (List.length (history (run m w))).

(** The loop turns of a run during which the store was written; the
    recursion is that of [action_loop]. *)
Fixpoint flushing_iterations (env : Env) (id : sessionId) (amount : jsnum)
         (indices : list nat) (sc fc cf : nat) (w : World) : list nat :=
  match indices with
  | [] => []
  | i :: rest =>
      let m := iteration env id amount i sc fc cf in
      let here := if wrote m w then [i] else [] in
      match result m w with
      | Ok (Next sc' fc' cf') =>
          here ++ flushing_iterations env id amount rest sc' fc' cf' (run m w)
      | _ => here
      end
  end.

(** The rule of the specification: turn [i] performs action number
    [i + 1], which is a fifth action or the last of [n]. *)
Definition every_fifth_or_final (n i : nat) : bool :=
  Nat.eqb (S i mod 5) 0 || Nat.eqb (S i) n.

(** The key that was written to the object first. *)
Definition oldest_enqueued (q : JsObject.t Session) : option sessionId :=
  hd_error (map fst q).

(** The fields of a request other than [amount] and [interval] pass the
    checks of the handler. *)
Definition well_formed_otherwise (HEADER_VALUE : option string)
           (JSON_parse_array : string -> option (list cookie_item))
           (req : Request) : Prop :=
  checkHeader HEADER_VALUE req = true /\
  exists cookieString u,
    cookieString_of JSON_parse_array (body_cookie req) = Some cookieString /\
    existsb (includes cookieString) requiredCookieKeys = true /\
    body_url req = Some u /\
    url_matches u = true.

(** [r] is [x] rounded to one decimal place, halves upwards. *)
Definition rounded_to_one_decimal (x r : Q) : Prop :=
  exists n : Z,
    (r == inject_Z n / 10)%Q /\
    (inject_Z n - (1 # 2) <= x * 10)%Q /\
    (x * 10 < inject_Z n + (1 # 2))%Q.

(** ** Vocabulary of the proofs *)

(** The store part of a world is left alone; only the counters of clock
    readings and of share calls move. *)
Definition bump (c s : nat) (w : World) : World :=
  mkWorld (sessions w) (sessionCounter w) (queue w) (c + clockReads w)
          (s + shareCalls w) (randomReads w) (history w).

(** The runner finds its session in a store that it can write. *)
Definition tracked (id : sessionId) (w : World) : Prop :=
  clean (sessions w) /\ exists s, JsObject.get id (sessions w) = Some s.

Definition terminated_message : string :=
  "Terminated due to 10 consecutive failures".

(** The store document [doc] holds, for [id], a record whose counts
    respect the invariant of the specification. *)
Definition good_doc (id : sessionId) (doc : JsObject.t Session) : Prop :=
  exists s, JsObject.get id doc = Some s /\ counts_invariant s.

(** Every write made since the history [h0] left a good document. *)
Definition good_history (id : sessionId) (h0 : list (JsObject.t Session))
           (w : World) : Prop :=
  forall doc, In doc (history w) -> In doc h0 \/ good_doc id doc.

(** The runner's session is in progress, for [n] requested shares. *)
Definition running (id : sessionId) (n : nat) (w : World) : Prop :=
  clean (sessions w) /\
  exists s,
    JsObject.get id (sessions w) = Some s /\
    status s = in_progress /\
    totalShares s = Z.of_nat n.

(** ** Example inputs *)

Definition never_shares : nat -> ShareResult := fun _ => NotShared.

(** An environment whose setup calls succeed; its random numbers are
    1/2, 1/3, 1/4, ..., so the identifiers that [generateSessionId] draws
    are 550000, 400000, 325000, ... *)
Definition example_env (share : nat -> ShareResult) : Env :=
  mkEnv (fun _ => true)
        (fun c => Some (c ++ "|EAAGtoken")%string)
        (fun _ => Some "1234")
        share
        (fun k => N.of_nat k)
        (fun k => (1 # Pos.of_nat (k + 2))%Q).

(** An environment in which the credential is no longer valid. *)
Definition dead_cookie_env : Env :=
  mkEnv (fun _ => false)
        (fun c => Some (c ++ "|EAAGtoken")%string)
        (fun _ => Some "1234")
        never_shares
        (fun k => N.of_nat k)
        (fun _ => (1 # 2)%Q).

Definition example_HEADER_VALUE : option string := Some "secret".

(** The example cookies below are not JSON texts. *)
Definition example_JSON_parse_array : string -> option (list cookie_item) :=
  fun _ => None.

Definition example_request (amount interval : Q) : Request :=
  mkRequest (Some "secret") (CookieString "c_user=1; xs=2")
            (Some "https://www.facebook.com/post/1")
            (Some amount) (Some interval).

(** The state after startup on an empty database. *)
Definition fresh_world : World := mkWorld [] (Some 0%Z) [] 0 0 0 [].

Definition example_submit (env : Env) (amount interval : Q) : M Response :=
  submit example_HEADER_VALUE example_JSON_parse_array env
         (example_request amount interval).

(** The world after a request for [amount] shares was submitted and then
    promoted by [processQueue]; its identifier is 550000. *)
Definition promoted_world (amount interval : Q) : World :=
  run (processQueue 4)
      (run (example_submit (example_env never_shares) amount interval)
           fresh_world).

(** A stored record that does carry the [amount] property. *)
Definition record_with_amount (n : Z) : Session :=
  mkSession queued n 0 None None (Some "https://www.facebook.com/post/1")
            (Some 1%Q) 0%N None (Some 1%Z) (Some "c_user=1; xs=2") None
            (Some (inject_Z n)).

Definition world_with_amount (n : Z) : World :=
  mkWorld [(550000%N, record_with_amount n)] (Some 1%Z) [] 0 0 0
          [[(550000%N, record_with_amount n)]].

(** An environment whose limiter rejects the first scheduled job. *)
Definition rejecting_env : Env :=
  example_env (fun k => match k with
                        | O => Rejected "This limiter has been stopped."
                        | _ => NotShared
                        end).

(** The first two share calls succeed, every later one fails. *)
Definition two_then_none : nat -> ShareResult :=
  fun k => if Nat.ltb k 2 then Shared else NotShared.

(** Two submissions in a row on a fresh database: 550000 is enqueued
    first, 400000 second. *)
Definition two_queued_world : World :=
  run (example_submit (example_env never_shares) 5 1)
      (run (example_submit (example_env never_shares) 20 1) fresh_world).

(** A database in which three sessions have run to completion. *)
Definition finished_record : Session :=
  mkSession completed 3 3 (Some (num 0)) None
            (Some "https://www.facebook.com/post/0") (Some 1%Q) 0%N (Some 9%N)
            (Some 3%Z) (Some "c_user=1; xs=2") (Some "100.00") None.

Definition idle_world : World :=
  mkWorld [(111111%N, finished_record)] (Some 3%Z) [] 0 0 0 [].

(** The first submission on [idle_world], promoted, at the moment its
    runner has flushed the status in_progress. *)
Definition first_running_world : World :=
  run (saveProgress (example_env never_shares) 550000%N
         (mkProgress (Some in_progress) None None None))
      (run (processQueue 4)
           (run (example_submit (example_env never_shares) 20 1) idle_world)).

(** A database that holds one finished and one interrupted session. *)
Definition interrupted_world : World :=
  mkWorld [(111111%N, finished_record);
           (222222%N,
            mkSession in_progress 10 4 (Some (num 1)) None
                      (Some "https://www.facebook.com/post/2") (Some 1%Q) 5%N
                      (Some 7%N) (Some 4%Z) (Some "c_user=1; xs=2")
                      (Some "80.00") None)]
          (Some 4%Z) [] 0 0 0 [].


(** ** Vocabulary of the further properties *)

(** From [w] to [w'] nothing moved but the record of [id], the clock and
    the count of share calls. *)
Definition frame (id : sessionId) (w w' : World) : Prop :=
  queue w' = queue w /\
  sessionCounter w' = sessionCounter w /\
  randomReads w' = randomReads w /\
  forall k, k <> id ->
    JsObject.get k (sessions w') = JsObject.get k (sessions w).

Definition keeps_frame {A} (id : sessionId) (m : M A) : Prop :=
  forall w, frame id w (run m w).

(** [m] makes at most [c] calls of [performShare]. *)
Definition calls_within {A} (c : nat) (m : M A) : Prop :=
  forall w,
    shareCalls w <= shareCalls (run m w) /\
    shareCalls (run m w) <= c + shareCalls w.

(** The value of [amount] that [processSession] works with. *)
Definition amount_read (s : Session) : jsnum :=
  match amount s with
  | Some q => num q
  | None => undefined
  end.

(** The runner's session is stored, in progress, in a store that takes
    writes. *)
Definition in_progress_at (id : sessionId) (w : World) : Prop :=
  clean (sessions w) /\
  exists s, JsObject.get id (sessions w) = Some s /\ status s = in_progress.

(** The ways in which a run of [processSession] can leave the record [s]
    of its session, as [s'], after [calls] calls of [performShare]. *)
Inductive RunEnd (env : Env) (s : Session) (r : Res unit) (calls : nat)
          (s' : Session) : Prop :=
| EndRefused :
    r = Ok tt -> calls = 0 -> s' = s -> amount s = None ->
    setup_fails env s -> RunEnd env s r calls s'
| EndSetupFailed :
    r = Ok tt -> calls = 0 -> status s' = failed ->
    setup_fails env s -> RunEnd env s r calls s'
| EndCompleted (f : nat) :
    r = Ok tt -> status s' = completed ->
    failedShares s' = Some (num (Qnat f)) ->
    completedShares s' + f = iterations (amount_read s) ->
    RunEnd env s r calls s'
| EndTerminated (f : nat) :
    r = Ok tt -> status s' = terminated ->
    failedShares s' = Some (num (Qnat f)) ->
    MAX_CONSECUTIVE_FAILURES <= f ->
    completedShares s' + f <= iterations (amount_read s) ->
    MAX_CONSECUTIVE_FAILURES * maxRetries <= calls ->
    RunEnd env s r calls s'
| EndThrown :
    r = Throw "ReferenceError: amount is not defined" ->
    status s' = in_progress -> RunEnd env s r calls s'.

Definition always_shares : nat -> ShareResult := fun _ => Shared.

(** No record of the object has an active status. *)
Definition no_active (o : JsObject.t Session) : Prop :=
  forall k s, In (k, s) o -> is_active_status (status s) = false.

(** [n] timer ticks of [processQueue], with no runner writing in between. *)
Fixpoint ticks (n : nat) (WORKER_COUNT : nat) (w : World) : World :=
  match n with
  | O => w
  | S n' => ticks n' WORKER_COUNT (run (processQueue WORKER_COUNT) w)
  end.

(** The amount and the interval pass the three numeric tests of the
    submission handler. *)
Definition admissible (amt itv : Q) : Prop :=
  (0 < amt)%Q /\ (1 # 10 <= itv)%Q /\ (itv <= 60)%Q /\
  (1 <= itv \/ amt <= 100)%Q.

(** The request passes every test of the submission route. *)
Definition acceptable (HEADER_VALUE : option string)
           (JSON_parse_array : string -> option (list cookie_item))
           (req : Request) : Prop :=
  well_formed_otherwise HEADER_VALUE JSON_parse_array req /\
  exists amt itv,
    body_amount req = Some amt /\ body_interval req = Some itv /\
    admissible amt itv.

(** The identifier that [generateSessionId] draws in [w]. *)
Definition drawn_id (env : Env) (w : World) : sessionId :=
  sessionId_of (env_random env (randomReads w)).

(** The world after one accepted submission of 20 shares, in an
    environment whose random generator always answers 1/2. *)
Definition once_submitted_world : World :=
  run (example_submit dead_cookie_env 20 1) fresh_world.

(** No record of the object has the property [amount]. *)
Definition no_amount (o : JsObject.t Session) : Prop :=
  forall k s, In (k, s) o -> amount s = None.

(** Neither the sessions nor the queue hold a record with [amount], and
    [performShare] was called [c] times so far. *)
Definition unshared (c : nat) (w : World) : Prop :=
  no_amount (sessions w) /\ no_amount (queue w) /\ shareCalls w = c.

(** The server at work: requests are submitted, the queue timer ticks,
    runners are executed for arbitrary identifiers and the process is
    restarted, in any order; each of these is taken as a whole. *)
Inductive steps (HEADER_VALUE : option string)
          (JSON_parse_array : string -> option (list cookie_item))
          (env : Env) (WORKER_COUNT : nat) (w : World) : World -> Prop :=
| steps_none : steps HEADER_VALUE JSON_parse_array env WORKER_COUNT w w
| steps_submit (req : Request) (w' : World) :
    steps HEADER_VALUE JSON_parse_array env WORKER_COUNT w w' ->
    steps HEADER_VALUE JSON_parse_array env WORKER_COUNT w
          (run (submit HEADER_VALUE JSON_parse_array env req) w')
| steps_tick (w' : World) :
    steps HEADER_VALUE JSON_parse_array env WORKER_COUNT w w' ->
    steps HEADER_VALUE JSON_parse_array env WORKER_COUNT w
          (run (processQueue WORKER_COUNT) w')
| steps_run (id : sessionId) (w' : World) :
    steps HEADER_VALUE JSON_parse_array env WORKER_COUNT w w' ->
    steps HEADER_VALUE JSON_parse_array env WORKER_COUNT w
          (run (processSession env WORKER_COUNT id) w')
| steps_restart (w' : World) :
    steps HEADER_VALUE JSON_parse_array env WORKER_COUNT w w' ->
    steps HEADER_VALUE JSON_parse_array env WORKER_COUNT w (run startup w').

(** A request is submitted, promoted and run, in an environment in which
    every share would succeed. *)
Definition served_world : World :=
  run (processSession (example_env always_shares) 4 550000%N)
      (run (processQueue 4)
           (run (example_submit (example_env always_shares) 20 1)
                fresh_world)).

(** The latest [maxRetries * n] calls of [performShare] all failed. *)
Definition trailing (env : Env) (n : nat) (w : World) : Prop :=
  maxRetries * n <= shareCalls w /\
  forall k,
    shareCalls w - maxRetries * n <= k -> k < shareCalls w ->
    env_performShare env k = NotShared.

(** ** Lemmas on objects *)

Lemma get_set_eq (V : Type) (k : sessionId) (v : V) (o : JsObject.t V) :
  JsObject.get k (JsObject.set k v o) = Some v.
Proof.
  induction o as [|[k' v'] rest IH]; simpl.
  - now rewrite N.eqb_refl.
  - destruct (N.eqb k k') eqn:E; simpl.
    + now rewrite N.eqb_refl.
    + now rewrite E.
Qed.

Lemma get_set_neq (V : Type) (k k' : sessionId) (v : V) (o : JsObject.t V) :
  k' <> k -> JsObject.get k' (JsObject.set k v o) = JsObject.get k' o.
Proof.
  intros Hne. induction o as [|[k0 v0] rest IH]; simpl.
  - destruct (N.eqb k' k) eqn:E; [apply N.eqb_eq in E; contradiction|reflexivity].
  - destruct (N.eqb k k0) eqn:E; simpl.
    + apply N.eqb_eq in E. subst k0.
      destruct (N.eqb k' k) eqn:E'; [apply N.eqb_eq in E'; contradiction|reflexivity].
    + destruct (N.eqb k' k0); [reflexivity|exact IH].
Qed.

Lemma get_remove_eq (V : Type) (k : sessionId) (o : JsObject.t V) :
  JsObject.get k (JsObject.remove k o) = None.
Proof.
  induction o as [|[k' v'] rest IH]; simpl; [reflexivity|].
  destruct (N.eqb k k') eqn:E; simpl; [exact IH|].
  now rewrite E.
Qed.

Lemma get_remove_neq (V : Type) (k k' : sessionId) (o : JsObject.t V) :
  k' <> k -> JsObject.get k' (JsObject.remove k o) = JsObject.get k' o.
Proof.
  intros Hne. induction o as [|[k0 v0] rest IH]; simpl; [reflexivity|].
  destruct (N.eqb k k0) eqn:E; simpl.
  - apply N.eqb_eq in E. subst k0.
    destruct (N.eqb k' k) eqn:E'; [apply N.eqb_eq in E'; contradiction|exact IH].
  - destruct (N.eqb k' k0); [reflexivity|exact IH].
Qed.

Lemma clean_set (k : sessionId) (v : Session) (o : JsObject.t Session) :
  clean o -> holds_undefined v = false -> clean (JsObject.set k v o).
Proof.
  unfold clean. intros Ho Hv.
  induction o as [|[k' v'] rest IH]; simpl in *.
  - now rewrite Hv.
  - apply orb_false_iff in Ho. destruct Ho as [H1 H2].
    destruct (N.eqb k k'); simpl.
    + now rewrite Hv, H2.
    + now rewrite H1, (IH H2).
Qed.

Lemma clean_get (k : sessionId) (v : Session) (o : JsObject.t Session) :
  clean o -> JsObject.get k o = Some v -> holds_undefined v = false.
Proof.
  unfold clean. induction o as [|[k' v'] rest IH]; simpl; intros Ho Hg.
  - discriminate.
  - apply orb_false_iff in Ho. destruct Ho as [H1 H2].
    destruct (N.eqb k k').
    + now inversion Hg; subst.
    + now apply IH.
Qed.

Lemma unclean_set (k : sessionId) (v : Session) (o : JsObject.t Session) :
  holds_undefined v = true ->
  existsb holds_undefined (JsObject.values (JsObject.set k v o)) = true.
Proof.
  intros Hv. induction o as [|[k' v'] rest IH]; simpl.
  - now rewrite Hv.
  - destruct (N.eqb k k'); simpl.
    + now rewrite Hv.
    + rewrite IH. apply orb_true_r.
Qed.

(** ** Lemmas on [saveProgress] *)

Definition defined (x : option jsnum) : Prop := x <> Some undefined.

Lemma holds_undefined_merge (base : Session) (p : Progress) (t : timestamp) :
  holds_undefined base = false -> defined (p_failedShares p) ->
  holds_undefined (merge_progress base p t) = false.
Proof.
  unfold holds_undefined, defined, merge_progress; simpl.
  destruct (p_failedShares p) as [[|q]|]; simpl; intros Hb Hp;
    [now elim Hp | reflexivity | exact Hb].
Qed.

(** A flush of defined counts for a stored session writes the merged
    record. *)
Lemma saveProgress_stored (env : Env) (id : sessionId) (p : Progress)
      (w : World) (base : Session) :
  clean (sessions w) ->
  JsObject.get id (sessions w) = Some base ->
  defined (p_failedShares p) ->
  saveProgress env id p w =
    (Ok tt,
     let doc := JsObject.set id
                  (merge_progress base p (env_clock env (clockReads w)))
                  (sessions w) in
     mkWorld doc (sessionCounter w) (queue w) (S (S (clockReads w)))
             (shareCalls w) (randomReads w) (doc :: history w)).
Proof.
  intros Hc Hg Hp.
  unfold saveProgress, saveProgress_write, bind, readSessions, writeSessions,
    broadcastActiveSessions, bind, readSessions, Date_now, ret; simpl.
  rewrite Hg; simpl.
  assert (Hm : clean (JsObject.set id
             (merge_progress base p (env_clock env (clockReads w)))
             (sessions w))).
  { apply clean_set; [exact Hc|].
    apply holds_undefined_merge; [|exact Hp].
    eapply clean_get; eauto. }
  unfold clean in Hm. rewrite Hm. reflexivity.
Qed.

(** A flush that carries [undefined] is refused by the store: only the
    clock moves. *)
Lemma saveProgress_undefined (env : Env) (id : sessionId) (p : Progress)
      (w : World) (base : Session) :
  JsObject.get id (sessions w) = Some base ->
  p_failedShares p = Some undefined ->
  saveProgress env id p w =
    (Ok tt,
     mkWorld (sessions w) (sessionCounter w) (queue w) (S (S (clockReads w)))
             (shareCalls w) (randomReads w) (history w)).
Proof.
  intros Hg Hp.
  unfold saveProgress, saveProgress_write, bind, readSessions, writeSessions,
    broadcastActiveSessions, bind, readSessions, Date_now, ret; simpl.
  rewrite Hg; simpl.
  rewrite unclean_set; [reflexivity|].
  unfold holds_undefined, merge_progress; simpl. now rewrite Hp.
Qed.

(** ** The runner on a record without [amount] *)

(** C1 (the code departs from it): the runner reads the requested count
    from a property [amount] that no stored record has.  For such a
    record, once setup succeeds, no share is attempted and the session is
    marked completed with 0 completed and 0 failed shares, so the final
    counts do not add up to the requested [totalShares] when that is
    positive. *)
Theorem processSession_without_amount
        (env : Env) (WORKER_COUNT : nat) (id : sessionId) (w : World)
        (s : Session) :
  clean (sessions w) ->
  JsObject.get id (sessions w) = Some s ->
  amount s = None ->
  setup_ok env s ->
  exists w' s',
    processSession env WORKER_COUNT id w = (Ok tt, w') /\
    shareCalls w' = shareCalls w /\
    JsObject.get id (sessions w') = Some s' /\
    status s' = completed /\
    completedShares s' = 0 /\
    failedShares s' = Some (num (Qnat 0)) /\
    totalShares s' = totalShares s /\
    ((0 < totalShares s)%Z -> ~ counts_invariant s').
Proof.
  intros Hc Hg Ha (c & Hck & Hv & Ht & Hp).
  unfold processSession, try_catch, processSession_try.
  unfold bind at 1. unfold readSessions at 1. simpl.
  rewrite Hg, Ha, Hck, Hv. simpl.
  destruct (env_getFacebookToken env c) as [tok|]; [|now elim Ht].
  destruct (env_getPostId env (or_else (url s) "undefined")) as [pid|];
    [|now elim Hp].
  unfold bind at 1.
  rewrite (saveProgress_stored env id _ w s Hc Hg); [|discriminate].
  cbv zeta.
  unfold bind at 1. unfold Date_now at 1. simpl.
  unfold bind at 1. unfold ret at 1. 
  match goal with
  | |- context [saveProgress env id ?p ?w1] =>
      rewrite (saveProgress_stored env id p w1
                 (merge_progress s (mkProgress (Some in_progress) None None None)
                                 (env_clock env (clockReads w))))
  end.
  - simpl. eexists. eexists. split; [reflexivity|]. simpl.
    split; [reflexivity|]. split; [apply get_set_eq|]. simpl.
    repeat split.
    intros Hpos [_ Hterm]. simpl in Hterm.
    destruct (Hterm eq_refl) as [Heq|[Hst _]]; [|discriminate].
    unfold counted, requested in Heq. simpl in Heq.
    unfold Qeq in Heq. simpl in Heq. lia.
  - simpl. apply clean_set; [exact Hc|].
    apply holds_undefined_merge; [|discriminate].
    eapply clean_get; eauto.
  - simpl. apply get_set_eq.
  - discriminate.
Qed.
Lemma processSession_without_amount_witness :
  exists w' s',
    processSession (example_env never_shares) 4 550000%N (promoted_world 20 1)
      = (Ok tt, w') /\
    shareCalls w' = 0 /\
    JsObject.get 550000%N (sessions w') = Some s' /\
    status s' = completed /\
    completedShares s' = 0 /\
    failedShares s' = Some (num (Qnat 0)) /\
    totalShares s' = 20%Z /\
    ((0 < 20)%Z -> ~ counts_invariant s').
Proof.
  apply (processSession_without_amount (example_env never_shares) 4 550000%N
           (promoted_world 20 1)
           (mkSession queued 20 0 None None
              (Some "https://www.facebook.com/post/1")
              (Some (parseFloat_toFixed1 1)) 0%N None (Some 1%Z)
              (Some "c_user=1; xs=2") None None)).
  - vm_compute. reflexivity.
  - vm_compute. reflexivity.
  - reflexivity.
  - exists "c_user=1; xs=2". simpl. repeat split; discriminate.
Defined.

(** C7 (the code departs from it): when setup fails for a record without
    [amount], the flush carries [failedShares: undefined]; the store
    refuses the value, [writeSessions] swallows the error, and the record
    stays exactly as it was: no status failed, no error message, no failed
    count.  No share is attempted. *)
Theorem processSession_setup_failure_without_amount
        (env : Env) (WORKER_COUNT : nat) (id : sessionId) (w : World)
        (s : Session) :
  JsObject.get id (sessions w) = Some s ->
  amount s = None ->
  setup_fails env s ->
  exists w',
    processSession env WORKER_COUNT id w = (Ok tt, w') /\
    sessions w' = sessions w /\
    history w' = history w /\
    shareCalls w' = shareCalls w /\
    JsObject.get id (sessions w') = Some s.
Proof.
  intros Hg Ha Hf.
  unfold processSession, try_catch, processSession_try.
  unfold bind at 1. unfold readSessions at 1. simpl.
  rewrite Hg, Ha. unfold setup_fails in Hf.
  destruct (cookie s) as [c|]; simpl.
  - destruct (env_validateCookie env c) eqn:Hv; simpl.
    + destruct (env_getFacebookToken env c) as [tok|] eqn:Ht.
      * destruct (env_getPostId env (or_else (url s) "undefined")) as [pid|] eqn:Hp.
        { destruct Hf as [Hf|[Hf|Hf]]; discriminate. }
        rewrite (saveProgress_undefined env id _ w s Hg) by reflexivity.
        eexists; repeat split; assumption.
      * rewrite (saveProgress_undefined env id _ w s Hg) by reflexivity.
        eexists; repeat split; assumption.
    + rewrite (saveProgress_undefined env id _ w s Hg) by reflexivity.
      eexists; repeat split; assumption.
  - rewrite (saveProgress_undefined env id _ w s Hg) by reflexivity.
    eexists; repeat split; assumption.
Qed.

Lemma processSession_setup_failure_without_amount_witness :
  exists w',
    processSession dead_cookie_env 4 550000%N (promoted_world 20 1)
      = (Ok tt, w') /\
    sessions w' = sessions (promoted_world 20 1) /\
    history w' = history (promoted_world 20 1) /\
    shareCalls w' = shareCalls (promoted_world 20 1) /\
    JsObject.get 550000%N (sessions w') =
      Some (mkSession queued 20 0 None None
              (Some "https://www.facebook.com/post/1")
              (Some (parseFloat_toFixed1 1)) 0%N None (Some 1%Z)
              (Some "c_user=1; xs=2") None None).
Proof.
  apply (processSession_setup_failure_without_amount dead_cookie_env 4
           550000%N (promoted_world 20 1)).
  - vm_compute. reflexivity.
  - reflexivity.
  - simpl. left. reflexivity.
Defined.

(** The [catch] block as it is written: were the [try] block of the runner
    to throw, the [catch] block itself would throw a ReferenceError,
    because it names [amount], which is scoped to the [try] block; the
    error would leave the runner, with nothing written after the
    failure.  The only step of the [try] block that can throw is a job
    that the limiter rejects, inside the loop. *)
Lemma processSession_catch_rethrows
        (env : Env) (WORKER_COUNT : nat) (id : sessionId) (w w' : World)
        (message : string) :
  processSession_try env id w = (Throw message, w') ->
  processSession env WORKER_COUNT id w =
    (Throw "ReferenceError: amount is not defined", w').
Proof.
  intros H. unfold processSession, try_catch. rewrite H. reflexivity.
Qed.

(** On a record that carries [amount], with a limiter that rejects its
    first job: *)
Lemma processSession_catch_rethrows_example :
  processSession rejecting_env 4 550000%N (world_with_amount 3) =
    (Throw "ReferenceError: amount is not defined",
     run (processSession_try rejecting_env 550000%N) (world_with_amount 3))
  /\ option_map status
       (JsObject.get 550000%N
          (sessions (run (processSession rejecting_env 4 550000%N)
                         (world_with_amount 3))))
     = Some in_progress.
Proof.
  split.
  - apply (processSession_catch_rethrows rejecting_env 4 550000%N
             (world_with_amount 3)
             (run (processSession_try rejecting_env 550000%N)
                  (world_with_amount 3))
             "This limiter has been stopped.").
    vm_compute. reflexivity.
  - vm_compute. reflexivity.
Defined.

(** ** The action loop when every attempt fails *)

Lemma pace_bump (env : Env) (w : World) : pace env w = (Ok tt, bump 2 0 w).
Proof. reflexivity. Qed.

Lemma bump_bump (c s c' s' : nat) (w : World) :
  bump c s (bump c' s' w) = bump (c + c') (s + s') w.
Proof. unfold bump; simpl. f_equal; lia. Qed.

Lemma attempt_never_shares (env : Env) :
  (forall k, env_performShare env k = NotShared) ->
  forall n w, attempt env n w = (Ok false, bump 0 n w).
Proof.
  intros Hall. induction n as [|r IH]; intros w.
  - destruct w; reflexivity.
  - simpl. unfold bind, schedule_performShare. rewrite Hall.
    rewrite IH. f_equal. unfold bump; simpl. f_equal. lia.
Qed.

Lemma tracked_bump (id : sessionId) (c s : nat) (w : World) :
  tracked id w -> tracked id (bump c s w).
Proof. intros H; exact H. Qed.

Lemma saveProgress_tracked (env : Env) (id : sessionId) (p : Progress)
      (w : World) :
  tracked id w -> defined (p_failedShares p) ->
  exists w' base,
    saveProgress env id p w = (Ok tt, w') /\
    tracked id w' /\
    shareCalls w' = shareCalls w /\
    List.length (history w') = S (List.length (history w)) /\
    JsObject.get id (sessions w) = Some base /\
    JsObject.get id (sessions w') =
      Some (merge_progress base p (env_clock env (clockReads w))).
Proof.
  intros [Hc [base Hg]] Hp.
  rewrite (saveProgress_stored env id p w base Hc Hg Hp).
  eexists. exists base. split; [reflexivity|]. simpl.
  repeat split.
  - apply clean_set; [exact Hc|].
    apply holds_undefined_merge; [eapply clean_get; eauto|exact Hp].
  - eexists. apply get_set_eq.
  - exact Hg.
  - apply get_set_eq.
Qed.

Lemma flush_tracked (env : Env) (id : sessionId) (amount : jsnum)
      (i sc fc : nat) (w : World) :
  tracked id w ->
  exists w',
    flush env id amount i sc fc w = (Ok tt, w') /\
    tracked id w' /\
    shareCalls w' = shareCalls w.
Proof.
  intros Ht. unfold flush. destruct (flush_due i amount).
  - destruct (saveProgress_tracked env id (counts sc fc) w Ht) as
      (w' & base & E & Ht' & Hs & _); [discriminate|].
    exists w'. auto.
  - exists w. auto.
Qed.

Lemma iteration_failure_continues (env : Env) (id : sessionId)
      (amount : jsnum) (i sc fc cf : nat) (w : World) :
  (forall k, env_performShare env k = NotShared) ->
  S cf < MAX_CONSECUTIVE_FAILURES ->
  tracked id w ->
  exists w',
    iteration env id amount i sc fc cf w = (Ok (Next sc (S fc) (S cf)), w') /\
    tracked id w' /\
    shareCalls w' = 3 + shareCalls w.
Proof.
  intros Hall Hcf Ht. unfold iteration.
  unfold bind at 1. rewrite pace_bump.
  unfold bind at 1. rewrite (attempt_never_shares env Hall).
  rewrite bump_bump. unfold maxRetries. simpl Nat.add.
  destruct (Nat.leb MAX_CONSECUTIVE_FAILURES (S cf)) eqn:E.
  - apply Nat.leb_le in E. lia.
  - destruct (flush_tracked env id amount i sc (S fc) (bump 2 3 w))
      as (w' & Ef & Ht' & Hs); [apply tracked_bump; exact Ht|].
    unfold bind. rewrite Ef. exists w'. repeat split; try apply Ht'.
    rewrite Hs. reflexivity.
Qed.

Lemma iteration_failure_trips (env : Env) (id : sessionId)
      (amount : jsnum) (i sc fc cf : nat) (w : World) :
  (forall k, env_performShare env k = NotShared) ->
  MAX_CONSECUTIVE_FAILURES <= S cf ->
  tracked id w ->
  exists w' s',
    iteration env id amount i sc fc cf w = (Ok Stop, w') /\
    shareCalls w' = 3 + shareCalls w /\
    JsObject.get id (sessions w') = Some s' /\
    status s' = terminated /\
    error s' = Some terminated_message /\
    completedShares s' = sc /\
    failedShares s' = Some (num (Qnat (S fc))).
Proof.
  intros Hall Hcf Ht. unfold iteration.
  unfold bind at 1. rewrite pace_bump.
  unfold bind at 1. rewrite (attempt_never_shares env Hall).
  rewrite bump_bump. unfold maxRetries. simpl Nat.add.
  apply Nat.leb_le in Hcf. rewrite Hcf.
  destruct (saveProgress_tracked env id (terminated_progress sc (S fc))
              (bump 2 3 w)) as (w' & base & E & Ht' & Hs & _ & _ & Hg');
    [apply tracked_bump; exact Ht|discriminate|].
  unfold bind. rewrite E.
  exists w'. eexists. split; [reflexivity|].
  split; [rewrite Hs; reflexivity|].
  split; [exact Hg'|]. simpl. repeat split.
Qed.

Lemma action_loop_never_shares (env : Env) (id : sessionId) (amount : jsnum) :
  (forall k, env_performShare env k = NotShared) ->
  forall d indices sc fc cf w,
    S cf + d = MAX_CONSECUTIVE_FAILURES ->
    d < List.length indices ->
    tracked id w ->
    exists w' s',
      action_loop env id amount indices sc fc cf w = (Ok LoopReturned, w') /\
      shareCalls w' = 3 * S d + shareCalls w /\
      JsObject.get id (sessions w') = Some s' /\
      status s' = terminated /\
      error s' = Some terminated_message /\
      completedShares s' = sc /\
      failedShares s' = Some (num (Qnat (fc + S d))).
Proof.
  intros Hall. induction d as [|d IH]; intros indices sc fc cf w Hd Hlen Ht.
  - destruct indices as [|i rest]; [simpl in Hlen; lia|].
    destruct (iteration_failure_trips env id amount i sc fc cf w Hall)
      as (w' & s' & E & Hs & Hg & H1 & H2 & H3 & H4); [lia|exact Ht|].
    simpl action_loop. unfold bind. rewrite E.
    exists w', s'.
    split; [reflexivity|]. split; [rewrite Hs; reflexivity|].
    split; [exact Hg|]. split; [exact H1|]. split; [exact H2|].
    split; [exact H3|]. rewrite H4. do 3 f_equal. lia.
  - destruct indices as [|i rest]; [simpl in Hlen; lia|].
    destruct (iteration_failure_continues env id amount i sc fc cf w Hall)
      as (w1 & E & Ht1 & Hs1); [unfold MAX_CONSECUTIVE_FAILURES in *; lia|exact Ht|].
    destruct (IH rest sc (S fc) (S cf) w1) as
      (w' & s' & E' & Hs & Hg & H1 & H2 & H3 & H4);
      [lia|simpl in Hlen; lia|exact Ht1|].
    simpl action_loop. unfold bind. rewrite E. rewrite E'.
    exists w', s'.
    split; [reflexivity|]. split; [rewrite Hs, Hs1; lia|].
    split; [exact Hg|]. split; [exact H1|]. split; [exact H2|].
    split; [exact H3|]. rewrite H4. do 3 f_equal. lia.
Qed.

(** The indices that the list-driven loop visits are the values of [i]
    for which the guard [i < amount] holds. *)
Lemma loop_indices_guard (amount : jsnum) (i : nat) :
  In i (loop_indices amount) <-> loop_guard i amount = true.
Proof.
  unfold loop_indices, loop_guard, iterations.
  destruct amount as [|q].
  - simpl. split; [tauto|discriminate].
  - rewrite in_seq. unfold Qltb, Qnat.
    rewrite negb_true_iff, <- not_true_iff_false, Qle_bool_iff.
    split.
    + intros [_ Hlt] Hle. simpl in Hlt.
      assert (Hz : (Z.of_nat i <= Qceiling q - 1)%Z) by lia.
      rewrite Zle_Qle in Hz.
      pose proof (Qceiling_lt q) as Hc.
      apply (Qlt_irrefl q).
      eapply Qle_lt_trans; [exact Hle|].
      eapply Qle_lt_trans; [exact Hz|exact Hc].
    + intros Hnle. split; [lia|]. simpl.
      apply Qnot_le_lt in Hnle.
      pose proof (Qle_ceiling q) as Hc.
      assert (Hz : (inject_Z (Z.of_nat i) < inject_Z (Qceiling q))%Q)
        by (eapply Qlt_le_trans; eauto).
      rewrite <- Zlt_Qlt in Hz. lia.
Qed.

Lemma iterations_at_least (q : Q) (n : nat) :
  (Qnat n <= q)%Q -> n <= iterations (num q).
Proof.
  intros H. unfold iterations, Qnat in *.
  pose proof (Qle_ceiling q) as Hc.
  assert (Hz : (inject_Z (Z.of_nat n) <= inject_Z (Qceiling q))%Q)
    by (eapply Qle_trans; eauto).
  rewrite <- Zle_Qle in Hz. lia.
Qed.

Lemma processSession_try_ok (env : Env) (WORKER_COUNT : nat) (id : sessionId)
      (w w' : World) :
  processSession_try env id w = (Ok tt, w') ->
  processSession env WORKER_COUNT id w = (Ok tt, w').
Proof.
  intros H. unfold processSession, try_catch. rewrite H. reflexivity.
Qed.

(** X21: for a stored record that carries [amount], of at least 10,
    whose setup succeeds and whose share attempts all fail, the run ends
    with status terminated after exactly 10 failed actions of 3 attempts
    each (30 calls), with 0 completed and 10 failed shares and the
    breaker's error message; the runner returns there. *)
Theorem processSession_circuit_breaker
        (env : Env) (WORKER_COUNT : nat) (id : sessionId) (w : World)
        (s : Session) (q : Q) :
  clean (sessions w) ->
  JsObject.get id (sessions w) = Some s ->
  amount s = Some q ->
  (10 <= q)%Q ->
  setup_ok env s ->
  (forall k, env_performShare env k = NotShared) ->
  exists w' s',
    processSession env WORKER_COUNT id w = (Ok tt, w') /\
    shareCalls w' = 10 * maxRetries + shareCalls w /\
    JsObject.get id (sessions w') = Some s' /\
    status s' = terminated /\
    error s' = Some terminated_message /\
    completedShares s' = 0 /\
    failedShares s' = Some (num (Qnat 10)).
Proof.
  intros Hc Hg Ha Hq (c & Hck & Hv & Ht & Hp) Hall.
  destruct (saveProgress_tracked env id
              (mkProgress (Some in_progress) None None None) w)
    as (w1 & base & E1 & Ht1 & Hs1 & _);
    [split; [exact Hc|eauto]|discriminate|].
  destruct (action_loop_never_shares env id (num q) Hall 9
              (loop_indices (num q)) 0 0 0 (bump 1 0 w1))
    as (w' & s' & E & Hs & Hg' & H1 & H2 & H3 & H4).
  { reflexivity. }
  { unfold loop_indices. rewrite length_seq.
    apply (iterations_at_least q 10). exact Hq. }
  { apply tracked_bump. exact Ht1. }
  exists w', s'. split.
  - apply processSession_try_ok.
    unfold processSession_try.
    unfold bind at 1. unfold readSessions at 1. simpl.
    rewrite Hg, Ha, Hck, Hv. simpl.
    destruct (env_getFacebookToken env c) as [tok|]; [|now elim Ht].
    destruct (env_getPostId env (or_else (url s) "undefined")) as [pid|];
      [|now elim Hp].
    unfold bind at 1. rewrite E1.
    unfold bind at 1. unfold Date_now at 1.
    change (mkWorld (sessions w1) (sessionCounter w1) (queue w1)
              (S (clockReads w1)) (shareCalls w1) (randomReads w1)
              (history w1)) with (bump 1 0 w1).
    unfold bind. rewrite E. reflexivity.
  - split; [rewrite Hs; simpl; rewrite Hs1; reflexivity|].
    repeat split; assumption.
Qed.

Lemma processSession_circuit_breaker_witness :
  exists w' s',
    processSession (example_env never_shares) 4 550000%N (world_with_amount 20)
      = (Ok tt, w') /\
    shareCalls w' = 10 * maxRetries + 0 /\
    JsObject.get 550000%N (sessions w') = Some s' /\
    status s' = terminated /\
    error s' = Some terminated_message /\
    completedShares s' = 0 /\
    failedShares s' = Some (num (Qnat 10)).
Proof.
  apply (processSession_circuit_breaker (example_env never_shares) 4 550000%N
           (world_with_amount 20) (record_with_amount 20) (inject_Z 20)).
  - reflexivity.
  - reflexivity.
  - reflexivity.
  - unfold Qle; simpl; lia.
  - exists "c_user=1; xs=2". simpl. repeat split; discriminate.
  - intros k. reflexivity.
Defined.

Lemma never_shares_always_fails (k : nat) :
  env_performShare (example_env never_shares) k = NotShared.
Proof. reflexivity. Qed.

(** With five shares in [amount] and every attempt failing (15 calls),
    the session is never marked terminated; it ends as completed with five
    failed shares. *)
Lemma always_failing_short_session_completes :
  ~ reaches_terminated (example_env never_shares) 4 550000%N
      (world_with_amount 5).
Proof.
  intros (s' & Hg & Hst).
  vm_compute in Hg. inversion Hg; subst s'. discriminate Hst.
Qed.

(** ** Which loop turns flush *)

Lemma attempt_frame (env : Env) (n : nat) (w : World) :
  sessions (run (attempt env n) w) = sessions w /\
  history (run (attempt env n) w) = history w.
Proof.
  revert w. induction n as [|r IH]; intros w; [split; reflexivity|].
  unfold run in *. simpl. unfold bind, schedule_performShare.
  destruct (env_performShare env (shareCalls w)); simpl.
  - split; reflexivity.
  - match goal with |- context [attempt env r ?w1] =>
      destruct (IH w1) as [H1 H2] end.
    rewrite H1, H2. split; reflexivity.
  - split; reflexivity.
Qed.

Lemma saveProgress_writes (env : Env) (id : sessionId) (p : Progress)
      (w : World) :
  clean (sessions w) -> defined (p_failedShares p) ->
  exists w',
    saveProgress env id p w = (Ok tt, w') /\
    List.length (history w') = S (List.length (history w)).
Proof.
  intros Hc Hp.
  destruct (JsObject.get id (sessions w)) as [base|] eqn:Hg.
  - rewrite (saveProgress_stored env id p w base Hc Hg Hp).
    eexists; split; reflexivity.
  - unfold saveProgress, saveProgress_write, bind, readSessions, writeSessions,
      broadcastActiveSessions, bind, readSessions, Date_now, ret; simpl.
    rewrite Hg; simpl.
    match goal with |- context [JsObject.set id ?m (sessions w)] =>
      assert (Hm : clean (JsObject.set id m (sessions w))) end.
    { apply clean_set; [exact Hc|].
      apply holds_undefined_merge; [reflexivity|exact Hp]. }
    unfold clean in Hm. rewrite Hm.
    eexists; split; reflexivity.
Qed.

Lemma flush_due_spec (i : nat) (amount : jsnum) :
  flush_due i amount = true <->
  i mod 5 = 0 \/ exists q, amount = num q /\ (Qnat i == q - 1)%Q.
Proof.
  unfold flush_due, is_last. rewrite orb_true_iff, Nat.eqb_eq.
  split; intros [H|H]; auto.
  - destruct amount as [|q]; [discriminate|].
    right. exists q. split; [reflexivity|]. now apply Qeq_bool_iff.
  - destruct H as (q & -> & H). right. now apply Qeq_bool_iff.
Qed.

Lemma iteration_cases (env : Env) (id : sessionId) (amount : jsnum)
      (i sc fc cf : nat) (w : World) :
  clean (sessions w) ->
  exists r w',
    iteration env id amount i sc fc cf w = (r, w') /\
    match r with
    | Ok Stop =>
        List.length (history w') = S (List.length (history w)) /\
        MAX_CONSECUTIVE_FAILURES <= S cf
    | Ok (Next _ _ _) =>
        List.length (history w') =
          (if flush_due i amount then 1 else 0) + List.length (history w)
    | Throw _ => history w' = history w
    end.
Proof.
  intros Hc. unfold iteration.
  unfold bind at 1. rewrite pace_bump.
  unfold bind at 1.
  destruct (attempt_frame env maxRetries (bump 2 0 w)) as [Hs Hh].
  unfold run in Hs, Hh.
  destruct (attempt env maxRetries (bump 2 0 w)) as [[success|e] w1];
    simpl in Hs, Hh.
  - assert (Hc1 : clean (sessions w1)) by (rewrite Hs; exact Hc).
    assert (Hwr : forall p, defined (p_failedShares p) ->
              exists w', saveProgress env id p w1 = (Ok tt, w') /\
                List.length (history w') = S (List.length (history w))).
    { intros p Hp.
      destruct (saveProgress_writes env id p w1 Hc1 Hp) as (w' & E & L).
      exists w'. split; [exact E|]. rewrite L, Hh. reflexivity. }
    destruct success.
    + unfold flush. destruct (flush_due i amount).
      * destruct (Hwr (counts (S sc) fc)) as (w' & E & L); [discriminate|].
        unfold bind. rewrite E. do 2 eexists. split; [reflexivity|exact L].
      * unfold bind, ret. do 2 eexists. split; [reflexivity|]. simpl.
        now rewrite Hh.
    + destruct (Nat.leb MAX_CONSECUTIVE_FAILURES (S cf)) eqn:Etrip.
      * destruct (Hwr (terminated_progress sc (S fc))) as (w' & E & L);
          [discriminate|].
        unfold bind. rewrite E. do 2 eexists. split; [reflexivity|].
        split; [exact L|now apply Nat.leb_le].
      * unfold flush. destruct (flush_due i amount).
        -- destruct (Hwr (counts sc (S fc))) as (w' & E & L); [discriminate|].
           unfold bind. rewrite E. do 2 eexists. split; [reflexivity|exact L].
        -- unfold bind, ret. do 2 eexists. split; [reflexivity|]. simpl.
           now rewrite Hh.
  - do 2 eexists. split; [reflexivity|]. exact Hh.
Qed.

(** A loop turn with index [i] (counted from 0) writes to the store when
    the circuit breaker trips in it, or else when [i] is a multiple of 5
    or [i] equals [amount - 1]; a turn whose attempt throws writes
    nothing. *)
Lemma iteration_flush_rule
        (env : Env) (id : sessionId) (amount : jsnum)
        (i sc fc cf : nat) (w : World) :
  clean (sessions w) ->
  wrote (iteration env id amount i sc fc cf) w =
    match result (iteration env id amount i sc fc cf) w with
    | Ok Stop => true
    | Ok (Next _ _ _) => flush_due i amount
    | Throw _ => false
    end
  /\ (result (iteration env id amount i sc fc cf) w = Ok Stop ->
      MAX_CONSECUTIVE_FAILURES <= S cf)
  /\ (flush_due i amount = true <->
      i mod 5 = 0 \/ exists q, amount = num q /\ (Qnat i == q - 1)%Q).
Proof.
  intros Hc.
  destruct (iteration_cases env id amount i sc fc cf w Hc) as (r & w' & E & H).
  unfold wrote, result, run. rewrite E. simpl.
  split; [|split; [|apply flush_due_spec]].
  - destruct r as [[sc' fc' cf'|]|e].
    + rewrite H. destruct (flush_due i amount); simpl.
      * apply Nat.ltb_lt. lia.
      * apply Nat.ltb_irrefl.
    + destruct H as [H _]. rewrite H. apply Nat.ltb_lt. lia.
    + rewrite H. apply Nat.ltb_irrefl.
  - intros ->. apply H.
Qed.

Lemma iteration_flush_rule_example :
  wrote (iteration (example_env two_then_none) 550000%N (num (inject_Z 20))
                   0 0 0 0) (world_with_amount 20) =
    match result (iteration (example_env two_then_none) 550000%N
                            (num (inject_Z 20)) 0 0 0 0)
                 (world_with_amount 20) with
    | Ok Stop => true
    | Ok (Next _ _ _) => flush_due 0 (num (inject_Z 20))
    | Throw _ => false
    end
  /\ (result (iteration (example_env two_then_none) 550000%N
                        (num (inject_Z 20)) 0 0 0 0)
             (world_with_amount 20) = Ok Stop ->
      MAX_CONSECUTIVE_FAILURES <= 1)
  /\ (flush_due 0 (num (inject_Z 20)) = true <->
      0 mod 5 = 0 \/
      exists q, num (inject_Z 20) = num q /\ (Qnat 0 == q - 1)%Q).
Proof.
  apply (iteration_flush_rule (example_env two_then_none) 550000%N
           (num (inject_Z 20)) 0 0 0 0 (world_with_amount 20)).
  reflexivity.
Defined.

(** With 20 shares in [amount], the first two succeeding and all later
    ones failing, the turns that write are 0, 5, 10 and 11; the rule
    "every fifth action and the last one" gives 4, 9, 14 and 19, and turn
    11 (where the breaker trips) is neither a multiple of 5 nor the
    last. *)
Lemma flushes_outside_the_fifth_action_rule :
  flushing_iterations (example_env two_then_none) 550000%N (num (inject_Z 20))
    (loop_indices (num (inject_Z 20))) 0 0 0 (world_with_amount 20)
    = [0; 5; 10; 11]
  /\ filter (every_fifth_or_final 20) (loop_indices (num (inject_Z 20)))
     = [4; 9; 14; 19]
  /\ every_fifth_or_final 20 11 = false
  /\ flush_due 11 (num (inject_Z 20)) = false.
Proof.
  repeat split; vm_compute; reflexivity.
Qed.

(** ** Sequence numbers *)

Lemma getNextSessionNumber_frame (w1 w : World) :
  sessions w1 = sessions w -> sessionCounter w1 = sessionCounter w ->
  result getNextSessionNumber w1 = result getNextSessionNumber w.
Proof.
  intros Hs Hc. unfold result, getNextSessionNumber, bind, counterRef_once,
    readSessions, counterRef_set, ret. simpl. rewrite Hs, Hc.
  destruct (Nat.eqb (List.length (activeSessions (sessions w))) 0
            && negb (counter_is_zero (sessionCounter w))); reflexivity.
Qed.

(** With no active session the number handed out is 1, whatever the
    counter holds. *)
Lemma getNextSessionNumber_no_active (w : World) :
  activeSessions (sessions w) = [] ->
  result getNextSessionNumber w = Ok 1%Z /\
  sessionCounter (run getNextSessionNumber w) =
    Some (if counter_is_zero (sessionCounter w) then 1%Z else 0%Z).
Proof.
  intros Ha. unfold result, run, getNextSessionNumber, bind, counterRef_once,
    readSessions, counterRef_set, ret. simpl. rewrite Ha. simpl.
  destruct (sessionCounter w) as [z|]; simpl; [|split; reflexivity].
  destruct (Z.eqb z 0) eqn:E; simpl; [|split; reflexivity].
  apply Z.eqb_eq in E. subst z. split; reflexivity.
Qed.

(** With an active session the counter is incremented. *)
Lemma getNextSessionNumber_active (w : World) :
  activeSessions (sessions w) <> [] ->
  result getNextSessionNumber w = Ok (or_else (sessionCounter w) 0 + 1)%Z.
Proof.
  intros Ha. unfold result, getNextSessionNumber, bind, counterRef_once,
    readSessions, counterRef_set, ret. simpl.
  destruct (activeSessions (sessions w)); [now elim Ha|reflexivity].
Qed.

(** C3 (the code departs from it): when no session is active and the
    counter is not 0, the counter is reset to 0 and the number 1 is handed
    out without being stored; the next submission, made while the first
    session is active, is numbered 1 again instead of 2. *)
Theorem getNextSessionNumber_repeats_after_reset (w w2 : World) :
  activeSessions (sessions w) = [] ->
  counter_is_zero (sessionCounter w) = false ->
  sessionCounter w2 = sessionCounter (run getNextSessionNumber w) ->
  activeSessions (sessions w2) <> [] ->
  result getNextSessionNumber w = Ok 1%Z /\
  result getNextSessionNumber w2 = Ok 1%Z.
Proof.
  intros Ha Hc Hc2 Ha2.
  destruct (getNextSessionNumber_no_active w Ha) as [H1 H2].
  split; [exact H1|].
  rewrite (getNextSessionNumber_active w2 Ha2), Hc2, H2, Hc. reflexivity.
Qed.

Lemma getNextSessionNumber_repeats_after_reset_witness :
  result getNextSessionNumber idle_world = Ok 1%Z /\
  result getNextSessionNumber first_running_world = Ok 1%Z.
Proof.
  apply (getNextSessionNumber_repeats_after_reset idle_world
           first_running_world); try reflexivity.
  vm_compute. discriminate.
Defined.

(** The same run seen from the endpoint: both submissions are answered
    with sequence number 1, the second while the first is in progress. *)
Lemma second_submission_numbered_1 :
  result (example_submit (example_env never_shares) 20 1) idle_world =
    Ok (apiResponse 200 "Sharing process queued successfully"
                    (QueuedData 550000%N 1))
  /\ option_map status (JsObject.get 550000%N (sessions first_running_world))
     = Some in_progress
  /\ result (example_submit (example_env never_shares) 5 1) first_running_world =
    Ok (apiResponse 200 "Sharing process queued successfully"
                    (QueuedData 400000%N 1)).
Proof. repeat split; vm_compute; reflexivity. Qed.

(** ** Queue processing *)

Lemma keys_head_least (V : Type) (o : JsObject.t V) :
  match JsObject.keys o with
  | [] => o = []
  | h :: _ => In h (map fst o) /\ forall k, In k (map fst o) -> (h <= k)%N
  end.
Proof.
  unfold JsObject.keys.
  induction o as [|[a v] rest IH]; simpl; [reflexivity|].
  destruct (fold_right JsObject.insert_sorted [] (map fst rest)) as [|h t] eqn:E.
  - subst rest. simpl. split; [now left|].
    intros k [->|[]]. apply N.le_refl.
  - destruct IH as [Hin Hle]. simpl.
    destruct (N.leb a h) eqn:L.
    + apply N.leb_le in L. split; [now left|].
      intros k [->|Hk]; [apply N.le_refl|].
      eapply N.le_trans; [exact L|now apply Hle].
    + apply N.leb_gt in L. split; [now right|].
      intros k [<-|Hk]; [now apply N.lt_le_incl|now apply Hle].
Qed.

Lemma get_of_key (V : Type) (k : sessionId) (o : JsObject.t V) :
  In k (map fst o) -> exists v, JsObject.get k o = Some v.
Proof.
  induction o as [|[a v] rest IH]; simpl; [tauto|].
  intros [->|H].
  - rewrite N.eqb_refl. eauto.
  - destruct (N.eqb k a); eauto.
Qed.

(** What one call of [processQueue] does: nothing at or above the
    ceiling; otherwise it moves one entry, the one with the least
    identifier, unchanged from the queue to the sessions. *)
Lemma processQueue_spec (WORKER_COUNT : nat) (w : World) :
  clean (queue w) ->
  (MAX_PARALLEL_SESSIONS * WORKER_COUNT
     <= List.length (activeSessions (sessions w)) ->
   processQueue WORKER_COUNT w = (Ok None, w)) /\
  (List.length (activeSessions (sessions w))
     < MAX_PARALLEL_SESSIONS * WORKER_COUNT ->
   match JsObject.keys (queue w) with
   | [] => processQueue WORKER_COUNT w = (Ok None, w)
   | id :: _ =>
       exists data,
         JsObject.get id (queue w) = Some data /\
         (forall k, In k (map fst (queue w)) -> (id <= k)%N) /\
         processQueue WORKER_COUNT w =
           (Ok (Some id),
            with_queue
              (with_sessions w (JsObject.set id data (sessions w)))
              (JsObject.remove id (queue w)))
   end).
Proof.
  intros Hc. unfold processQueue, try_catch, bind, readQueue, readSessions.
  simpl. split.
  - intros H. apply Nat.leb_le in H. rewrite H. reflexivity.
  - intros H. apply Nat.leb_gt in H. rewrite H.
    pose proof (keys_head_least _ (queue w)) as K.
    destruct (JsObject.keys (queue w)) as [|id t]; [reflexivity|].
    destruct K as [Hin Hle].
    destruct (get_of_key _ id (queue w) Hin) as [data Hg].
    exists data. split; [exact Hg|]. split; [exact Hle|].
    rewrite Hg. unfold sessions_child_set.
    rewrite (clean_get id data (queue w) Hc Hg). reflexivity.
Qed.

(** X1: after a promotion the entry is in the sessions and no longer in
    the queue; every other key of either object is as before. *)
Lemma processQueue_moves (WORKER_COUNT : nat) (w : World) (id : sessionId) :
  clean (queue w) ->
  result (processQueue WORKER_COUNT) w = Ok (Some id) ->
  JsObject.get id (sessions (run (processQueue WORKER_COUNT) w))
    = JsObject.get id (queue w) /\
  JsObject.get id (queue (run (processQueue WORKER_COUNT) w)) = None /\
  forall k, k <> id ->
    JsObject.get k (sessions (run (processQueue WORKER_COUNT) w))
      = JsObject.get k (sessions w) /\
    JsObject.get k (queue (run (processQueue WORKER_COUNT) w))
      = JsObject.get k (queue w).
Proof.
  intros Hc Hr. destruct (processQueue_spec WORKER_COUNT w Hc) as [Hfull Hfree].
  destruct (Nat.le_gt_cases (MAX_PARALLEL_SESSIONS * WORKER_COUNT)
              (List.length (activeSessions (sessions w)))) as [H|H].
  - unfold result in Hr. rewrite (Hfull H) in Hr. discriminate.
  - specialize (Hfree H).
    destruct (JsObject.keys (queue w)) as [|id' t].
    + unfold result in Hr. rewrite Hfree in Hr. discriminate.
    + destruct Hfree as (data & Hg & _ & E).
      unfold result in Hr. unfold run. rewrite E in *. simpl in *.
      inversion Hr; subst id'.
      split; [rewrite Hg; apply get_set_eq|].
      split; [apply get_remove_eq|].
      intros k Hk. split; [now apply get_set_neq|now apply get_remove_neq].
Qed.

Lemma processQueue_moves_witness :
  JsObject.get 400000%N (sessions (run (processQueue 4) two_queued_world))
    = JsObject.get 400000%N (queue two_queued_world) /\
  JsObject.get 400000%N (queue (run (processQueue 4) two_queued_world))
    = None /\
  forall k, k <> 400000%N ->
    JsObject.get k (sessions (run (processQueue 4) two_queued_world))
      = JsObject.get k (sessions two_queued_world) /\
    JsObject.get k (queue (run (processQueue 4) two_queued_world))
      = JsObject.get k (queue two_queued_world).
Proof.
  apply (processQueue_moves 4 two_queued_world 400000%N); reflexivity.
Defined.

(** C5 (the code departs from it): with 550000 enqueued before 400000,
    [processQueue] promotes 400000, the key that [Object.keys] lists first,
    and leaves the older entry in the queue.  The promoted record is
    stored unchanged (status queued). *)
Theorem processQueue_not_first_in_first_out :
  oldest_enqueued (queue two_queued_world) = Some 550000%N /\
  result (processQueue 4) two_queued_world = Ok (Some 400000%N) /\
  option_map status
    (JsObject.get 400000%N (sessions (run (processQueue 4) two_queued_world)))
    = Some queued /\
  JsObject.get 550000%N (sessions (run (processQueue 4) two_queued_world))
    = None /\
  map fst (queue (run (processQueue 4) two_queued_world)) = [550000%N].
Proof. repeat split; vm_compute; reflexivity. Qed.

(** ** The submission endpoint *)

Lemma Qltb_lt (x y : Q) : Qltb x y = true <-> (x < y)%Q.
Proof.
  unfold Qltb. rewrite negb_true_iff, <- not_true_iff_false, Qle_bool_iff.
  split; [apply Qnot_le_lt|apply Qlt_not_le].
Qed.

Lemma Qltb_ge (x y : Q) : Qltb x y = false <-> (y <= x)%Q.
Proof.
  unfold Qltb. rewrite negb_false_iff. apply Qle_bool_iff.
Qed.

Lemma Qle_bool_gt (x y : Q) : Qle_bool x y = false <-> (y < x)%Q.
Proof.
  rewrite <- not_true_iff_false, Qle_bool_iff.
  split; [apply Qnot_le_lt|apply Qlt_not_le].
Qed.

Lemma parseFloat_toFixed1_rounds (x : Q) :
  rounded_to_one_decimal x (parseFloat_toFixed1 x).
Proof.
  unfold rounded_to_one_decimal, parseFloat_toFixed1, toFixed_scaled.
  change (inject_Z (10 ^ Z.of_nat 1)) with 10%Q.
  remember (x * 10 + (1 # 2))%Q as y eqn:Ey.
  assert (Hy : (y == x * 10 + (1 # 2))%Q) by (rewrite Ey; reflexivity).
  clear Ey.
  exists (Qfloor y). split; [|split].
  - unfold Qeq, Qdiv, Qmult, Qinv, inject_Z; simpl. lia.
  - pose proof (Qfloor_le y) as H. lra.
  - pose proof (Qlt_floor y) as H. rewrite inject_Z_plus in H.
    change (inject_Z 1) with 1%Q in H. lra.
Qed.

Lemma submit_rejects (HEADER_VALUE : option string)
      (JSON_parse_array : string -> option (list cookie_item)) (env : Env)
      (req : Request) (w : World) (amt itv : Q) :
  checkHeader HEADER_VALUE req = true ->
  body_amount req = Some amt ->
  body_interval req = Some itv ->
  (amt <= 0 \/ itv < 1 # 10 \/ 60 < itv \/
   (itv < 1 /\ 100 < amt))%Q ->
  exists message,
    submit HEADER_VALUE JSON_parse_array env req w =
      (Ok (apiResponse 400 message NoData), w).
Proof.
  intros Hh Ha Hi Hbad.
  unfold submit. rewrite Hh.
  unfold submit_handler, try_catch, submit_handler_try. rewrite Ha, Hi.
  destruct (body_cookie req) as [s|items|]; destruct (body_url req) as [u|];
    try (eexists; reflexivity);
    match goal with
    | |- context [cookieString_of ?p ?c] =>
        destruct (cookieString_of p c) as [cookieString|]
    end;
    try (eexists; reflexivity);
    destruct (negb (existsb (includes cookieString) requiredCookieKeys));
    try (eexists; reflexivity);
    destruct (negb (url_matches u));
    try (eexists; reflexivity);
    destruct (Qle_bool amt 0) eqn:E1;
    try (eexists; reflexivity);
    destruct (Qltb itv (1 # 10) || Qgtb itv 60) eqn:E2;
    try (eexists; reflexivity);
    destruct (Qltb itv 1 && Qgtb amt 100) eqn:E3;
    try (eexists; reflexivity);
    exfalso;
    apply Qle_bool_gt in E1;
    apply orb_false_iff in E2; destruct E2 as [E2 E2'];
    apply Qltb_ge in E2; unfold Qgtb in E2'; apply Qltb_ge in E2';
    apply andb_false_iff in E3; unfold Qgtb in E3;
    rewrite !Qltb_ge in E3;
    destruct Hbad as [H|[H|[H|[H H']]]]; try lra; destruct E3; lra.
Qed.

Lemma submit_caps_fast_sessions (HEADER_VALUE : option string)
      (JSON_parse_array : string -> option (list cookie_item)) (env : Env)
      (req : Request) (w : World) (amt itv : Q) :
  well_formed_otherwise HEADER_VALUE JSON_parse_array req ->
  body_amount req = Some amt ->
  body_interval req = Some itv ->
  (1 # 10 <= itv)%Q -> (itv < 1)%Q -> (100 < amt)%Q ->
  submit HEADER_VALUE JSON_parse_array env req w =
    (Ok (apiResponse 400
           "For intervals below 1 second, maximum shares is 100" NoData), w).
Proof.
  intros (Hh & cs & u & Hcs & Hkeys & Hu & Hm) Ha Hi H1 H2 H3.
  unfold submit. rewrite Hh.
  unfold submit_handler, try_catch, submit_handler_try. rewrite Ha, Hi, Hu.
  destruct (body_cookie req) as [s|items|] eqn:Hbc;
    [| |simpl in Hcs; discriminate];
    rewrite Hcs, Hkeys, Hm; simpl negb; cbv iota;
    (assert (E1 : Qle_bool amt 0 = false) by (apply Qle_bool_gt; lra));
    (assert (E2 : Qltb itv (1 # 10) || Qgtb itv 60 = false)
      by (apply orb_false_iff; unfold Qgtb; rewrite !Qltb_ge; split; lra));
    (assert (E3 : Qltb itv 1 && Qgtb amt 100 = true)
      by (apply andb_true_iff; unfold Qgtb; rewrite !Qltb_lt; split; lra));
    rewrite E1, E2, E3; reflexivity.
Qed.

Lemma submit_accepts (HEADER_VALUE : option string)
      (JSON_parse_array : string -> option (list cookie_item)) (env : Env)
      (req : Request) (w : World) (amt itv : Q) :
  well_formed_otherwise HEADER_VALUE JSON_parse_array req ->
  body_amount req = Some amt ->
  body_interval req = Some itv ->
  (0 < amt)%Q -> (1 # 10 <= itv)%Q -> (itv <= 60)%Q ->
  (1 <= itv \/ amt <= 100)%Q ->
  exists id n w' rec,
    submit HEADER_VALUE JSON_parse_array env req w =
      (Ok (apiResponse 200 "Sharing process queued successfully"
                       (QueuedData id n)), w') /\
    result getNextSessionNumber w = Ok n /\
    sessions w' = sessions w /\
    JsObject.get id (queue w') = Some rec /\
    status rec = queued /\
    totalShares rec = Qfloor amt /\
    completedShares rec = 0 /\
    interval rec = Some (parseFloat_toFixed1 itv) /\
    sessionNumber rec = Some n.
Proof.
  intros (Hh & cs & u & Hcs & Hkeys & Hu & Hm) Ha Hi H0 H1 H2 H3.
  assert (E1 : Qle_bool amt 0 = false) by (apply Qle_bool_gt; lra).
  assert (E2 : Qltb itv (1 # 10) || Qgtb itv 60 = false)
    by (apply orb_false_iff; unfold Qgtb; rewrite !Qltb_ge; split; lra).
  assert (E3 : Qltb itv 1 && Qgtb amt 100 = false)
    by (apply andb_false_iff; unfold Qgtb; rewrite !Qltb_ge;
        destruct H3; [left|right]; lra).
  unfold submit. rewrite Hh.
  unfold submit_handler, try_catch, submit_handler_try. rewrite Ha, Hi, Hu.
  destruct (body_cookie req) as [s|items|] eqn:Hbc;
    [| |simpl in Hcs; discriminate];
    rewrite Hcs, Hkeys, Hm; simpl negb; cbv iota;
    rewrite E1, E2, E3;
    unfold bind, generateSessionId, bind, Math_random, ret,
      getNextSessionNumber, bind, counterRef_once, readSessions,
      counterRef_set, ret, Date_now, queue_child_set, result;
    simpl;
    destruct (Nat.eqb (List.length (activeSessions (sessions w))) 0
              && negb (counter_is_zero (sessionCounter w)));
    simpl; do 4 eexists;
    (split; [reflexivity|]); (split; [reflexivity|]);
    (split; [reflexivity|]); simpl;
    (split; [apply get_set_eq|]); simpl; repeat split.
Qed.

(** C6: a submission whose amount is not positive, whose interval is
    outside [0.1, 60], or whose interval is below 1 with an amount above
    100 is answered with an error (400 with a message, or 403 when the
    header check fails) and the world is unchanged; amount 150 at interval
    0.5 gets the message about intervals below 1 second; amount 100 at
    interval 0.5, and amount 1 at any admissible interval, are accepted
    and enqueued. *)
Theorem submit_validation (HEADER_VALUE : option string)
        (JSON_parse_array : string -> option (list cookie_item)) (env : Env)
        (req : Request) (w : World) (amt itv : Q) :
  body_amount req = Some amt ->
  body_interval req = Some itv ->
  ((amt <= 0 \/ itv < 1 # 10 \/ 60 < itv \/ (itv < 1 /\ 100 < amt))%Q ->
   exists r,
     submit HEADER_VALUE JSON_parse_array env req w = (Ok r, w) /\
     if checkHeader HEADER_VALUE req
     then exists message, r = apiResponse 400 message NoData
     else r = Forbidden)
  /\
  (well_formed_otherwise HEADER_VALUE JSON_parse_array req ->
   (amt == 150)%Q -> (itv == 1 # 2)%Q ->
   submit HEADER_VALUE JSON_parse_array env req w =
     (Ok (apiResponse 400
            "For intervals below 1 second, maximum shares is 100" NoData), w))
  /\
  (well_formed_otherwise HEADER_VALUE JSON_parse_array req ->
   ((amt == 100 /\ itv == 1 # 2) \/
    (amt == 1 /\ 1 # 10 <= itv /\ itv <= 60))%Q ->
   exists id n w' rec,
     submit HEADER_VALUE JSON_parse_array env req w =
       (Ok (apiResponse 200 "Sharing process queued successfully"
                        (QueuedData id n)), w') /\
     sessions w' = sessions w /\
     JsObject.get id (queue w') = Some rec /\
     status rec = queued /\
     totalShares rec = Qfloor amt).
Proof.
  intros Ha Hi. split; [|split].
  - intros Hbad. destruct (checkHeader HEADER_VALUE req) eqn:Hh.
    + destruct (submit_rejects HEADER_VALUE JSON_parse_array env req w amt itv
                  Hh Ha Hi Hbad) as [message E].
      eexists. split; [exact E|]. eauto.
    + unfold submit. rewrite Hh. eexists. split; reflexivity.
  - intros Hwf H1 H2.
    apply (submit_caps_fast_sessions HEADER_VALUE JSON_parse_array env req w
             amt itv Hwf Ha Hi); lra.
  - intros Hwf Hok.
    destruct (submit_accepts HEADER_VALUE JSON_parse_array env req w amt itv
                Hwf Ha Hi) as (id & n & w' & rec & E & _ & Hs & Hg & H1 & H2 & _).
    + destruct Hok as [[H H']|[H [H' H'']]]; lra.
    + destruct Hok as [[H H']|[H [H' H'']]]; lra.
    + destruct Hok as [[H H']|[H [H' H'']]]; lra.
    + destruct Hok as [[H H']|[H [H' H'']]]; [right|right]; lra.
    + exists id, n, w', rec. auto.
Qed.

Lemma submit_validation_witness :
  (exists r,
     example_submit (example_env never_shares) 0 1 fresh_world
       = (Ok r, fresh_world) /\
     exists message, r = apiResponse 400 message NoData)
  /\
  example_submit (example_env never_shares) 150 (1 # 2) fresh_world =
    (Ok (apiResponse 400
           "For intervals below 1 second, maximum shares is 100" NoData),
     fresh_world)
  /\
  (exists id n w' rec,
     example_submit (example_env never_shares) 100 (1 # 2) fresh_world =
       (Ok (apiResponse 200 "Sharing process queued successfully"
                        (QueuedData id n)), w') /\
     sessions w' = sessions fresh_world /\
     JsObject.get id (queue w') = Some rec /\
     status rec = queued /\
     totalShares rec = 100%Z)
  /\
  (exists id n w' rec,
     example_submit (example_env never_shares) 1 1 fresh_world =
       (Ok (apiResponse 200 "Sharing process queued successfully"
                        (QueuedData id n)), w') /\
     sessions w' = sessions fresh_world /\
     JsObject.get id (queue w') = Some rec /\
     status rec = queued /\
     totalShares rec = 1%Z).
Proof.
  assert (Hwf : forall a i,
             well_formed_otherwise example_HEADER_VALUE example_JSON_parse_array
               (example_request a i)).
  { intros a i. split; [reflexivity|].
    exists "c_user=1; xs=2", "https://www.facebook.com/post/1".
    repeat split; reflexivity. }
  split; [|split; [|split]].
  - apply (proj1 (submit_validation example_HEADER_VALUE
                    example_JSON_parse_array (example_env never_shares)
                    (example_request 0 1) fresh_world 0 1 eq_refl eq_refl)).
    left. lra.
  - apply (proj1 (proj2 (submit_validation example_HEADER_VALUE
                    example_JSON_parse_array (example_env never_shares)
                    (example_request 150 (1 # 2)) fresh_world 150 (1 # 2)
                    eq_refl eq_refl))); [apply Hwf|reflexivity|reflexivity].
  - apply (proj2 (proj2 (submit_validation example_HEADER_VALUE
                    example_JSON_parse_array (example_env never_shares)
                    (example_request 100 (1 # 2)) fresh_world 100 (1 # 2)
                    eq_refl eq_refl))); [apply Hwf|].
    left. split; reflexivity.
  - apply (proj2 (proj2 (submit_validation example_HEADER_VALUE
                    example_JSON_parse_array (example_env never_shares)
                    (example_request 1 1) fresh_world 1 1
                    eq_refl eq_refl))); [apply Hwf|].
    right. split; [reflexivity|]. split; lra.
Defined.

Lemma Qfloor_below_one (a : Q) : (0 < a)%Q -> (a < 1)%Q -> Qfloor a = 0%Z.
Proof.
  intros H0 H1.
  pose proof (Qfloor_le a) as Hl. pose proof (Qlt_floor a) as Hu.
  assert (Hz1 : (inject_Z (Qfloor a) < inject_Z 1)%Q)
    by (eapply Qle_lt_trans; [exact Hl|exact H1]).
  assert (Hz2 : (inject_Z 0 < inject_Z (Qfloor a + 1))%Q)
    by (eapply Qlt_trans; [exact H0|exact Hu]).
  rewrite <- Zlt_Qlt in Hz1, Hz2. lia.
Qed.

Lemma submit_accepted_inv (HEADER_VALUE : option string)
      (JSON_parse_array : string -> option (list cookie_item)) (env : Env)
      (req : Request) (w w' : World) (message : string) (id : sessionId)
      (n : Z) :
  submit HEADER_VALUE JSON_parse_array env req w =
    (Ok (apiResponse 200 message (QueuedData id n)), w') ->
  exists amt itv rec,
    body_amount req = Some amt /\
    body_interval req = Some itv /\
    (0 < amt)%Q /\
    JsObject.get id (queue w') = Some rec /\
    totalShares rec = Qfloor amt /\
    interval rec = Some (parseFloat_toFixed1 itv).
Proof.
  unfold submit. destruct (checkHeader HEADER_VALUE req); [|discriminate].
  unfold submit_handler, try_catch, submit_handler_try.
  destruct (body_cookie req) as [s|items|]; destruct (body_url req) as [u|];
    destruct (body_amount req) as [amt|];
    destruct (body_interval req) as [itv|];
    try discriminate;
    match goal with
    | |- context [cookieString_of ?p ?c] =>
        destruct (cookieString_of p c) as [cookieString|]
    end;
    try discriminate;
    destruct (negb (existsb (includes cookieString) requiredCookieKeys));
    try discriminate;
    destruct (negb (url_matches u)); try discriminate;
    destruct (Qle_bool amt 0) eqn:E1; try discriminate;
    destruct (Qltb itv (1 # 10) || Qgtb itv 60); try discriminate;
    destruct (Qltb itv 1 && Qgtb amt 100); try discriminate;
    apply Qle_bool_gt in E1;
    unfold bind, generateSessionId, bind, Math_random, ret,
      getNextSessionNumber, bind, counterRef_once, readSessions,
      counterRef_set, ret, Date_now, queue_child_set;
    simpl;
    destruct (Nat.eqb (List.length (activeSessions (sessions w))) 0
              && negb (counter_is_zero (sessionCounter w)));
    simpl; intros H; inversion H; subst;
    exists amt, itv; eexists;
    (split; [reflexivity|]); (split; [reflexivity|]);
    (split; [exact E1|]); simpl;
    (split; [apply get_set_eq|]); split; reflexivity.
Qed.

(** C10: the record enqueued by an accepted submission holds the floor of
    the submitted amount as [totalShares] and the interval rounded to one
    decimal place; an amount strictly between 0 and 1 is accepted and
    yields a record with [totalShares] 0. *)
Theorem submit_stores_floor_and_rounded_interval
        (HEADER_VALUE : option string)
        (JSON_parse_array : string -> option (list cookie_item)) (env : Env)
        (req : Request) (w : World) :
  (forall message id n w',
      submit HEADER_VALUE JSON_parse_array env req w =
        (Ok (apiResponse 200 message (QueuedData id n)), w') ->
      exists amt itv rec r,
        body_amount req = Some amt /\
        body_interval req = Some itv /\
        JsObject.get id (queue w') = Some rec /\
        totalShares rec = Qfloor amt /\
        interval rec = Some r /\
        rounded_to_one_decimal itv r)
  /\
  (forall amt itv,
      well_formed_otherwise HEADER_VALUE JSON_parse_array req ->
      body_amount req = Some amt ->
      body_interval req = Some itv ->
      (0 < amt)%Q -> (amt < 1)%Q -> (1 # 10 <= itv)%Q -> (itv <= 60)%Q ->
      exists id n w' rec,
        submit HEADER_VALUE JSON_parse_array env req w =
          (Ok (apiResponse 200 "Sharing process queued successfully"
                           (QueuedData id n)), w') /\
        JsObject.get id (queue w') = Some rec /\
        totalShares rec = 0%Z).
Proof.
  split.
  - intros message id n w' H.
    destruct (submit_accepted_inv HEADER_VALUE JSON_parse_array env req w w'
                message id n H) as (amt & itv & rec & Ha & Hi & _ & Hg & Ht & Hr).
    exists amt, itv, rec, (parseFloat_toFixed1 itv).
    repeat split; try assumption. apply parseFloat_toFixed1_rounds.
  - intros amt itv Hwf Ha Hi H0 H1 H2 H3.
    destruct (submit_accepts HEADER_VALUE JSON_parse_array env req w amt itv
                Hwf Ha Hi H0 H2 H3) as
      (id & n & w' & rec & E & _ & _ & Hg & _ & Ht & _).
    + right. lra.
    + exists id, n, w', rec. split; [exact E|]. split; [exact Hg|].
      rewrite Ht. now apply Qfloor_below_one.
Qed.

Lemma submit_stores_floor_and_rounded_interval_witness :
  (exists amt itv rec r,
      body_amount (example_request (7 # 2) (1 # 4)) = Some amt /\
      body_interval (example_request (7 # 2) (1 # 4)) = Some itv /\
      JsObject.get 550000%N
        (queue (run (example_submit (example_env never_shares) (7 # 2) (1 # 4))
                    fresh_world)) = Some rec /\
      totalShares rec = Qfloor amt /\
      interval rec = Some r /\
      rounded_to_one_decimal itv r)
  /\
  (exists id n w' rec,
      example_submit (example_env never_shares) (1 # 2) 1 fresh_world =
        (Ok (apiResponse 200 "Sharing process queued successfully"
                         (QueuedData id n)), w') /\
      JsObject.get id (queue w') = Some rec /\
      totalShares rec = 0%Z).
Proof.
  split.
  - apply (proj1 (submit_stores_floor_and_rounded_interval
                    example_HEADER_VALUE example_JSON_parse_array
                    (example_env never_shares)
                    (example_request (7 # 2) (1 # 4)) fresh_world)
             "Sharing process queued successfully" 550000%N 1%Z).
    vm_compute. reflexivity.
  - apply (proj2 (submit_stores_floor_and_rounded_interval
                    example_HEADER_VALUE example_JSON_parse_array
                    (example_env never_shares)
                    (example_request (1 # 2) 1) fresh_world)
             (1 # 2)%Q 1%Q); try reflexivity; try lra.
    split; [reflexivity|].
    exists "c_user=1; xs=2", "https://www.facebook.com/post/1".
    repeat split; reflexivity.
Defined.

(** ** Startup recovery *)

Lemma get_recover (id : sessionId) (o : JsObject.t Session) :
  JsObject.get id (recover o) = option_map interrupt (JsObject.get id o).
Proof.
  induction o as [|[k v] rest IH]; simpl; [reflexivity|].
  destruct (N.eqb id k); [reflexivity|exact IH].
Qed.

Lemma holds_undefined_interrupt (s : Session) :
  holds_undefined (interrupt s) = holds_undefined s.
Proof.
  unfold interrupt. destruct (Status_eqb (status s) in_progress); reflexivity.
Qed.

Lemma clean_recover (o : JsObject.t Session) : clean o -> clean (recover o).
Proof.
  unfold clean. induction o as [|[k v] rest IH]; simpl; [auto|].
  rewrite holds_undefined_interrupt.
  intros H. apply orb_false_iff in H. destruct H as [H1 H2].
  rewrite H1. simpl. now apply IH.
Qed.

Lemma recover_nothing (o : JsObject.t Session) :
  existsb (fun s => Status_eqb (status s) in_progress) (JsObject.values o)
    = false ->
  recover o = o.
Proof.
  induction o as [|[k v] rest IH]; simpl; [reflexivity|].
  intros H. apply orb_false_iff in H. destruct H as [H1 H2].
  unfold interrupt. rewrite H1, (IH H2). reflexivity.
Qed.

Lemma Status_eqb_eq (a b : Status) : Status_eqb a b = true <-> a = b.
Proof. destruct a, b; simpl; split; intros H; congruence. Qed.

Lemma startup_sessions (w : World) :
  clean (sessions w) ->
  exists w',
    startup w = (Ok tt, w') /\
    sessions w' = recover (sessions w) /\
    queue w' = queue w /\
    sessionCounter w' =
      if Nat.eqb (List.length (activeSessions (recover (sessions w)))) 0
      then Some 0%Z else sessionCounter w.
Proof.
  intros Hc. unfold startup, bind, readSessions. fold (recover (sessions w)).
  destruct (existsb (fun s => Status_eqb (status s) in_progress)
                    (JsObject.values (sessions w))) eqn:En.
  - unfold writeSessions. pose proof (clean_recover _ Hc) as Hr.
    unfold clean in Hr. rewrite Hr.
    destruct (Nat.eqb (List.length (activeSessions (recover (sessions w)))) 0).
    + simpl. destruct (sessionCounter w) as [z|] eqn:Ez; simpl.
      * destruct (Z.eqb z 0) eqn:E0; simpl.
        -- apply Z.eqb_eq in E0. subst z.
           eexists. split; [reflexivity|]. simpl. rewrite Ez. auto.
        -- eexists. split; [reflexivity|]. simpl. auto.
      * eexists. split; [reflexivity|]. simpl. auto.
    + eexists. split; [reflexivity|]. simpl. auto.
  - rewrite (recover_nothing _ En). unfold ret.
    destruct (Nat.eqb (List.length (activeSessions (sessions w))) 0).
    + destruct (sessionCounter w) as [z|] eqn:Ez; simpl.
      * destruct (Z.eqb z 0) eqn:E0; simpl.
        -- apply Z.eqb_eq in E0. subst z.
           eexists. split; [reflexivity|]. auto.
        -- eexists. split; [reflexivity|]. simpl. auto.
      * eexists. split; [reflexivity|]. simpl. auto.
    + eexists. split; [reflexivity|]. auto.
Qed.

(** C9: startup turns every stored session in progress into a failed one
    with the message about the server restart and leaves every other
    record, and the queue, as they were; when no session is active
    afterwards the counter is 0 and the next sequence number is 1,
    otherwise the counter is kept. *)
Theorem startup_recovery (w : World) :
  clean (sessions w) ->
  exists w',
    startup w = (Ok tt, w') /\
    (forall id s,
        JsObject.get id (sessions w) = Some s ->
        exists s',
          JsObject.get id (sessions w') = Some s' /\
          (status s = in_progress ->
           s' = mkSession failed (totalShares s) (completedShares s)
                          (failedShares s)
                          (Some "Server restart interrupted this session")
                          (url s) (interval s) (createdAt s) (lastUpdated s)
                          (sessionNumber s) (cookie s) (successRate s)
                          (amount s)) /\
          (status s <> in_progress -> s' = s)) /\
    (forall id,
        JsObject.get id (sessions w) = None ->
        JsObject.get id (sessions w') = None) /\
    queue w' = queue w /\
    (activeSessions (sessions w') = [] ->
     sessionCounter w' = Some 0%Z /\
     result getNextSessionNumber w' = Ok 1%Z) /\
    (activeSessions (sessions w') <> [] ->
     sessionCounter w' = sessionCounter w).
Proof.
  intros Hc.
  destruct (startup_sessions w Hc) as (w' & E & Hs & Hq & Hn).
  exists w'. split; [exact E|]. split; [|split; [|split; [exact Hq|split]]].
  - intros id s Hg. exists (interrupt s). rewrite Hs, get_recover, Hg.
    split; [reflexivity|]. unfold interrupt. split.
    + intros Hst. rewrite Hst. reflexivity.
    + intros Hst. destruct (Status_eqb (status s) in_progress) eqn:Eq;
        [apply Status_eqb_eq in Eq; contradiction|reflexivity].
  - intros id Hg. rewrite Hs, get_recover, Hg. reflexivity.
  - intros Ha. rewrite <- Hs, Ha in Hn. simpl in Hn.
    split; [exact Hn|]. now apply getNextSessionNumber_no_active.
  - intros Ha. rewrite <- Hs in Hn.
    destruct (activeSessions (sessions w')); [now elim Ha|exact Hn].
Qed.

Lemma startup_recovery_witness :
  exists w',
    startup interrupted_world = (Ok tt, w') /\
    option_map status (JsObject.get 222222%N (sessions w')) = Some failed /\
    option_map error (JsObject.get 222222%N (sessions w')) =
      Some (Some "Server restart interrupted this session") /\
    JsObject.get 111111%N (sessions w') = Some finished_record /\
    sessionCounter w' = Some 0%Z /\
    result getNextSessionNumber w' = Ok 1%Z.
Proof.
  destruct (startup_recovery interrupted_world eq_refl)
    as (w' & E & Hs & _ & _ & Hn & _).
  exists w'. split; [exact E|].
  destruct (Hs 222222%N _ eq_refl) as (s2 & G2 & F2 & _).
  destruct (Hs 111111%N _ eq_refl) as (s1 & G1 & _ & F1).
  rewrite G2, G1, (F2 eq_refl), (F1 ltac:(discriminate)).
  repeat split; apply Hn;
    vm_compute in E; inversion E; subst w'; reflexivity.
Defined.

(** ** The runner on a record that carries [amount] *)

Lemma saveProgress_effect (env : Env) (id : sessionId) (p : Progress)
      (w : World) (base : Session) :
  clean (sessions w) ->
  JsObject.get id (sessions w) = Some base ->
  defined (p_failedShares p) ->
  exists w' t,
    saveProgress env id p w = (Ok tt, w') /\
    JsObject.get id (sessions w') = Some (merge_progress base p t) /\
    history w' = sessions w' :: history w /\
    clean (sessions w') /\
    shareCalls w' = shareCalls w.
Proof.
  intros Hc Hg Hp.
  rewrite (saveProgress_stored env id p w base Hc Hg Hp).
  do 2 eexists. split; [reflexivity|]. simpl.
  split; [apply get_set_eq|]. split; [reflexivity|]. split; [|reflexivity].
  apply clean_set; [exact Hc|].
  apply holds_undefined_merge; [eapply clean_get; eauto|exact Hp].
Qed.

(** With the requested count in [amount], each of the three setup
    failures is recorded as the specification says. *)
Lemma processSession_setup_failure_with_amount
      (env : Env) (WORKER_COUNT : nat) (id : sessionId) (w : World)
      (s : Session) (q : Q) :
  clean (sessions w) ->
  JsObject.get id (sessions w) = Some s ->
  amount s = Some q ->
  setup_fails env s ->
  exists w' s' message,
    processSession env WORKER_COUNT id w = (Ok tt, w') /\
    shareCalls w' = shareCalls w /\
    JsObject.get id (sessions w') = Some s' /\
    status s' = failed /\
    error s' = Some message /\
    In message ["Invalid cookie"; "Token retrieval failed"; "Invalid post ID"] /\
    failedShares s' = Some (num q) /\
    completedShares s' = completedShares s /\
    totalShares s' = totalShares s.
Proof.
  intros Hc Hg Ha Hf.
  assert (Hsave : forall message,
             In message ["Invalid cookie"; "Token retrieval failed";
                         "Invalid post ID"] ->
             exists w' s' msg,
               saveProgress env id (setup_failure message (num q)) w
                 = (Ok tt, w') /\
               shareCalls w' = shareCalls w /\
               JsObject.get id (sessions w') = Some s' /\
               status s' = failed /\
               error s' = Some msg /\
               In msg ["Invalid cookie"; "Token retrieval failed";
                       "Invalid post ID"] /\
               failedShares s' = Some (num q) /\
               completedShares s' = completedShares s /\
               totalShares s' = totalShares s).
  { intros message Hin.
    destruct (saveProgress_effect env id (setup_failure message (num q)) w s
                Hc Hg) as (w' & t & E & Hg' & _ & _ & Hs); [discriminate|].
    exists w'. eexists. exists message.
    split; [exact E|]. split; [exact Hs|]. split; [exact Hg'|].
    simpl. repeat split. exact Hin. }
  unfold processSession, try_catch, processSession_try.
  unfold bind at 1. unfold readSessions at 1. simpl.
  rewrite Hg, Ha. unfold setup_fails in Hf.
  destruct (cookie s) as [c|]; simpl.
  - destruct (env_validateCookie env c) eqn:Hv; simpl.
    + destruct (env_getFacebookToken env c) as [tok|] eqn:Ht.
      * destruct (env_getPostId env (or_else (url s) "undefined"))
          as [pid|] eqn:Hp.
        { destruct Hf as [Hf|[Hf|Hf]]; discriminate. }
        destruct (Hsave "Invalid post ID") as (w' & s' & m & E & H);
          [simpl; tauto|].
        rewrite E. exists w', s', m. exact (conj eq_refl H).
      * destruct (Hsave "Token retrieval failed") as (w' & s' & m & E & H);
          [simpl; tauto|].
        rewrite E. exists w', s', m. exact (conj eq_refl H).
    + destruct (Hsave "Invalid cookie") as (w' & s' & m & E & H);
        [simpl; tauto|].
      rewrite E. exists w', s', m. exact (conj eq_refl H).
  - destruct (Hsave "Invalid cookie") as (w' & s' & m & E & H);
      [simpl; tauto|].
    rewrite E. exists w', s', m. exact (conj eq_refl H).
Qed.

Lemma or_zero_num (q : Q) : (or_zero (Some (num q)) == q)%Q.
Proof.
  simpl. destruct (Qeq_bool q 0) eqn:E; [|reflexivity].
  apply Qeq_bool_iff in E. now rewrite E.
Qed.

Lemma Qnat_plus (a b : nat) : (Qnat a + Qnat b == Qnat (a + b))%Q.
Proof.
  unfold Qnat. rewrite Nat2Z.inj_add, inject_Z_plus. reflexivity.
Qed.

Lemma Qnat_le (a b : nat) : a <= b -> (Qnat a <= Qnat b)%Q.
Proof. intros H. unfold Qnat. rewrite <- Zle_Qle. lia. Qed.

(** The record written by a flush of the counts [sc] and [fc]. *)
Lemma counts_invariant_flush (base : Session) (st : option Status)
      (e : option string) (sc fc n : nat) (t : timestamp) :
  totalShares base = Z.of_nat n ->
  sc + fc <= n ->
  (or_else st (status base) = completed -> sc + fc = n) ->
  or_else st (status base) <> failed ->
  counts_invariant
    (merge_progress base (mkProgress st e (Some sc) (Some (num (Qnat fc)))) t).
Proof.
  intros Ht Hle Hdone Hnf.
  assert (Hc : forall s', s' = merge_progress base
                 (mkProgress st e (Some sc) (Some (num (Qnat fc)))) t ->
               (counted s' == Qnat (sc + fc))%Q /\ requested s' = Qnat n).
  { intros s' ->. unfold counted, requested. cbn [completedShares failedShares
      totalShares merge_progress p_completedShares p_failedShares or_else
      or_keep]. rewrite Ht. split; [|reflexivity].
    rewrite or_zero_num. apply Qnat_plus. }
  destruct (Hc _ eq_refl) as [Hcount Hreq].
  split.
  - rewrite Hcount, Hreq. now apply Qnat_le.
  - cbn [status merge_progress p_status]. intros Hterm.
    destruct (or_else st (status base)) eqn:Est; simpl in Hterm;
      try discriminate.
    + left. rewrite Hcount, Hreq, (Hdone eq_refl). reflexivity.
    + now elim Hnf.
    + right. split; [reflexivity|]. rewrite Hcount, Hreq. now apply Qnat_le.
Qed.

Lemma good_history_write (id : sessionId) (h0 : list (JsObject.t Session))
      (w w' : World) :
  good_history id h0 w ->
  history w' = sessions w' :: history w ->
  good_doc id (sessions w') ->
  good_history id h0 w'.
Proof.
  intros Hh E Hd doc Hin. rewrite E in Hin. destruct Hin as [<-|Hin].
  - now right.
  - now apply Hh.
Qed.

Lemma flush_keeps_counts (env : Env) (id : sessionId) (amount : jsnum)
      (n i sc fc : nat) (h0 : list (JsObject.t Session)) (w : World) :
  running id n w -> good_history id h0 w -> sc + fc <= n ->
  exists w',
    flush env id amount i sc fc w = (Ok tt, w') /\
    running id n w' /\ good_history id h0 w'.
Proof.
  intros (Hc & s & Hg & Hst & Ht) Hh Hle. unfold flush.
  destruct (flush_due i amount).
  - destruct (saveProgress_effect env id (counts sc fc) w s Hc Hg)
      as (w' & t & E & Hg' & Hh' & Hc' & _); [discriminate|].
    exists w'. split; [exact E|]. split.
    + split; [exact Hc'|]. eexists. split; [exact Hg'|]. simpl. auto.
    + apply (good_history_write id h0 w w' Hh Hh').
      eexists. split; [exact Hg'|].
      apply counts_invariant_flush with (n := n); simpl; try assumption;
        rewrite Hst; discriminate.
  - exists w. split; [reflexivity|]. split; [|exact Hh].
    split; [exact Hc|]. eauto.
Qed.

Lemma iteration_keeps_counts (env : Env) (id : sessionId) (amount : jsnum)
      (n i sc fc cf : nat) (h0 : list (JsObject.t Session)) (w : World) :
  running id n w -> good_history id h0 w -> sc + fc = i -> i < n ->
  exists r w',
    iteration env id amount i sc fc cf w = (r, w') /\
    good_history id h0 w' /\
    match r with
    | Ok (Next sc' fc' cf') => running id n w' /\ sc' + fc' = S i
    | _ => True
    end.
Proof.
  intros Hrun Hh Hsum Hlt. unfold iteration.
  unfold bind at 1. rewrite pace_bump.
  unfold bind at 1.
  destruct (attempt_frame env maxRetries (bump 2 0 w)) as [Hs Hhist].
  unfold run in Hs, Hhist.
  destruct (attempt env maxRetries (bump 2 0 w)) as [[success|e] w1];
    simpl in Hs, Hhist.
  - assert (Hrun1 : running id n w1) by (unfold running; rewrite Hs; exact Hrun).
    assert (Hh1 : good_history id h0 w1)
      by (unfold good_history; rewrite Hhist; exact Hh).
    destruct success.
    + destruct (flush_keeps_counts env id amount n i (S sc) fc h0 w1 Hrun1 Hh1)
        as (w' & E & Hrun' & Hh'); [lia|].
      unfold bind. rewrite E. do 2 eexists. split; [reflexivity|].
      split; [exact Hh'|]. split; [exact Hrun'|lia].
    + destruct (Nat.leb MAX_CONSECUTIVE_FAILURES (S cf)).
      * destruct Hrun1 as (Hc & s & Hg & Hst & Ht).
        destruct (saveProgress_effect env id (terminated_progress sc (S fc))
                    w1 s Hc Hg) as (w' & t & E & Hg' & Hh' & _);
          [discriminate|].
        unfold bind. rewrite E. do 2 eexists. split; [reflexivity|].
        split; [|exact I].
        apply (good_history_write id h0 w1 w' Hh1 Hh').
        eexists. split; [exact Hg'|].
        apply counts_invariant_flush with (n := n); simpl; try assumption;
          try discriminate. lia.
      * destruct (flush_keeps_counts env id amount n i sc (S fc) h0 w1 Hrun1 Hh1)
          as (w' & E & Hrun' & Hh'); [lia|].
        unfold bind. rewrite E. do 2 eexists. split; [reflexivity|].
        split; [exact Hh'|]. split; [exact Hrun'|lia].
  - do 2 eexists. split; [reflexivity|]. split; [|exact I].
    unfold good_history. rewrite Hhist. exact Hh.
Qed.

Lemma action_loop_keeps_counts (env : Env) (id : sessionId) (amount : jsnum)
      (n : nat) (h0 : list (JsObject.t Session)) :
  forall k i sc fc cf w,
    running id n w -> good_history id h0 w -> sc + fc = i -> i + k = n ->
    exists r w',
      action_loop env id amount (seq i k) sc fc cf w = (r, w') /\
      good_history id h0 w' /\
      match r with
      | Ok (LoopDone sc' fc') => running id n w' /\ sc' + fc' = n
      | _ => True
      end.
Proof.
  induction k as [|k IH]; intros i sc fc cf w Hrun Hh Hsum Hn.
  - simpl. do 2 eexists. split; [reflexivity|]. split; [exact Hh|].
    split; [exact Hrun|lia].
  - simpl seq. simpl action_loop.
    destruct (iteration_keeps_counts env id amount n i sc fc cf h0 w Hrun Hh Hsum)
      as (r & w1 & E & Hh1 & Hr); [lia|].
    unfold bind. rewrite E.
    destruct r as [[sc' fc' cf'|]|e].
    + destruct Hr as [Hrun1 Hsum1].
      apply (IH (S i) sc' fc' cf' w1 Hrun1 Hh1 Hsum1). lia.
    + do 2 eexists. split; [reflexivity|]. split; [exact Hh1|exact I].
    + do 2 eexists. split; [reflexivity|]. split; [exact Hh1|exact I].
Qed.

Lemma loop_indices_Qnat (n : nat) : loop_indices (num (Qnat n)) = seq 0 n.
Proof.
  unfold loop_indices, iterations, Qnat. now rewrite Qceiling_Z, Nat2Z.id.
Qed.

(** The [catch] block never writes: the world that a run leaves is the
    one its [try] block leaves. *)
Lemma processSession_world (env : Env) (WORKER_COUNT : nat) (id : sessionId)
      (w : World) :
  run (processSession env WORKER_COUNT id) w = run (processSession_try env id) w.
Proof.
  unfold run, processSession, try_catch.
  destruct (processSession_try env id w) as [[a|e] w']; reflexivity.
Qed.

(** X2: with the requested count in [amount] (equal to [totalShares]),
    every document that a run of [processSession] writes keeps the
    invariant on the counts of its session, whatever the shares answer. *)
Lemma processSession_keeps_counts_with_amount
      (env : Env) (WORKER_COUNT : nat) (id : sessionId) (w : World)
      (s : Session) (n : nat) :
  clean (sessions w) ->
  JsObject.get id (sessions w) = Some s ->
  amount s = Some (Qnat n) ->
  totalShares s = Z.of_nat n ->
  completedShares s = 0 ->
  failedShares s = None ->
  good_history id (history w) (run (processSession env WORKER_COUNT id) w).
Proof.
  intros Hc Hg Ha Ht Hcs Hfs.
  assert (Hh0 : good_history id (history w) w) by (intros doc Hin; now left).
  assert (Hfail : forall message,
             good_history id (history w)
               (run (saveProgress env id (setup_failure message (num (Qnat n))))
                    w)).
  { intros message.
    destruct (saveProgress_effect env id
                (setup_failure message (num (Qnat n))) w s Hc Hg)
      as (w' & t & E & Hg' & Hh' & _); [discriminate|].
    unfold run. rewrite E. simpl.
    apply (good_history_write id (history w) w w' Hh0 Hh').
    eexists. split; [exact Hg'|].
    unfold counts_invariant, counted, requested.
    cbn [completedShares failedShares totalShares status merge_progress
         setup_failure p_completedShares p_failedShares p_status or_else
         or_keep]. rewrite Hcs, Ht, or_zero_num.
    change (inject_Z (Z.of_nat n)) with (Qnat n).
    change (Qnat 0) with 0%Q.
    split; [|intros _; left]; lra. }
  rewrite processSession_world.
  unfold run, processSession_try.
  unfold bind at 1. unfold readSessions at 1. simpl.
  rewrite Hg, Ha.
  destruct (cookie s) as [c|]; simpl; [|apply Hfail].
  destruct (env_validateCookie env c); simpl; [|apply Hfail].
  destruct (env_getFacebookToken env c) as [tok|]; [|apply Hfail].
  destruct (env_getPostId env (or_else (url s) "undefined")) as [pid|];
    [|apply Hfail].
  destruct (saveProgress_effect env id
              (mkProgress (Some in_progress) None None None) w s Hc Hg)
    as (w1 & t & E1 & Hg1 & Hh1 & Hc1 & _); [discriminate|].
  unfold bind at 1. rewrite E1.
  unfold bind at 1. unfold Date_now at 1.
  change (mkWorld (sessions w1) (sessionCounter w1) (queue w1)
            (S (clockReads w1)) (shareCalls w1) (randomReads w1)
            (history w1)) with (bump 1 0 w1).
  assert (Hrun1 : running id n (bump 1 0 w1)).
  { split; [exact Hc1|]. eexists. split; [exact Hg1|]. simpl. auto. }
  assert (Hgh1 : good_history id (history w) (bump 1 0 w1)).
  { apply (good_history_write id (history w) w (bump 1 0 w1) Hh0 Hh1).
    eexists. split; [exact Hg1|].
    unfold counts_invariant, counted, requested.
    cbn [completedShares failedShares totalShares status merge_progress
         p_completedShares p_failedShares p_status or_else or_keep].
    rewrite Hcs, Ht, Hfs.
    split; [|discriminate].
    unfold Qnat. simpl. rewrite Qplus_0_r.
    change 0%Q with (inject_Z 0). rewrite <- Zle_Qle. lia. }
  rewrite loop_indices_Qnat.
  destruct (action_loop_keeps_counts env id (num (Qnat n)) n (history w)
              n 0 0 0 0 (bump 1 0 w1) Hrun1 Hgh1 eq_refl eq_refl)
    as (r & w2 & E2 & Hh2 & Hr).
  unfold bind. rewrite E2.
  destruct r as [[sc fc|]|e]; simpl.
  - destruct Hr as [(Hc2 & s2 & Hg2 & Hst2 & Ht2) Hsum].
    destruct (saveProgress_effect env id
                (mkProgress (Some completed) None (Some sc)
                            (Some (num (Qnat fc)))) w2 s2 Hc2 Hg2)
      as (w3 & t3 & E3 & Hg3 & Hh3 & _); [discriminate|].
    rewrite E3. simpl.
    apply (good_history_write id (history w) w2 w3 Hh2 Hh3).
    eexists. split; [exact Hg3|].
    apply counts_invariant_flush with (n := n); simpl; try assumption;
      try discriminate; try lia; auto.
  - exact Hh2.
  - exact Hh2.
Qed.

Lemma processSession_keeps_counts_with_amount_witness :
  good_history 550000%N (history (world_with_amount 3))
    (run (processSession (example_env two_then_none) 4 550000%N)
         (world_with_amount 3)).
Proof.
  apply (processSession_keeps_counts_with_amount (example_env two_then_none) 4
           550000%N (world_with_amount 3) (record_with_amount 3) 3);
    reflexivity.
Defined.

(** ** Further properties: retries, reach and cost of a run *)

Lemma run_bind {A B} (m : M A) (k : A -> M B) (w : World) :
  run (bind m k) w =
    match result m w with
    | Ok a => run (k a) (run m w)
    | Throw _ => run m w
    end.
Proof.
  unfold run, result, bind. destruct (m w) as [[a|e] w1]; reflexivity.
Qed.

Lemma attempt_step (env : Env) (r : nat) (w : World) :
  attempt env (S r) w =
    match env_performShare env (shareCalls w) with
    | Shared => (Ok true, bump 0 1 w)
    | NotShared => attempt env r (bump 0 1 w)
    | Rejected msg => (Throw msg, bump 0 1 w)
    end.
Proof.
  simpl. unfold bind, schedule_performShare.
  destruct (env_performShare env (shareCalls w)); reflexivity.
Qed.

Lemma attempt_outcome (env : Env) (retries : nat) :
  forall w res w',
    attempt env retries w = (res, w') ->
    match res with
    | Ok true =>
        exists k,
          k < retries /\
          shareCalls w' = S k + shareCalls w /\
          env_performShare env (k + shareCalls w) = Shared /\
          forall j, j < k -> env_performShare env (j + shareCalls w) = NotShared
    | Ok false =>
        shareCalls w' = retries + shareCalls w /\
        forall j, j < retries ->
          env_performShare env (j + shareCalls w) = NotShared
    | Throw e =>
        exists k,
          k < retries /\
          shareCalls w' = S k + shareCalls w /\
          env_performShare env (k + shareCalls w) = Rejected e /\
          forall j, j < k -> env_performShare env (j + shareCalls w) = NotShared
    end.
Proof.
  induction retries as [|r IH]; intros w res w' H.
  - simpl in H. unfold ret in H. inversion H; subst.
    split; [reflexivity|]. intros j Hj. lia.
  - rewrite attempt_step in H.
    destruct (env_performShare env (shareCalls w)) as [| |msg] eqn:E.
    + inversion H; subst. exists 0.
      repeat split; first [exact E | lia | intros j Hj; lia].
    + specialize (IH _ _ _ H). simpl shareCalls in IH.
      assert (Hshift : forall j, j + S (shareCalls w) = S j + shareCalls w)
        by (intros; lia).
      destruct res as [[|]|e].
      * destruct IH as (k & Hk & Hc & Hok & Hbefore).
        exists (S k). repeat split.
        -- lia.
        -- rewrite Hc. lia.
        -- rewrite <- Hshift. exact Hok.
        -- intros j Hj. destruct j as [|j]; [exact E|].
           rewrite <- Hshift. apply Hbefore. lia.
      * destruct IH as (Hc & Hbefore). split.
        -- rewrite Hc. lia.
        -- intros j Hj. destruct j as [|j]; [exact E|].
           rewrite <- Hshift. apply Hbefore. lia.
      * destruct IH as (k & Hk & Hc & Hok & Hbefore).
        exists (S k). repeat split.
        -- lia.
        -- rewrite Hc. lia.
        -- rewrite <- Hshift. exact Hok.
        -- intros j Hj. destruct j as [|j]; [exact E|].
           rewrite <- Hshift. apply Hbefore. lia.
    + inversion H; subst. exists 0.
      repeat split; first [exact E | lia | intros j Hj; lia].
Qed.

(** X3: [attempt] calls [performShare] until one call succeeds, at most
    [retries] times; it answers false only after [retries] failed calls, and
    a rejected job ends it at once with that error.  The store is not
    touched. *)
Theorem attempt_stops_at_first_success (env : Env) (retries : nat) (w : World) :
  sessions (run (attempt env retries) w) = sessions w /\
  history (run (attempt env retries) w) = history w /\
  match result (attempt env retries) w with
  | Ok true =>
      exists k,
        k < retries /\
        shareCalls (run (attempt env retries) w) = S k + shareCalls w /\
        env_performShare env (k + shareCalls w) = Shared /\
        forall j, j < k -> env_performShare env (j + shareCalls w) = NotShared
  | Ok false =>
      shareCalls (run (attempt env retries) w) = retries + shareCalls w /\
      forall j, j < retries ->
        env_performShare env (j + shareCalls w) = NotShared
  | Throw e =>
      exists k,
        k < retries /\
        shareCalls (run (attempt env retries) w) = S k + shareCalls w /\
        env_performShare env (k + shareCalls w) = Rejected e /\
        forall j, j < k -> env_performShare env (j + shareCalls w) = NotShared
  end.
Proof.
  destruct (attempt_frame env retries w) as [Hs Hh].
  split; [exact Hs|]. split; [exact Hh|].
  unfold result, run.
  destruct (attempt env retries w) as [res w'] eqn:E.
  exact (attempt_outcome env retries w res w' E).
Qed.

Lemma frame_refl (id : sessionId) (w : World) : frame id w w.
Proof. repeat split. Qed.

Lemma frame_trans (id : sessionId) (w1 w2 w3 : World) :
  frame id w1 w2 -> frame id w2 w3 -> frame id w1 w3.
Proof.
  intros (Q1 & C1 & R1 & G1) (Q2 & C2 & R2 & G2). repeat split.
  - now rewrite Q2.
  - now rewrite C2.
  - now rewrite R2.
  - intros k Hk. rewrite (G2 k Hk). now apply G1.
Qed.

Lemma keeps_frame_ret {A} (id : sessionId) (a : A) : keeps_frame id (ret a).
Proof. intros w. apply frame_refl. Qed.

Lemma keeps_frame_bind {A B} (id : sessionId) (m : M A) (k : A -> M B) :
  keeps_frame id m -> (forall a, keeps_frame id (k a)) ->
  keeps_frame id (bind m k).
Proof.
  intros Hm Hk w. rewrite run_bind.
  destruct (result m w); [|apply Hm].
  eapply frame_trans; [apply Hm|apply Hk].
Qed.

Lemma keeps_frame_Date_now (id : sessionId) (env : Env) :
  keeps_frame id (Date_now env).
Proof. intros w. repeat split. Qed.

Lemma keeps_frame_saveProgress (id : sessionId) (env : Env) (p : Progress) :
  keeps_frame id (saveProgress env id p).
Proof.
  intros w. unfold run, saveProgress, saveProgress_write, bind, readSessions, writeSessions,
    broadcastActiveSessions, bind, readSessions, Date_now, ret; simpl.
  destruct (JsObject.get id (sessions w)) as [base|]; simpl;
    match goal with
    | |- context [existsb holds_undefined ?l] =>
        destruct (existsb holds_undefined l)
    end; simpl; repeat split;
    intros k Hk; now apply get_set_neq.
Qed.

Lemma keeps_frame_attempt (id : sessionId) (env : Env) (n : nat) :
  keeps_frame id (attempt env n).
Proof.
  intros w. destruct (attempt_frame env n w) as [Hs _].
  unfold frame. rewrite Hs. clear Hs.
  revert w. induction n as [|r IH]; intros w; [repeat split|].
  unfold run. rewrite attempt_step.
  destruct (env_performShare env (shareCalls w)); try (repeat split; fail).
  destruct (IH (bump 0 1 w)) as (Q & C & R & _). unfold run in *.
  repeat split; assumption.
Qed.

Lemma keeps_frame_flush (id : sessionId) (env : Env) (amount : jsnum)
      (i sc fc : nat) :
  keeps_frame id (flush env id amount i sc fc).
Proof.
  unfold flush. destruct (flush_due i amount);
    [apply keeps_frame_saveProgress|apply keeps_frame_ret].
Qed.

Lemma keeps_frame_iteration (id : sessionId) (env : Env) (amount : jsnum)
      (i sc fc cf : nat) :
  keeps_frame id (iteration env id amount i sc fc cf).
Proof.
  unfold iteration, pace.
  apply keeps_frame_bind.
  { apply keeps_frame_bind; [apply keeps_frame_Date_now|intros ?].
    apply keeps_frame_bind; [apply keeps_frame_Date_now|intros ?].
    apply keeps_frame_ret. }
  intros _.
  apply keeps_frame_bind; [apply keeps_frame_attempt|].
  intros [|].
  - apply keeps_frame_bind; [apply keeps_frame_flush|intros ?; apply keeps_frame_ret].
  - destruct (Nat.leb MAX_CONSECUTIVE_FAILURES (S cf)).
    + apply keeps_frame_bind;
        [apply keeps_frame_saveProgress|intros ?; apply keeps_frame_ret].
    + apply keeps_frame_bind;
        [apply keeps_frame_flush|intros ?; apply keeps_frame_ret].
Qed.

Lemma keeps_frame_action_loop (id : sessionId) (env : Env) (amount : jsnum)
      (indices : list nat) :
  forall sc fc cf, keeps_frame id (action_loop env id amount indices sc fc cf).
Proof.
  induction indices as [|i rest IH]; intros sc fc cf; simpl.
  - apply keeps_frame_ret.
  - apply keeps_frame_bind; [apply keeps_frame_iteration|].
    intros [sc' fc' cf'|]; [apply IH|apply keeps_frame_ret].
Qed.

Lemma keeps_frame_processSession_try (id : sessionId) (env : Env) :
  keeps_frame id (processSession_try env id).
Proof.
  unfold processSession_try.
  apply keeps_frame_bind; [intros w; apply frame_refl|]. intros all.
  destruct (JsObject.get id all) as [s|]; [|apply keeps_frame_ret].
  destruct (negb _); [apply keeps_frame_saveProgress|].
  destruct (match cookie s with Some c => _ | None => _ end);
    [|apply keeps_frame_saveProgress].
  destruct (env_getPostId env _); [|apply keeps_frame_saveProgress].
  apply keeps_frame_bind; [apply keeps_frame_saveProgress|intros ?].
  apply keeps_frame_bind; [apply keeps_frame_Date_now|intros ?].
  apply keeps_frame_bind; [apply keeps_frame_action_loop|].
  intros [sc fc|]; [apply keeps_frame_saveProgress|apply keeps_frame_ret].
Qed.

(** What the write phase of [saveProgress] leaves in the node: the
    document that was read, changed at [id], unless the store refuses
    it. *)
Lemma saveProgress_write_document (env : Env) (id : sessionId) (p : Progress)
      (all : JsObject.t Session) (w : World) :
  exists s',
    sessions (run (saveProgress_write env id p all) w) =
      (if existsb holds_undefined (JsObject.values (JsObject.set id s' all))
       then sessions w
       else JsObject.set id s' all) /\
    queue (run (saveProgress_write env id p all) w) = queue w /\
    sessionCounter (run (saveProgress_write env id p all) w)
      = sessionCounter w.
Proof.
  unfold run, saveProgress_write, bind, writeSessions,
    broadcastActiveSessions, bind, readSessions, Date_now, ret; simpl.
  destruct (JsObject.get id all) as [base|]; simpl;
    eexists;
    match goal with
    | |- context [existsb holds_undefined ?l] =>
        destruct (existsb holds_undefined l) eqn:E
    end; simpl; rewrite ?E; repeat split; reflexivity.
Qed.

(** X4: with no other writer between its reads and its writes, a run of
    [processSession] for [id] leaves the queue, the sequence counter and
    the record of every other session as they were, whatever the
    environment answers.  The condition is needed for the records:
    [saveProgress] writes back the whole document that it read, changed at
    [id] only, so that after a write that the store takes the node holds
    that document, whatever was stored there since the read; the queue
    and the counter are not written in any case. *)
Theorem processSession_touches_only_its_session
        (env : Env) (WORKER_COUNT : nat) (id : sessionId) (w : World) :
  (queue (run (processSession env WORKER_COUNT id) w) = queue w /\
   sessionCounter (run (processSession env WORKER_COUNT id) w)
     = sessionCounter w /\
   forall k, k <> id ->
     JsObject.get k (sessions (run (processSession env WORKER_COUNT id) w))
       = JsObject.get k (sessions w))
  /\
  (forall (p : Progress) (all : JsObject.t Session) (later : World),
      queue (run (saveProgress_write env id p all) later) = queue later /\
      sessionCounter (run (saveProgress_write env id p all) later)
        = sessionCounter later /\
      (sessions (run (saveProgress_write env id p all) later)
         = sessions later \/
       forall k, k <> id ->
         JsObject.get k (sessions (run (saveProgress_write env id p all)
                                       later))
           = JsObject.get k all)).
Proof.
  split.
  - rewrite processSession_world.
    destruct (keeps_frame_processSession_try id env w) as (Q & C & _ & G).
    auto.
  - intros p all later.
    destruct (saveProgress_write_document env id p all later)
      as (s' & Hs & Hq & Hc).
    split; [exact Hq|]. split; [exact Hc|]. rewrite Hs.
    destruct (existsb holds_undefined _); [now left|right].
    intros k Hk. now apply get_set_neq.
Qed.

(** A promotion that lands between the read and the write of a flush is
    lost: the runner of 550000 reads the sessions, [processQueue] promotes
    400000, the runner writes; 400000 is then neither stored nor
    queued. *)
Lemma saveProgress_write_erases_a_promotion :
  let env := example_env never_shares in
  let w0 := run (example_submit env 5 1) (promoted_world 20 1) in
  let all := sessions w0 in
  let w1 := run (processQueue 4) w0 in
  let w2 := run (saveProgress_write env 550000%N
                   (mkProgress (Some in_progress) None None None) all) w1 in
  result (processQueue 4) w0 = Ok (Some 400000%N) /\
  option_map status (JsObject.get 400000%N (sessions w1)) = Some queued /\
  JsObject.get 400000%N (sessions w2) = None /\
  JsObject.get 400000%N (queue w2) = None /\
  option_map status (JsObject.get 550000%N (sessions w2)) = Some in_progress.
Proof. repeat split; vm_compute; reflexivity. Qed.

Lemma calls_within_ret {A} (a : A) : calls_within 0 (ret a).
Proof. intros w. unfold run. simpl. lia. Qed.

Lemma calls_within_weaken {A} (c c' : nat) (m : M A) :
  c <= c' -> calls_within c m -> calls_within c' m.
Proof. intros Hle H w. destruct (H w). lia. Qed.

Lemma calls_within_bind {A B} (c1 c2 : nat) (m : M A) (k : A -> M B) :
  calls_within c1 m -> (forall a, calls_within c2 (k a)) ->
  calls_within (c1 + c2) (bind m k).
Proof.
  intros Hm Hk w. rewrite run_bind. destruct (Hm w) as [L1 U1].
  destruct (result m w) as [a|e]; [|lia].
  destruct (Hk a (run m w)) as [L2 U2]. lia.
Qed.

Lemma calls_within_Date_now (env : Env) : calls_within 0 (Date_now env).
Proof. intros w. unfold run. simpl. lia. Qed.

Lemma calls_within_saveProgress (env : Env) (id : sessionId) (p : Progress) :
  calls_within 0 (saveProgress env id p).
Proof.
  intros w. unfold run, saveProgress, saveProgress_write, bind, readSessions, writeSessions,
    broadcastActiveSessions, bind, readSessions, Date_now, ret; simpl.
  destruct (JsObject.get id (sessions w)) as [base|]; simpl;
    match goal with
    | |- context [existsb holds_undefined ?l] =>
        destruct (existsb holds_undefined l)
    end; simpl; lia.
Qed.

Lemma calls_within_attempt (env : Env) (n : nat) :
  calls_within n (attempt env n).
Proof.
  intros w. unfold run. destruct (attempt env n w) as [res w'] eqn:E.
  pose proof (attempt_outcome env n w res w' E) as H. simpl.
  destruct res as [[|]|e].
  - destruct H as (k & Hk & Hc & _). lia.
  - destruct H as (Hc & _). lia.
  - destruct H as (k & Hk & Hc & _). lia.
Qed.

Lemma calls_within_flush (env : Env) (id : sessionId) (amount : jsnum)
      (i sc fc : nat) :
  calls_within 0 (flush env id amount i sc fc).
Proof.
  unfold flush. destruct (flush_due i amount);
    [apply calls_within_saveProgress|apply calls_within_ret].
Qed.

Lemma calls_within_iteration (env : Env) (id : sessionId) (amount : jsnum)
      (i sc fc cf : nat) :
  calls_within maxRetries (iteration env id amount i sc fc cf).
Proof.
  unfold iteration, pace.
  apply (calls_within_bind 0 maxRetries).
  { apply (calls_within_bind 0 0); [apply calls_within_Date_now|intros ?].
    apply (calls_within_bind 0 0); [apply calls_within_Date_now|intros ?].
    apply calls_within_ret. }
  intros _.
  apply (calls_within_weaken (maxRetries + 0)); [lia|].
  apply calls_within_bind; [apply calls_within_attempt|].
  intros [|].
  - apply (calls_within_bind 0 0);
      [apply calls_within_flush|intros ?; apply calls_within_ret].
  - destruct (Nat.leb MAX_CONSECUTIVE_FAILURES (S cf)).
    + apply (calls_within_bind 0 0);
        [apply calls_within_saveProgress|intros ?; apply calls_within_ret].
    + apply (calls_within_bind 0 0);
        [apply calls_within_flush|intros ?; apply calls_within_ret].
Qed.

Lemma calls_within_action_loop (env : Env) (id : sessionId) (amount : jsnum)
      (indices : list nat) :
  forall sc fc cf,
    calls_within (maxRetries * List.length indices)
                 (action_loop env id amount indices sc fc cf).
Proof.
  induction indices as [|i rest IH]; intros sc fc cf; simpl action_loop.
  - apply (calls_within_weaken 0); [lia|apply calls_within_ret].
  - apply (calls_within_weaken (maxRetries + maxRetries * List.length rest)).
    { simpl List.length. lia. }
    apply calls_within_bind; [apply calls_within_iteration|].
    intros [sc' fc' cf'|]; [apply IH|].
    apply (calls_within_weaken 0); [lia|apply calls_within_ret].
Qed.

Lemma calls_within_processSession_body (env : Env) (id : sessionId)
      (all : JsObject.t Session) :
  calls_within
    (maxRetries *
       match JsObject.get id all with
       | Some s => iterations (amount_read s)
       | None => 0
       end)
    (match JsObject.get id all with
     | None => ret tt
     | Some session =>
         let amount := match amount session with
                       | Some q => num q
                       | None => undefined
                       end in
         let isAlive := match cookie session with
                        | Some c => env_validateCookie env c
                        | None => false
                        end in
         if negb isAlive then
           saveProgress env id (setup_failure "Invalid cookie" amount)
         else
           match match cookie session with
                 | Some c => env_getFacebookToken env c
                 | None => None
                 end with
           | None =>
               saveProgress env id (setup_failure "Token retrieval failed" amount)
           | Some facebookToken =>
               match env_getPostId env (or_else (url session) "undefined") with
               | None =>
                   saveProgress env id (setup_failure "Invalid post ID" amount)
               | Some postId =>
                   saveProgress env id
                     (mkProgress (Some in_progress) None None None) ;;;
                   _ <- Date_now env ;;
                   exit <- action_loop env id amount (loop_indices amount) 0 0 0 ;;
                   match exit with
                   | LoopReturned => ret tt
                   | LoopDone successCount failedCount =>
                       saveProgress env id
                         (mkProgress (Some completed) None (Some successCount)
                                     (Some (num (Qnat failedCount))))
                   end
               end
           end
     end).
Proof.
  destruct (JsObject.get id all) as [s|];
    [|apply (calls_within_weaken 0); [lia|apply calls_within_ret]].
  cbv zeta. fold (amount_read s).
  assert (H0 : forall p, calls_within (maxRetries * iterations (amount_read s))
                           (saveProgress env id p)).
  { intros p. apply (calls_within_weaken 0); [lia|].
    apply calls_within_saveProgress. }
  destruct (negb _); [apply H0|].
  destruct (match cookie s with Some c => _ | None => _ end); [|apply H0].
  destruct (env_getPostId env _); [|apply H0].
  apply (calls_within_bind 0); [apply calls_within_saveProgress|intros ?].
  apply (calls_within_bind 0); [apply calls_within_Date_now|intros ?].
  apply (calls_within_weaken (maxRetries * iterations (amount_read s) + 0));
    [rewrite Nat.add_0_r; apply Nat.le_refl|].
  apply calls_within_bind.
  - replace (iterations (amount_read s))
      with (List.length (loop_indices (amount_read s)))
      by (unfold loop_indices; apply length_seq).
    apply calls_within_action_loop.
  - intros [sc fc|]; [apply calls_within_saveProgress|apply calls_within_ret].
Qed.

(** X5: a run of [processSession] makes at most [maxRetries] calls of
    [performShare] for each value that the loop index takes below
    [amount], and none when the session is not stored. *)
Theorem processSession_share_calls_bounded
        (env : Env) (WORKER_COUNT : nat) (id : sessionId) (w : World) :
  shareCalls w <= shareCalls (run (processSession env WORKER_COUNT id) w) /\
  shareCalls (run (processSession env WORKER_COUNT id) w) <=
    maxRetries *
      match JsObject.get id (sessions w) with
      | Some s => iterations (amount_read s)
      | None => 0
      end
    + shareCalls w.
Proof.
  rewrite processSession_world.
  exact (calls_within_processSession_body env id (sessions w) w).
Qed.

(** ** Further properties: how a run ends *)

Lemma in_progress_at_frame (id : sessionId) (w w' : World) :
  sessions w' = sessions w -> in_progress_at id w -> in_progress_at id w'.
Proof. unfold in_progress_at. intros ->. auto. Qed.

Lemma flush_in_progress (env : Env) (id : sessionId) (amount : jsnum)
      (i sc fc : nat) (w : World) :
  in_progress_at id w ->
  exists w',
    flush env id amount i sc fc w = (Ok tt, w') /\
    in_progress_at id w' /\
    shareCalls w' = shareCalls w.
Proof.
  intros (Hc & s & Hg & Hst). unfold flush. destruct (flush_due i amount).
  - destruct (saveProgress_effect env id (counts sc fc) w s Hc Hg)
      as (w' & t & E & Hg' & _ & Hc' & Hs); [discriminate|].
    exists w'. split; [exact E|]. split; [|exact Hs].
    split; [exact Hc'|]. eexists. split; [exact Hg'|exact Hst].
  - exists w. repeat split; try assumption. eauto.
Qed.

Lemma trailing_none (env : Env) (w : World) : trailing env 0 w.
Proof.
  unfold trailing, maxRetries. split; [lia|]. intros k H1 H2. lia.
Qed.

Lemma trailing_calls (env : Env) (n : nat) (w w' : World) :
  shareCalls w' = shareCalls w -> trailing env n w -> trailing env n w'.
Proof. unfold trailing. intros ->. auto. Qed.

Lemma trailing_fewer (env : Env) (m n : nat) (w : World) :
  m <= n -> trailing env n w -> trailing env m w.
Proof.
  unfold trailing, maxRetries. intros Hle [H1 H2]. split; [lia|].
  intros k Hk1 Hk2. apply H2; lia.
Qed.

Lemma trailing_failed_action (env : Env) (n : nat) (w w' : World) :
  trailing env n w ->
  shareCalls w' = maxRetries + shareCalls w ->
  (forall j, j < maxRetries ->
     env_performShare env (j + shareCalls w) = NotShared) ->
  trailing env (S n) w'.
Proof.
  unfold trailing, maxRetries. intros [H1 H2] Hc Hf. split; [lia|].
  intros k Hk1 Hk2.
  destruct (Nat.lt_ge_cases k (shareCalls w)) as [Hlt|Hge].
  - apply H2; lia.
  - replace k with ((k - shareCalls w) + shareCalls w) by lia.
    apply Hf. lia.
Qed.

Lemma iteration_outcome (env : Env) (id : sessionId) (amount : jsnum)
      (i sc fc cf : nat) (w : World) :
  in_progress_at id w ->
  trailing env cf w ->
  exists r w',
    iteration env id amount i sc fc cf w = (r, w') /\
    shareCalls w <= shareCalls w' /\
    match r with
    | Ok (Next sc' fc' cf') =>
        in_progress_at id w' /\
        trailing env cf' w' /\
        ((sc' = S sc /\ fc' = fc /\ cf' = 0) \/
         (sc' = sc /\ fc' = S fc /\ cf' = S cf /\
          S cf < MAX_CONSECUTIVE_FAILURES /\
          shareCalls w' = maxRetries + shareCalls w))
    | Ok Stop =>
        MAX_CONSECUTIVE_FAILURES <= S cf /\
        trailing env (S cf) w' /\
        shareCalls w' = maxRetries + shareCalls w /\
        exists s',
          JsObject.get id (sessions w') = Some s' /\
          status s' = terminated /\
          completedShares s' = sc /\
          failedShares s' = Some (num (Qnat (S fc)))
    | Throw _ => in_progress_at id w'
    end.
Proof.
  intros Hin Htr. unfold iteration.
  unfold bind at 1. rewrite pace_bump.
  unfold bind at 1.
  destruct (attempt_frame env maxRetries (bump 2 0 w)) as [Hs _].
  unfold run in Hs.
  destruct (attempt env maxRetries (bump 2 0 w)) as [res w1] eqn:E.
  pose proof (attempt_outcome env maxRetries _ _ _ E) as Ho.
  simpl in Hs. simpl shareCalls in Ho.
  assert (Hin1 : in_progress_at id w1)
    by (apply (in_progress_at_frame id w w1 Hs Hin)).
  destruct res as [[|]|e].
  - destruct Ho as (k & Hk & Hc & _).
    destruct (flush_in_progress env id amount i (S sc) fc w1 Hin1)
      as (w' & Ef & Hin' & Hsc).
    unfold bind. rewrite Ef. do 2 eexists. split; [reflexivity|].
    split; [lia|]. split; [exact Hin'|].
    split; [apply trailing_none|]. left. auto.
  - destruct Ho as (Hc & Hall).
    replace (Nat.add 0 (shareCalls w)) with (shareCalls w) in Hc by reflexivity.
    assert (Htr1 : trailing env (S cf) w1).
    { apply (trailing_failed_action env cf w w1 Htr).
      - rewrite Hc. unfold bump. simpl. lia.
      - intros j Hj. specialize (Hall j Hj).
        unfold bump in Hall. simpl in Hall.
        replace (j + shareCalls w) with (j + (0 + shareCalls w)) by lia.
        exact Hall. }
    destruct (Nat.leb MAX_CONSECUTIVE_FAILURES (S cf)) eqn:Etrip.
    + destruct Hin1 as (Hc1 & s & Hg & Hst).
      destruct (saveProgress_effect env id (terminated_progress sc (S fc))
                  w1 s Hc1 Hg) as (w' & t & Es & Hg' & _ & _ & Hsc);
        [discriminate|].
      unfold bind. rewrite Es. do 2 eexists. split; [reflexivity|].
      split; [lia|]. split; [now apply Nat.leb_le|].
      split; [exact (trailing_calls env (S cf) w1 w' Hsc Htr1)|].
      split; [lia|].
      eexists. split; [exact Hg'|]. simpl. auto.
    + destruct (flush_in_progress env id amount i sc (S fc) w1 Hin1)
        as (w' & Ef & Hin' & Hsc).
      unfold bind. rewrite Ef. do 2 eexists. split; [reflexivity|].
      split; [lia|]. split; [exact Hin'|].
      split; [exact (trailing_calls env (S cf) w1 w' Hsc Htr1)|].
      right.
      apply Nat.leb_gt in Etrip. repeat split; try lia.
  - destruct Ho as (k & Hk & Hc & _).
    do 2 eexists. split; [reflexivity|]. split; [lia|exact Hin1].
Qed.

Lemma action_loop_outcome (env : Env) (id : sessionId) (amount : jsnum) :
  forall indices sc fc cf w,
    in_progress_at id w ->
    trailing env cf w ->
    exists r w',
      action_loop env id amount indices sc fc cf w = (r, w') /\
      match r with
      | Ok (LoopDone sc' fc') =>
          in_progress_at id w' /\
          sc' + fc' = sc + fc + List.length indices
      | Ok LoopReturned =>
          maxRetries * (MAX_CONSECUTIVE_FAILURES - cf) + shareCalls w
            <= shareCalls w' /\
          trailing env MAX_CONSECUTIVE_FAILURES w' /\
          exists s' f,
            JsObject.get id (sessions w') = Some s' /\
            status s' = terminated /\
            failedShares s' = Some (num (Qnat f)) /\
            fc + (MAX_CONSECUTIVE_FAILURES - cf) <= f /\
            completedShares s' + f <= sc + fc + List.length indices
      | Throw _ => in_progress_at id w'
      end.
Proof.
  induction indices as [|i rest IH]; intros sc fc cf w Hin Htr.
  - simpl. do 2 eexists. split; [reflexivity|]. split; [exact Hin|lia].
  - simpl action_loop.
    destruct (iteration_outcome env id amount i sc fc cf w Hin Htr)
      as (r & w1 & E & Hmono & Hr).
    unfold bind. rewrite E.
    destruct r as [[sc1 fc1 cf1|]|e].
    + destruct Hr as (Hin1 & Htr1 & Hcase).
      destruct (IH sc1 fc1 cf1 w1 Hin1 Htr1) as (r2 & w2 & E2 & Hr2).
      exists r2, w2. split; [exact E2|].
      destruct r2 as [[sc2 fc2|]|e2].
      * destruct Hr2 as (Hin2 & Hsum). split; [exact Hin2|].
        simpl List.length.
        destruct Hcase as [(-> & -> & ->)|(-> & -> & -> & _)]; lia.
      * destruct Hr2 as (Hcalls & Htr2 & s' & f & Hg & Hst & Hf & Hfc & Hsum).
        unfold MAX_CONSECUTIVE_FAILURES, maxRetries in Hcalls, Hfc, Hsum |- *.
        simpl List.length.
        destruct Hcase as [(-> & -> & ->)|(-> & -> & -> & Hlt & Hc1)].
        -- split; [lia|]. split; [exact Htr2|].
           exists s', f. repeat split; try assumption; lia.
        -- unfold MAX_CONSECUTIVE_FAILURES, maxRetries in Hlt, Hc1.
           split; [lia|]. split; [exact Htr2|].
           exists s', f. repeat split; try assumption; lia.
      * exact Hr2.
    + destruct Hr as (Htrip & Htr1 & Hc & s' & Hg & Hst & Hcs & Hf).
      do 2 eexists. split; [reflexivity|].
      split; [unfold MAX_CONSECUTIVE_FAILURES, maxRetries in *; lia|].
      split; [exact (trailing_fewer env _ _ w1 Htrip Htr1)|].
      exists s', (S fc).
      unfold MAX_CONSECUTIVE_FAILURES in *.
      repeat split; try assumption; simpl List.length; lia.
    + do 2 eexists. split; [reflexivity|]. exact Hr.
Qed.

Lemma setup_fails_cases (env : Env) (s : Session) :
  setup_fails env s \/
  exists c tok pid,
    cookie s = Some c /\ env_validateCookie env c = true /\
    env_getFacebookToken env c = Some tok /\
    env_getPostId env (or_else (url s) "undefined") = Some pid.
Proof.
  unfold setup_fails. destruct (cookie s) as [c|]; [|now left].
  destruct (env_validateCookie env c) eqn:Hv; [|now left; left].
  destruct (env_getFacebookToken env c) as [tok|] eqn:Ht; [|now left; right; left].
  destruct (env_getPostId env (or_else (url s) "undefined")) as [pid|] eqn:Hp;
    [|now left; right; right].
  right. exists c, tok, pid. auto.
Qed.

(** The ways in which a run can end, for a stored session in a store that
    takes writes. *)
Lemma processSession_outcome (env : Env) (WORKER_COUNT : nat) (id : sessionId)
      (w : World) (s : Session) :
  clean (sessions w) ->
  JsObject.get id (sessions w) = Some s ->
  exists r w' s',
    processSession env WORKER_COUNT id w = (r, w') /\
    JsObject.get id (sessions w') = Some s' /\
    RunEnd env s r (shareCalls w' - shareCalls w) s' /\
    (status s <> terminated -> status s' = terminated ->
     trailing env MAX_CONSECUTIVE_FAILURES w').
Proof.
  intros Hc Hg.
  destruct (setup_fails_cases env s) as [Hf|(c & tok & pid & Hck & Hv & Ht & Hp)].
  - destruct (amount s) as [q|] eqn:Ha.
    + destruct (processSession_setup_failure_with_amount env WORKER_COUNT id w
                  s q Hc Hg Ha Hf)
        as (w' & s' & m & E & Hs & Hg' & Hst & _).
      exists (Ok tt), w', s'. split; [exact E|]. split; [exact Hg'|].
      split; [apply EndSetupFailed; auto; lia|].
      intros _ Hterm. rewrite Hterm in Hst. discriminate.
    + assert (E : exists w', processSession env WORKER_COUNT id w = (Ok tt, w')
                    /\ sessions w' = sessions w
                    /\ shareCalls w' = shareCalls w).
      { unfold processSession, try_catch, processSession_try.
        unfold bind at 1. unfold readSessions at 1. simpl.
        rewrite Hg, Ha. unfold setup_fails in Hf.
        destruct (cookie s) as [c|]; simpl.
        - destruct (env_validateCookie env c) eqn:Hv; simpl.
          + destruct (env_getFacebookToken env c) as [tok|] eqn:Ht.
            * destruct (env_getPostId env (or_else (url s) "undefined"))
                as [pid|] eqn:Hp.
              { destruct Hf as [Hf|[Hf|Hf]]; discriminate. }
              rewrite (saveProgress_undefined env id _ w s Hg) by reflexivity.
              eexists; repeat split.
            * rewrite (saveProgress_undefined env id _ w s Hg) by reflexivity.
              eexists; repeat split.
          + rewrite (saveProgress_undefined env id _ w s Hg) by reflexivity.
            eexists; repeat split.
        - rewrite (saveProgress_undefined env id _ w s Hg) by reflexivity.
          eexists; repeat split. }
      destruct E as (w' & E & Hs & Hcalls).
      exists (Ok tt), w', s. split; [exact E|]. split; [now rewrite Hs|].
      split; [apply EndRefused; auto; lia|].
      intros Hn Hterm. contradiction.
  - destruct (saveProgress_effect env id
                (mkProgress (Some in_progress) None None None) w s Hc Hg)
      as (w1 & t & E1 & Hg1 & _ & Hc1 & Hs1); [discriminate|].
    assert (Hin : in_progress_at id (bump 1 0 w1)).
    { split; [exact Hc1|]. eexists. split; [exact Hg1|reflexivity]. }
    destruct (action_loop_outcome env id (amount_read s)
                (loop_indices (amount_read s)) 0 0 0 (bump 1 0 w1) Hin
                (trailing_none env (bump 1 0 w1)))
      as (r & w2 & E2 & Hr).
    assert (Etry : processSession_try env id w =
                   (x <- ret r ;;
                    match x with
                    | Ok (LoopDone sc fc) =>
                        saveProgress env id
                          (mkProgress (Some completed) None (Some sc)
                                      (Some (num (Qnat fc))))
                    | Ok LoopReturned => ret tt
                    | Throw e => throw e
                    end) w2).
    { unfold processSession_try.
      unfold bind at 1. unfold readSessions at 1. simpl.
      rewrite Hg, Hck, Hv. simpl. rewrite Ht, Hp.
      unfold bind at 1. rewrite E1.
      unfold bind at 1. unfold Date_now at 1.
      change (mkWorld (sessions w1) (sessionCounter w1) (queue w1)
                (S (clockReads w1)) (shareCalls w1) (randomReads w1)
                (history w1)) with (bump 1 0 w1).
      fold (amount_read s). unfold bind at 1. rewrite E2.
      unfold bind, ret, throw. destruct r as [[sc fc|]|e]; reflexivity. }
    unfold processSession, try_catch. rewrite Etry. unfold bind, ret.
    destruct r as [[sc fc|]|e].
    + destruct Hr as ((Hc2 & s2 & Hg2 & Hst2) & Hsum).
      destruct (saveProgress_effect env id
                  (mkProgress (Some completed) None (Some sc)
                              (Some (num (Qnat fc)))) w2 s2 Hc2 Hg2)
        as (w3 & t3 & E3 & Hg3 & _ & _ & Hs3); [discriminate|].
      rewrite E3. do 3 eexists. split; [reflexivity|]. split; [exact Hg3|].
      split; [|intros _ Hterm; simpl in Hterm; discriminate].
      apply (EndCompleted env s (Ok tt) _ _ fc); try reflexivity.
      simpl. rewrite Hsum. unfold loop_indices. rewrite length_seq. reflexivity.
    + destruct Hr as (Hcalls & Htr & s' & f & Hg' & Hst & Hf & Hfc & Hsum).
      do 3 eexists. split; [reflexivity|]. split; [exact Hg'|].
      split; [|intros _ _; exact Htr].
      unfold loop_indices in Hsum. rewrite length_seq in Hsum.
      simpl shareCalls in Hcalls. rewrite Hs1 in Hcalls.
      apply (EndTerminated env s (Ok tt) _ _ f);
        first [assumption | reflexivity
              | unfold MAX_CONSECUTIVE_FAILURES, maxRetries in *; lia].
    + destruct Hr as (Hc2 & s2 & Hg2 & Hst2).
      unfold throw. simpl.
      do 3 eexists. split; [reflexivity|]. split; [exact Hg2|].
      split; [apply EndThrown; [reflexivity|exact Hst2]|].
      intros _ Hterm. rewrite Hterm in Hst2. discriminate.
Qed.

(** X6: a run of [processSession] that turns its session to terminated has
    recorded at least 10 failed shares, and the latest 30 calls of
    [performShare], all of them made by this run, have failed: the breaker
    trips on ten failed actions in a row, three attempts each, and never
    earlier. *)
Theorem processSession_terminates_only_after_ten_failures
        (env : Env) (WORKER_COUNT : nat) (id : sessionId) (w : World)
        (s s' : Session) :
  clean (sessions w) ->
  JsObject.get id (sessions w) = Some s ->
  status s <> terminated ->
  JsObject.get id (sessions (run (processSession env WORKER_COUNT id) w))
    = Some s' ->
  status s' = terminated ->
  result (processSession env WORKER_COUNT id) w = Ok tt /\
  MAX_CONSECUTIVE_FAILURES * maxRetries + shareCalls w
    <= shareCalls (run (processSession env WORKER_COUNT id) w) /\
  (forall k,
      shareCalls (run (processSession env WORKER_COUNT id) w)
        - MAX_CONSECUTIVE_FAILURES * maxRetries <= k ->
      k < shareCalls (run (processSession env WORKER_COUNT id) w) ->
      env_performShare env k = NotShared) /\
  exists f,
    failedShares s' = Some (num (Qnat f)) /\
    MAX_CONSECUTIVE_FAILURES <= f.
Proof.
  intros Hc Hg Hnt Hg' Hst.
  destruct (processSession_outcome env WORKER_COUNT id w s Hc Hg)
    as (r & w' & s0 & E & Hg0 & Hend & Htr).
  unfold run, result in *. rewrite E in *. simpl in *.
  rewrite Hg0 in Hg'. inversion Hg'; subst s0.
  destruct Hend as [_ _ Heq _ _|_ _ Hf _|f _ Hf _ _|f Hr _ Hf Hten _ Hcalls|_ Hf].
  - subst s'. contradiction.
  - rewrite Hst in Hf. discriminate.
  - rewrite Hst in Hf. discriminate.
  - split; [exact Hr|].
    split; [unfold MAX_CONSECUTIVE_FAILURES, maxRetries in *; lia|].
    split; [|exists f; auto].
    destruct (Htr Hnt Hst) as [_ Hlast]. intros k Hk1 Hk2.
    apply Hlast; [|exact Hk2].
    unfold MAX_CONSECUTIVE_FAILURES, maxRetries in *. lia.
  - rewrite Hst in Hf. discriminate.
Qed.

Lemma processSession_terminates_only_after_ten_failures_witness :
  result (processSession (example_env never_shares) 4 550000%N)
         (world_with_amount 20) = Ok tt /\
  MAX_CONSECUTIVE_FAILURES * maxRetries + 0
    <= shareCalls (run (processSession (example_env never_shares) 4 550000%N)
                       (world_with_amount 20)) /\
  (forall k,
      shareCalls (run (processSession (example_env never_shares) 4 550000%N)
                      (world_with_amount 20))
        - MAX_CONSECUTIVE_FAILURES * maxRetries <= k ->
      k < shareCalls (run (processSession (example_env never_shares) 4
                                          550000%N)
                          (world_with_amount 20)) ->
      env_performShare (example_env never_shares) k = NotShared) /\
  exists f,
    failedShares
      (mkSession terminated 20 0 (Some (num (Qnat 10)))
         (Some terminated_message) (Some "https://www.facebook.com/post/1")
         (Some 1%Q) 0%N (Some 27%N) (Some 1%Z) (Some "c_user=1; xs=2")
         (Some "0.00") (Some (inject_Z 20)))
      = Some (num (Qnat f)) /\
    MAX_CONSECUTIVE_FAILURES <= f.
Proof.
  apply (processSession_terminates_only_after_ten_failures
           (example_env never_shares) 4 550000%N (world_with_amount 20)
           (record_with_amount 20)).
  - reflexivity.
  - reflexivity.
  - discriminate.
  - vm_compute. reflexivity.
  - reflexivity.
Defined.

(** X7: a run of [processSession] that turns its session to completed has
    recorded completed and failed counts whose sum is the number of values
    that the loop index takes below [amount]: every action is counted
    once, as a success or as a failure. *)
Theorem processSession_completed_counts_every_action
        (env : Env) (WORKER_COUNT : nat) (id : sessionId) (w : World)
        (s s' : Session) :
  clean (sessions w) ->
  JsObject.get id (sessions w) = Some s ->
  status s <> completed ->
  JsObject.get id (sessions (run (processSession env WORKER_COUNT id) w))
    = Some s' ->
  status s' = completed ->
  exists f,
    failedShares s' = Some (num (Qnat f)) /\
    completedShares s' + f = iterations (amount_read s).
Proof.
  intros Hc Hg Hnt Hg' Hst.
  destruct (processSession_outcome env WORKER_COUNT id w s Hc Hg)
    as (r & w' & s0 & E & Hg0 & Hend & _).
  unfold run in *. rewrite E in *. simpl in *.
  rewrite Hg0 in Hg'. inversion Hg'; subst s0.
  destruct Hend as [_ _ Heq _ _|_ _ Hf _|f _ _ Hf Hsum|f _ Hf _ _ _ _|_ Hf].
  - subst s'. contradiction.
  - rewrite Hst in Hf. discriminate.
  - exists f. auto.
  - rewrite Hst in Hf. discriminate.
  - rewrite Hst in Hf. discriminate.
Qed.

Lemma processSession_completed_counts_every_action_witness :
  exists f,
    failedShares
      (mkSession completed 3 3 (Some (num (Qnat 0))) None
         (Some "https://www.facebook.com/post/1") (Some 1%Q) 0%N (Some 13%N)
         (Some 1%Z) (Some "c_user=1; xs=2") (Some "100.00")
         (Some (inject_Z 3)))
      = Some (num (Qnat f)) /\
    completedShares
      (mkSession completed 3 3 (Some (num (Qnat 0))) None
         (Some "https://www.facebook.com/post/1") (Some 1%Q) 0%N (Some 13%N)
         (Some 1%Z) (Some "c_user=1; xs=2") (Some "100.00")
         (Some (inject_Z 3))) + f
      = iterations (amount_read (record_with_amount 3)).
Proof.
  apply (processSession_completed_counts_every_action
           (example_env always_shares) 4 550000%N (world_with_amount 3)
           (record_with_amount 3)).
  - reflexivity.
  - reflexivity.
  - discriminate.
  - vm_compute. reflexivity.
  - reflexivity.
Defined.

(** ** Further properties: flushes for an unknown session *)

Lemma set_absent (V : Type) (k : sessionId) (v : V) (o : JsObject.t V) :
  JsObject.get k o = None -> JsObject.set k v o = o ++ [(k, v)].
Proof.
  induction o as [|[k' v'] rest IH]; simpl; [reflexivity|].
  destruct (N.eqb k k'); [discriminate|].
  intros H. now rewrite (IH H).
Qed.

Lemma activeSessions_app (o1 o2 : JsObject.t Session) :
  activeSessions (o1 ++ o2) = activeSessions o1 ++ activeSessions o2.
Proof.
  unfold activeSessions, JsObject.values. now rewrite map_app, filter_app.
Qed.

(** X8: a flush for an identifier that is not stored creates a record with
    status started (unless the flush names a status) and [totalShares] 0,
    so the store then counts one more active session. *)
Theorem saveProgress_unknown_id_adds_started_session
        (env : Env) (id : sessionId) (p : Progress) (w : World) :
  clean (sessions w) ->
  JsObject.get id (sessions w) = None ->
  p_status p = None ->
  defined (p_failedShares p) ->
  exists w' s',
    saveProgress env id p w = (Ok tt, w') /\
    JsObject.get id (sessions w') = Some s' /\
    status s' = started /\
    totalShares s' = 0%Z /\
    completedShares s' = or_else (p_completedShares p) 0 /\
    url s' = None /\
    List.length (activeSessions (sessions w'))
      = S (List.length (activeSessions (sessions w))).
Proof.
  intros Hc Hg Hst Hp.
  unfold saveProgress, saveProgress_write, bind, readSessions, writeSessions,
    broadcastActiveSessions, bind, readSessions, Date_now, ret; simpl.
  rewrite Hg; simpl.
  match goal with |- context [JsObject.set id ?m (sessions w)] =>
    assert (Hm : clean (JsObject.set id m (sessions w)));
    [|remember m as rec eqn:Erec] end.
  { apply clean_set; [exact Hc|].
    apply holds_undefined_merge; [reflexivity|exact Hp]. }
  unfold clean in Hm. rewrite Hm.
  do 2 eexists. split; [reflexivity|]. simpl.
  split; [apply get_set_eq|].
  assert (Hs : status rec = started) by (subst rec; simpl; now rewrite Hst).
  subst rec. simpl. rewrite Hst. simpl.
  repeat split.
  rewrite (set_absent _ id _ (sessions w) Hg), activeSessions_app, length_app.
  unfold activeSessions at 2. simpl. rewrite Hst. simpl. lia.
Qed.

Lemma saveProgress_unknown_id_adds_started_session_witness :
  exists w' s',
    saveProgress (example_env never_shares) 999999%N (counts 1 0) idle_world
      = (Ok tt, w') /\
    JsObject.get 999999%N (sessions w') = Some s' /\
    status s' = started /\
    totalShares s' = 0%Z /\
    completedShares s' = or_else (p_completedShares (counts 1 0)) 0 /\
    url s' = None /\
    List.length (activeSessions (sessions w'))
      = S (List.length (activeSessions (sessions idle_world))).
Proof.
  apply (saveProgress_unknown_id_adds_started_session
           (example_env never_shares) 999999%N (counts 1 0) idle_world).
  - reflexivity.
  - reflexivity.
  - reflexivity.
  - discriminate.
Defined.

(** ** Further properties: sequence numbers *)

(** X9: while some session is active, two calls of [getNextSessionNumber]
    in a row hand out consecutive numbers, the first being the stored
    counter plus one, and leave the second number in the counter; the
    sessions are not touched. *)
Theorem getNextSessionNumber_counts_up_while_active (w : World) :
  activeSessions (sessions w) <> [] ->
  exists n w1 w2,
    getNextSessionNumber w = (Ok n, w1) /\
    getNextSessionNumber w1 = (Ok (n + 1)%Z, w2) /\
    n = (or_else (sessionCounter w) 0 + 1)%Z /\
    sessionCounter w2 = Some (n + 1)%Z /\
    sessions w2 = sessions w.
Proof.
  intros Ha.
  unfold getNextSessionNumber, bind, counterRef_once, readSessions,
    counterRef_set, ret. simpl.
  destruct (activeSessions (sessions w)) as [|a l] eqn:E; [now elim Ha|].
  simpl. do 3 eexists. split; [reflexivity|]. simpl. rewrite E. simpl.
  repeat split.
Qed.

Lemma getNextSessionNumber_counts_up_while_active_witness :
  exists n w1 w2,
    getNextSessionNumber interrupted_world = (Ok n, w1) /\
    getNextSessionNumber w1 = (Ok (n + 1)%Z, w2) /\
    n = (or_else (sessionCounter interrupted_world) 0 + 1)%Z /\
    sessionCounter w2 = Some (n + 1)%Z /\
    sessions w2 = sessions interrupted_world.
Proof.
  apply (getNextSessionNumber_counts_up_while_active interrupted_world).
  vm_compute. discriminate.
Defined.

(** X10: when the stored counter is null or not negative,
    [getNextSessionNumber] hands out a number that is at least 1 and
    leaves a counter that is not negative and not above that number. *)
Theorem getNextSessionNumber_is_positive (w : World) :
  (forall c, sessionCounter w = Some c -> (0 <= c)%Z) ->
  exists n c' w',
    getNextSessionNumber w = (Ok n, w') /\
    (1 <= n)%Z /\
    sessionCounter w' = Some c' /\
    (0 <= c' <= n)%Z.
Proof.
  intros Hc.
  unfold getNextSessionNumber, bind, counterRef_once, readSessions,
    counterRef_set, ret. simpl.
  destruct (sessionCounter w) as [c|] eqn:Ec;
    [specialize (Hc c eq_refl)|clear Hc];
    destruct (Nat.eqb (List.length (activeSessions (sessions w))) 0
              && negb (counter_is_zero _));
    do 3 eexists; (split; [reflexivity|]); simpl;
    (split; [lia|]); (split; [reflexivity|]); lia.
Qed.

Lemma getNextSessionNumber_is_positive_witness :
  exists n c' w',
    getNextSessionNumber idle_world = (Ok n, w') /\
    (1 <= n)%Z /\
    sessionCounter w' = Some c' /\
    (0 <= c' <= n)%Z.
Proof.
  apply (getNextSessionNumber_is_positive idle_world).
  intros c H. simpl in H. inversion H; subst c. lia.
Defined.

(** ** Further properties: the queue *)

Lemma no_active_activeSessions (o : JsObject.t Session) :
  no_active o <-> activeSessions o = [].
Proof.
  unfold no_active, activeSessions, JsObject.values.
  induction o as [|[k s] rest IH]; simpl.
  - split; [reflexivity|intros _ k s []].
  - split.
    + intros H. rewrite (H k s (or_introl eq_refl)).
      apply IH. intros k' s' Hin. apply (H k' s'). now right.
    + intros H. destruct (is_active_status (status s)) eqn:E; [discriminate|].
      intros k' s' [Heq|Hin]; [inversion Heq; subst; exact E|].
      revert k' s' Hin. now apply IH.
Qed.

Lemma no_active_set (k : sessionId) (v : Session) (o : JsObject.t Session) :
  no_active o -> is_active_status (status v) = false ->
  no_active (JsObject.set k v o).
Proof.
  intros Ho Hv. induction o as [|[k' v'] rest IH]; simpl.
  - intros k0 s0 [Heq|[]]. now inversion Heq; subst.
  - assert (Hrest : no_active rest)
      by (intros k0 s0 Hin; apply (Ho k0 s0); now right).
    destruct (N.eqb k k').
    + intros k0 s0 [Heq|Hin]; [now inversion Heq; subst|].
      now apply (Hrest k0 s0).
    + intros k0 s0 [Heq|Hin].
      * apply (Ho k0 s0). now left.
      * now apply (IH Hrest k0 s0).
Qed.

Lemma In_remove (V : Type) (k : sessionId) (e : sessionId * V)
      (o : JsObject.t V) :
  In e (JsObject.remove k o) -> In e o.
Proof. unfold JsObject.remove. intros H. now apply filter_In in H. Qed.

Lemma no_active_remove (k : sessionId) (o : JsObject.t Session) :
  no_active o -> no_active (JsObject.remove k o).
Proof.
  intros Ho k0 s0 Hin. apply (Ho k0 s0). eapply In_remove; eauto.
Qed.

Lemma clean_remove (k : sessionId) (o : JsObject.t Session) :
  clean o -> clean (JsObject.remove k o).
Proof.
  unfold clean. induction o as [|[k' v'] rest IH]; simpl; [auto|].
  intros H. apply orb_false_iff in H. destruct H as [H1 H2].
  destruct (negb (N.eqb k k')); simpl; [rewrite H1|]; now apply IH.
Qed.

Lemma remove_shrinks (V : Type) (k : sessionId) (o : JsObject.t V) :
  In k (map fst o) ->
  List.length (JsObject.remove k o) < List.length o.
Proof.
  unfold JsObject.remove.
  induction o as [|[k' v'] rest IH]; simpl; [tauto|].
  intros [Heq|Hin].
  - subst k'. rewrite N.eqb_refl. simpl.
    apply Nat.lt_succ_r. apply filter_length_le.
  - specialize (IH Hin). destruct (negb (N.eqb k k')); simpl.
    + now apply -> Nat.succ_lt_mono.
    + now apply Nat.lt_lt_succ_r.
Qed.

Lemma no_active_get (k : sessionId) (s : Session) (o : JsObject.t Session) :
  no_active o -> JsObject.get k o = Some s ->
  is_active_status (status s) = false.
Proof.
  intros Ho. induction o as [|[k' v'] rest IH]; simpl; [discriminate|].
  destruct (N.eqb k k') eqn:E.
  - intros H. inversion H; subst. apply (Ho k' s). now left.
  - apply IH. intros k0 s0 Hin. apply (Ho k0 s0). now right.
Qed.

(** X11: [processQueue] stores the promoted entry with the status it had in
    the queue: promoting an entry whose status is not active, under an
    identifier that is not yet stored, leaves the list of active sessions
    as it was. *)
Theorem processQueue_promotion_is_not_counted_active
        (WORKER_COUNT : nat) (w : World) (id : sessionId) (data : Session) :
  clean (queue w) ->
  result (processQueue WORKER_COUNT) w = Ok (Some id) ->
  JsObject.get id (queue w) = Some data ->
  is_active_status (status data) = false ->
  JsObject.get id (sessions w) = None ->
  JsObject.get id (sessions (run (processQueue WORKER_COUNT) w)) = Some data /\
  activeSessions (sessions (run (processQueue WORKER_COUNT) w))
    = activeSessions (sessions w).
Proof.
  intros Hc Hr Hg Hst Hnew.
  destruct (processQueue_spec WORKER_COUNT w Hc) as [Hfull Hfree].
  destruct (Nat.le_gt_cases (MAX_PARALLEL_SESSIONS * WORKER_COUNT)
              (List.length (activeSessions (sessions w)))) as [H|H].
  - unfold result in Hr. rewrite (Hfull H) in Hr. discriminate.
  - specialize (Hfree H).
    destruct (JsObject.keys (queue w)) as [|id' t].
    + unfold result in Hr. rewrite Hfree in Hr. discriminate.
    + destruct Hfree as (data' & Hg' & _ & E).
      unfold result in Hr. unfold run. rewrite E in *. simpl in *.
      inversion Hr; subst id'. rewrite Hg in Hg'. inversion Hg'; subst data'.
      split; [apply get_set_eq|].
      rewrite (set_absent _ id data (sessions w) Hnew), activeSessions_app.
      unfold activeSessions at 2. simpl. rewrite Hst. apply app_nil_r.
Qed.

Lemma processQueue_promotion_is_not_counted_active_witness :
  JsObject.get 400000%N (sessions (run (processQueue 4) two_queued_world))
    = Some (mkSession queued 5 0 None None
              (Some "https://www.facebook.com/post/1")
              (Some (parseFloat_toFixed1 1)) 1%N None (Some 1%Z)
              (Some "c_user=1; xs=2") None None) /\
  activeSessions (sessions (run (processQueue 4) two_queued_world))
    = activeSessions (sessions two_queued_world).
Proof.
  apply (processQueue_promotion_is_not_counted_active 4 two_queued_world
           400000%N); reflexivity.
Defined.

Lemma processQueue_empty (WORKER_COUNT : nat) (w : World) :
  queue w = [] -> run (processQueue WORKER_COUNT) w = w.
Proof.
  intros Hq. unfold run, processQueue, try_catch, bind, readQueue,
    readSessions. simpl. rewrite Hq.
  destruct (Nat.leb _ _); reflexivity.
Qed.

Lemma ticks_drain (WORKER_COUNT : nat) :
  0 < WORKER_COUNT ->
  forall n w,
    List.length (queue w) <= n ->
    clean (queue w) -> no_active (queue w) -> no_active (sessions w) ->
    queue (ticks n WORKER_COUNT w) = [] /\
    no_active (sessions (ticks n WORKER_COUNT w)) /\
    (forall k data,
        JsObject.get k (queue w) = Some data ->
        JsObject.get k (sessions (ticks n WORKER_COUNT w)) = Some data) /\
    (forall k,
        JsObject.get k (queue w) = None ->
        JsObject.get k (sessions (ticks n WORKER_COUNT w))
          = JsObject.get k (sessions w)).
Proof.
  intros Hwc. induction n as [|n IH]; intros w Hlen Hc Hq Hs.
  - simpl. destruct (queue w) as [|e rest] eqn:E; [|simpl in Hlen; lia].
    repeat split; auto. intros k data H. discriminate.
  - simpl ticks.
    pose proof (keys_head_least _ (queue w)) as K.
    destruct (JsObject.keys (queue w)) as [|id t] eqn:Ek.
    + rewrite (processQueue_empty WORKER_COUNT w K).
      apply IH; auto. rewrite K. simpl. lia.
    + destruct K as [Hin _].
      destruct (processQueue_spec WORKER_COUNT w Hc) as [_ Hfree].
      assert (Hzero : activeSessions (sessions w) = [])
        by (now apply no_active_activeSessions).
      assert (Hlt : List.length (activeSessions (sessions w))
                    < MAX_PARALLEL_SESSIONS * WORKER_COUNT)
        by (rewrite Hzero; unfold MAX_PARALLEL_SESSIONS; simpl; lia).
      specialize (Hfree Hlt). rewrite Ek in Hfree.
      destruct Hfree as (data & Hg & _ & E).
      unfold run at 1 2 3 4. rewrite E. simpl snd.
      set (w1 := with_queue
                   (with_sessions w (JsObject.set id data (sessions w)))
                   (JsObject.remove id (queue w))).
      destruct (IH w1) as (H1 & H2 & H3 & H4).
      * unfold w1. simpl.
        pose proof (remove_shrinks _ id (queue w) Hin). lia.
      * unfold w1. simpl. now apply clean_remove.
      * unfold w1. simpl. now apply no_active_remove.
      * unfold w1. simpl. apply no_active_set; [exact Hs|].
        exact (no_active_get id data (queue w) Hq Hg).
      * split; [exact H1|]. split; [exact H2|]. split.
        -- intros k d Hk. destruct (N.eq_dec k id) as [->|Hne].
           ++ rewrite Hg in Hk. inversion Hk; subst d.
              rewrite (H4 id); unfold w1; simpl;
                [apply get_set_eq|apply get_remove_eq].
           ++ apply H3. unfold w1. simpl. now rewrite get_remove_neq.
        -- intros k Hk.
           assert (Hne : k <> id) by (intros ->; rewrite Hg in Hk; discriminate).
           rewrite (H4 k); unfold w1; simpl;
             [now apply get_set_neq|now rewrite get_remove_neq].
Qed.

(** X12: from a state in which no stored or queued record is active, and
    with no runner writing in between, as many ticks of [processQueue] as
    the queue has entries empty the queue and store every queued record
    unchanged under its identifier, however long the queue is; no session
    counts as active afterwards. *)
Theorem processQueue_drains_the_queue (WORKER_COUNT : nat) (w : World) :
  0 < WORKER_COUNT ->
  clean (queue w) -> no_active (queue w) -> no_active (sessions w) ->
  queue (ticks (List.length (queue w)) WORKER_COUNT w) = [] /\
  activeSessions (sessions (ticks (List.length (queue w)) WORKER_COUNT w))
    = [] /\
  forall k data,
    JsObject.get k (queue w) = Some data ->
    JsObject.get k (sessions (ticks (List.length (queue w)) WORKER_COUNT w))
      = Some data.
Proof.
  intros Hwc Hc Hq Hs.
  destruct (ticks_drain WORKER_COUNT Hwc (List.length (queue w)) w
              (Nat.le_refl _) Hc Hq Hs) as (H1 & H2 & H3 & _).
  split; [exact H1|]. split; [|exact H3].
  now apply no_active_activeSessions.
Qed.

Lemma processQueue_drains_the_queue_witness :
  queue (ticks (List.length (queue two_queued_world)) 4 two_queued_world) = [] /\
  activeSessions
    (sessions (ticks (List.length (queue two_queued_world)) 4 two_queued_world))
    = [] /\
  forall k data,
    JsObject.get k (queue two_queued_world) = Some data ->
    JsObject.get k
      (sessions (ticks (List.length (queue two_queued_world)) 4
                       two_queued_world))
      = Some data.
Proof.
  apply (processQueue_drains_the_queue 4 two_queued_world).
  - lia.
  - reflexivity.
  - intros k s Hin. vm_compute in Hin.
    destruct Hin as [H|[H|[]]]; inversion H; reflexivity.
  - intros k s [].
Defined.

(** ** Further properties: the submission route *)

Lemma admissible_tests (amt itv : Q) :
  Qle_bool amt 0 = false ->
  Qltb itv (1 # 10) || Qgtb itv 60 = false ->
  Qltb itv 1 && Qgtb amt 100 = false ->
  admissible amt itv.
Proof.
  intros E1 E2 E3. apply Qle_bool_gt in E1.
  apply orb_false_iff in E2. destruct E2 as [E2 E2'].
  apply Qltb_ge in E2. unfold Qgtb in E2'. apply Qltb_ge in E2'.
  apply andb_false_iff in E3. unfold Qgtb in E3. rewrite !Qltb_ge in E3.
  repeat split; assumption.
Qed.

Lemma not_admissible_tests (amt itv : Q) :
  Qle_bool amt 0 = true \/
  Qltb itv (1 # 10) || Qgtb itv 60 = true \/
  Qltb itv 1 && Qgtb amt 100 = true ->
  ~ admissible amt itv.
Proof.
  intros H (H0 & H1 & H2 & H3).
  destruct H as [H|[H|H]].
  - apply Qle_bool_iff in H. lra.
  - apply orb_true_iff in H. unfold Qgtb in H. rewrite !Qltb_lt in H.
    destruct H; lra.
  - apply andb_true_iff in H. unfold Qgtb in H. rewrite !Qltb_lt in H.
    destruct H. destruct H3; lra.
Qed.

(** Every request is either turned away with the world unchanged, or
    accepted and enqueued under the drawn identifier. *)
Lemma submit_outcome (HEADER_VALUE : option string)
      (JSON_parse_array : string -> option (list cookie_item)) (env : Env)
      (req : Request) (w : World) :
  (~ acceptable HEADER_VALUE JSON_parse_array req /\
   exists r,
     submit HEADER_VALUE JSON_parse_array env req w = (Ok r, w) /\
     (r = Forbidden \/ exists message, r = apiResponse 400 message NoData))
  \/
  (acceptable HEADER_VALUE JSON_parse_array req /\
   exists cs u amt itv n t w',
     cookieString_of JSON_parse_array (body_cookie req) = Some cs /\
     body_url req = Some u /\
     body_amount req = Some amt /\
     body_interval req = Some itv /\
     result getNextSessionNumber w = Ok n /\
     submit HEADER_VALUE JSON_parse_array env req w =
       (Ok (apiResponse 200 "Sharing process queued successfully"
                        (QueuedData (drawn_id env w) n)), w') /\
     sessions w' = sessions w /\
     queue w' =
       JsObject.set (drawn_id env w)
         (mkSession queued (Qfloor amt) 0 None None (Some (trim u))
                    (Some (parseFloat_toFixed1 itv)) t None (Some n)
                    (Some cs) None None)
         (queue w) /\
     shareCalls w' = shareCalls w).
Proof.
  unfold submit.
  destruct (checkHeader HEADER_VALUE req) eqn:Hh.
  2:{ left. split.
      - intros [[H _] _]. congruence.
      - eexists. split; [reflexivity|]. now left. }
  unfold submit_handler, try_catch, submit_handler_try.
  assert (Hrej : forall message,
             exists r,
               (Ok (apiResponse 400 message NoData), w) = (Ok r, w) /\
               (r = Forbidden \/
                exists message, r = apiResponse 400 message NoData)).
  { intros message. eexists. split; [reflexivity|]. right. eauto. }
  destruct (body_url req) as [u|] eqn:Hu.
  2:{ left. split.
      - intros [(_ & cs & u & _ & _ & H & _) _]. congruence.
      - destruct (body_cookie req); apply Hrej. }
  destruct (body_amount req) as [amt|] eqn:Ha.
  2:{ left. split.
      - intros (_ & a & i & H & _). congruence.
      - destruct (body_cookie req); apply Hrej. }
  destruct (body_interval req) as [itv|] eqn:Hi.
  2:{ left. split.
      - intros (_ & a & i & _ & H & _). congruence.
      - destruct (body_cookie req); apply Hrej. }
  destruct (cookieString_of JSON_parse_array (body_cookie req))
    as [cs|] eqn:Hcs.
  2:{ left. split.
      - intros [(_ & cs & u' & H & _) _]. congruence.
      - destruct (body_cookie req); try apply Hrej;
          cbv beta iota; rewrite Hcs; apply Hrej. }
  assert (Hco : body_cookie req <> CookieOther)
    by (intros H; rewrite H in Hcs; discriminate).
  destruct (existsb (includes cs) requiredCookieKeys) eqn:Hk.
  2:{ left. split.
      - intros [(_ & cs' & u' & H & H' & _) _].
        rewrite Hcs in H. inversion H; subst cs'. congruence.
      - destruct (body_cookie req); try (now elim Hco);
          cbv beta iota; rewrite Hcs; cbv beta iota; rewrite Hk; simpl negb; cbv beta iota; apply Hrej. }
  destruct (url_matches u) eqn:Hm.
  2:{ left. split.
      - intros [(_ & cs' & u' & _ & _ & H & H') _].
        rewrite Hu in H. inversion H; subst u'. congruence.
      - destruct (body_cookie req); try (now elim Hco);
          cbv beta iota; rewrite Hcs; cbv beta iota; rewrite Hk; simpl negb; cbv beta iota; apply Hrej. }
  destruct (Qle_bool amt 0) eqn:E1.
  { left. split.
    - intros (_ & a & i & H & H' & Hadm).
      rewrite Ha in H. rewrite Hi in H'. inversion H; inversion H'; subst.
      revert Hadm. apply not_admissible_tests. now left.
    - destruct (body_cookie req); try (now elim Hco);
        cbv beta iota; rewrite Hcs; cbv beta iota; rewrite Hk; simpl negb; cbv beta iota; apply Hrej. }
  destruct (Qltb itv (1 # 10) || Qgtb itv 60) eqn:E2.
  { left. split.
    - intros (_ & a & i & H & H' & Hadm).
      rewrite Ha in H. rewrite Hi in H'. inversion H; inversion H'; subst.
      revert Hadm. apply not_admissible_tests. right. now left.
    - destruct (body_cookie req); try (now elim Hco);
        cbv beta iota; rewrite Hcs; cbv beta iota; rewrite Hk; simpl negb; cbv beta iota; apply Hrej. }
  destruct (Qltb itv 1 && Qgtb amt 100) eqn:E3.
  { left. split.
    - intros (_ & a & i & H & H' & Hadm).
      rewrite Ha in H. rewrite Hi in H'. inversion H; inversion H'; subst.
      revert Hadm. apply not_admissible_tests. right. now right.
    - destruct (body_cookie req); try (now elim Hco);
        cbv beta iota; rewrite Hcs; cbv beta iota; rewrite Hk; simpl negb; cbv beta iota; apply Hrej. }
  right. split.
  { split.
    - split; [exact Hh|]. exists cs, u. auto.
    - exists amt, itv. split; [exact Ha|]. split; [exact Hi|].
      apply (admissible_tests amt itv E1 E2 E3). }
  exists cs, u, amt, itv.
  destruct (body_cookie req); try (now elim Hco);
    cbv beta iota; rewrite Hcs; cbv beta iota; rewrite Hk; simpl negb; cbv beta iota;
    unfold bind, generateSessionId, bind, Math_random, ret,
      getNextSessionNumber, bind, counterRef_once, readSessions,
      counterRef_set, ret, Date_now, queue_child_set, result, drawn_id;
    simpl;
    destruct (Nat.eqb (List.length (activeSessions (sessions w))) 0
              && negb (counter_is_zero (sessionCounter w)));
    simpl; do 3 eexists; repeat split.
Qed.

(** X13: for a request whose amount and interval are finite numbers,
    whose texts are made of characters with codes up to 255 and whose
    cookie array, if it has one, holds objects with a string key and a
    string value, or null (what [Request] holds), the submission route
    answers 200 exactly when the request passes the header test, the
    cookie and URL tests and the three numeric tests; every other such
    request is answered with 403 or 400 and leaves the world as it
    was. *)
Theorem submit_accepts_exactly_the_acceptable
        (HEADER_VALUE : option string)
        (JSON_parse_array : string -> option (list cookie_item)) (env : Env)
        (req : Request) (w : World) :
  (acceptable HEADER_VALUE JSON_parse_array req <->
   exists message id n w',
     submit HEADER_VALUE JSON_parse_array env req w =
       (Ok (apiResponse 200 message (QueuedData id n)), w'))
  /\
  (~ acceptable HEADER_VALUE JSON_parse_array req ->
   exists r,
     submit HEADER_VALUE JSON_parse_array env req w = (Ok r, w) /\
     (r = Forbidden \/ exists message, r = apiResponse 400 message NoData)).
Proof.
  destruct (submit_outcome HEADER_VALUE JSON_parse_array env req w)
    as [(Hno & r & E & Hr)|(Hyes & cs & u & amt & itv & n & t & w' & _ & _ & _
                            & _ & _ & E & _)].
  - split; [split|].
    + intros H. contradiction.
    + intros (message & id & n & w' & E'). rewrite E in E'.
      destruct Hr as [->|[m ->]]; discriminate.
    + intros _. exists r. auto.
  - split; [split|].
    + intros _. eauto.
    + intros _. exact Hyes.
    + intros H. contradiction.
Qed.

(** ** Further properties: the identifier of a submission *)

Lemma pow2_pos (u : Z) : (0 < Qpower 2 u)%Q.
Proof. apply Qpower_0_lt. reflexivity. Qed.

Lemma round_half_even_ge (m : Q) (B : Z) :
  (inject_Z B <= m)%Q -> (B <= round_half_even m)%Z.
Proof.
  intros H. apply Qfloor_resp_le in H. rewrite Qfloor_Z in H.
  unfold round_half_even.
  destruct (Qcompare (m - inject_Z (Qfloor m)) (1 # 2));
    [destruct (Z.even (Qfloor m))| |]; lia.
Qed.

Lemma round_half_even_floor (m : Q) (B : Z) :
  (inject_Z B <= m)%Q -> (m < inject_Z B + (1 # 2))%Q ->
  round_half_even m = B.
Proof.
  intros H1 H2.
  assert (Hf : Qfloor m = B).
  { pose proof (Qfloor_resp_le _ _ H1) as Ha. rewrite Qfloor_Z in Ha.
    pose proof (Qfloor_le m) as Hb.
    assert (Hc : (inject_Z (Qfloor m) < inject_Z (B + 1))%Q).
    { rewrite inject_Z_plus. change (inject_Z 1) with 1%Q. lra. }
    rewrite <- Zlt_Qlt in Hc. lia. }
  unfold round_half_even. rewrite Hf.
  destruct (Qcompare (m - inject_Z B) (1 # 2)) eqn:C;
    [exfalso; apply Qeq_alt in C; lra
    |reflexivity
    |exfalso; apply Qgt_alt in C; lra].
Qed.

Lemma round_half_even_le (m : Q) (B : Z) :
  (m <= inject_Z B)%Q -> (round_half_even m <= B)%Z.
Proof.
  intros H.
  pose proof (Qfloor_resp_le _ _ H) as Hf. rewrite Qfloor_Z in Hf.
  destruct (Z.eq_dec (Qfloor m) B) as [E|E].
  - rewrite (round_half_even_floor m B); [lia| |lra].
    rewrite <- E. apply Qfloor_le.
  - unfold round_half_even.
    destruct (Qcompare (m - inject_Z (Qfloor m)) (1 # 2));
      [destruct (Z.even (Qfloor m))| |]; lia.
Qed.

Lemma round_positive_le (q : Q) (B : Z) :
  (q <= inject_Z B * Qpower 2 (Z.max (binade q - 52) (-1074)))%Q ->
  (round_positive q
     <= inject_Z B * Qpower 2 (Z.max (binade q - 52) (-1074)))%Q.
Proof.
  intros H. unfold round_positive.
  pose proof (pow2_pos (Z.max (binade q - 52) (-1074))) as Hp.
  apply Qmult_le_compat_r; [|now apply Qlt_le_weak].
  rewrite <- Zle_Qle. apply round_half_even_le.
  apply Qle_shift_div_r; assumption.
Qed.

Lemma round_positive_ge (q : Q) (B : Z) :
  (inject_Z B * Qpower 2 (Z.max (binade q - 52) (-1074)) <= q)%Q ->
  (inject_Z B * Qpower 2 (Z.max (binade q - 52) (-1074))
     <= round_positive q)%Q.
Proof.
  intros H. unfold round_positive.
  pose proof (pow2_pos (Z.max (binade q - 52) (-1074))) as Hp.
  apply Qmult_le_compat_r; [|now apply Qlt_le_weak].
  rewrite <- Zle_Qle. apply round_half_even_ge.
  apply Qle_shift_div_l; assumption.
Qed.

(** A multiple of [2^k] is a multiple of every finer [2^u]. *)
Lemma grid_refines (A k u : Z) :
  (u <= k)%Z ->
  (inject_Z A * Qpower 2 k == inject_Z (A * 2 ^ (k - u)) * Qpower 2 u)%Q.
Proof.
  intros H. rewrite inject_Z_mult, Zpower_Qpower by lia.
  change (inject_Z 2) with 2%Q.
  rewrite <- Qmult_assoc, <- Qpower_plus by discriminate.
  replace (k - u + u)%Z with k by lia. reflexivity.
Qed.

Lemma binade_below (q : Q) (n : Z) :
  (1 <= n)%Z -> (q < inject_Z (2 ^ n))%Q -> (binade q <= n - 1)%Z.
Proof.
  intros Hn H. unfold binade. destruct (Qle_bool 1 q) eqn:E.
  - apply Qle_bool_iff in E.
    pose proof (Qfloor_resp_le _ _ E) as H1.
    change 1%Q with (inject_Z 1) in H1. rewrite Qfloor_Z in H1.
    assert (H2 : (Qfloor q < 2 ^ n)%Z).
    { rewrite Zlt_Qlt. eapply Qle_lt_trans; [apply Qfloor_le|exact H]. }
    apply Z.log2_lt_pow2 in H2; lia.
  - pose proof (Z.log2_up_nonneg (Qceiling (/ q))). lia.
Qed.

Lemma binade_at (q : Q) (n : Z) :
  (0 <= n)%Z ->
  (inject_Z (2 ^ n) <= q)%Q -> (q < inject_Z (2 ^ (n + 1)))%Q ->
  binade q = n.
Proof.
  intros Hn H1 H2. unfold binade.
  assert (E : Qle_bool 1 q = true).
  { apply Qle_bool_iff. eapply Qle_trans; [|exact H1].
    change 1%Q with (inject_Z 1). rewrite <- Zle_Qle.
    pose proof (Z.pow_pos_nonneg 2 n). lia. }
  rewrite E. apply Z.log2_unique; [exact Hn|]. split.
  - apply Qfloor_resp_le in H1. now rewrite Qfloor_Z in H1.
  - rewrite Zlt_Qlt. eapply Qle_lt_trans; [apply Qfloor_le|exact H2].
Qed.

Lemma binade_half (r : Q) : (1 # 2 <= r)%Q -> (r < 1)%Q -> binade r = (-1)%Z.
Proof.
  intros H1 H2. unfold binade.
  assert (E : Qle_bool 1 r = false).
  { apply not_true_iff_false. intros E. apply Qle_bool_iff in E. lra. }
  rewrite E.
  assert (Hr : (0 < r)%Q) by lra.
  assert (Ha : (1 < / r)%Q) by (apply Qlt_shift_inv_l; [exact Hr|lra]).
  assert (Hb : (/ r <= 2)%Q) by (apply Qle_shift_inv_r; [exact Hr|lra]).
  replace (Qceiling (/ r)) with 2%Z; [reflexivity|].
  pose proof (Qle_ceiling (/ r)) as Hc.
  pose proof (Qceiling_lt (/ r)) as Hd.
  assert (H3 : (inject_Z 1 < inject_Z (Qceiling (/ r)))%Q)
    by (change (inject_Z 1) with 1%Q; lra).
  assert (H4 : (inject_Z (Qceiling (/ r) - 1) < inject_Z 2)%Q)
    by (change (inject_Z 2) with 2%Q; lra).
  rewrite <- Zlt_Qlt in H3, H4. lia.
Qed.

(** The doubles below 1 end at [1 - 2^-53]. *)
Lemma double_below_one (r : Q) :
  is_double r -> (0 <= r)%Q -> (r < 1)%Q ->
  (r <= inject_Z (2 ^ 53 - 1) * Qpower 2 (-53))%Q.
Proof.
  intros Hd H0 H1.
  assert (Hv : (inject_Z (2 ^ 53 - 1) * Qpower 2 (-53)
                == 1 - (1 # 9007199254740992))%Q) by reflexivity.
  rewrite Hv.
  destruct (Qlt_le_dec r (1 # 2)) as [Hs|Hs]; [lra|].
  unfold is_double, round_to_double in Hd.
  assert (Hg : Qcompare r 0 = Gt) by (apply Qgt_alt; lra).
  rewrite Hg in Hd. unfold round_positive in Hd.
  rewrite (binade_half r Hs H1) in Hd.
  change (Z.max (-1 - 52) (-1074)) with (-53)%Z in Hd.
  set (N := round_half_even (r / Qpower 2 (-53))) in *.
  assert (Hp : (Qpower 2 (-53) == 1 # 9007199254740992)%Q) by reflexivity.
  rewrite Hp in Hd.
  assert (HN : (inject_Z N < inject_Z (2 ^ 53))%Q).
  { change (inject_Z (2 ^ 53)) with 9007199254740992%Q.
    remember (inject_Z N) as n eqn:En. clear En.
    assert (Hn : (n == r * 9007199254740992)%Q).
    { rewrite <- Hd. field. }
    rewrite Hn. lra. }
  rewrite <- Zlt_Qlt in HN.
  assert (HN' : (inject_Z N <= inject_Z (2 ^ 53 - 1))%Q)
    by (rewrite <- Zle_Qle; lia).
  change (inject_Z (2 ^ 53 - 1)) with 9007199254740991%Q in HN'.
  remember (inject_Z N) as n eqn:En. clear En.
  rewrite <- Hd. lra.
Qed.

Lemma sessionId_of_in_range (r : Q) :
  is_double r -> (0 <= r)%Q -> (r < 1)%Q ->
  (100000 <= sessionId_of r <= 999999)%N.
Proof.
  intros Hd H0 H1.
  pose proof (double_below_one r Hd H0 H1) as Hmax.
  assert (Hv : (inject_Z (2 ^ 53 - 1) * Qpower 2 (-53)
                == 1 - (1 # 9007199254740992))%Q) by reflexivity.
  rewrite Hv in Hmax. clear Hv Hd H1.
  unfold sessionId_of.
  (* the product *)
  assert (Hx : (0 <= round_to_double (r * 900000))%Q /\
               (round_to_double (r * 900000)
                  <= inject_Z (900000 * 2 ^ 33 - 1) * Qpower 2 (-33))%Q).
  { remember (r * 900000)%Q as x eqn:Ex.
    assert (Hx0 : (0 <= x)%Q) by (rewrite Ex; lra).
    assert (HxX : (x <= 900000 - (900000 # 9007199254740992))%Q).
    { rewrite Ex.
      setoid_replace (900000 - (900000 # 9007199254740992))%Q
        with ((1 - (1 # 9007199254740992)) * 900000)%Q by reflexivity.
      lra. }
    clear Ex Hmax H0.
    assert (Hy : (inject_Z (900000 * 2 ^ 33 - 1) * Qpower 2 (-33)
                  == 900000 - (1 # 8589934592))%Q) by reflexivity.
    unfold round_to_double.
    destruct (Qcompare x 0) eqn:C.
    - rewrite Hy. split; lra.
    - apply Qlt_alt in C. lra.
    - apply Qgt_alt in C.
      assert (Hb : (binade x <= 19)%Z).
      { apply (binade_below x 20); [lia|].
        change (inject_Z (2 ^ 20)) with 1048576%Q. lra. }
      split.
      + pose proof (round_positive_ge x 0) as Hge.
        rewrite Qmult_0_l in Hge. apply Hge. lra.
      + destruct (Qlt_le_dec (900000 - (1 # 8589934592)) x) as [Hhi|Hlo].
        * assert (Hb' : binade x = 19%Z).
          { apply binade_at; [lia| |].
            - change (inject_Z (2 ^ 19)) with 524288%Q. lra.
            - change (inject_Z (2 ^ (19 + 1))) with 1048576%Q. lra. }
          unfold round_positive. rewrite Hb'.
          change (Z.max (19 - 52) (-1074)) with (-33)%Z.
          rewrite (round_half_even_floor (x / Qpower 2 (-33))
                     (900000 * 2 ^ 33 - 1)).
          -- apply Qle_refl.
          -- apply Qle_shift_div_l; [apply pow2_pos|]. rewrite Hy. lra.
          -- apply Qlt_shift_div_r; [apply pow2_pos|].
             setoid_replace
               ((inject_Z (900000 * 2 ^ 33 - 1) + (1 # 2)) * Qpower 2 (-33))%Q
               with (900000 - (1 # 17179869184))%Q by reflexivity.
             lra.
        * rewrite (grid_refines (900000 * 2 ^ 33 - 1) (-33)
                     (Z.max (binade x - 52) (-1074))) by lia.
          apply round_positive_le.
          rewrite <- (grid_refines (900000 * 2 ^ 33 - 1) (-33)
                        (Z.max (binade x - 52) (-1074))) by lia.
          rewrite Hy. exact Hlo. }
  destruct Hx as [Hx0 Hx1].
  assert (Hy : (inject_Z (900000 * 2 ^ 33 - 1) * Qpower 2 (-33)
                == 900000 - (1 # 8589934592))%Q) by reflexivity.
  rewrite Hy in Hx1. clear Hy.
  remember (round_to_double (r * 900000)) as p eqn:Ep. clear Ep Hmax H0.
  remember (100000 + p)%Q as s eqn:Es.
  assert (Hs0 : (100000 <= s)%Q) by (rewrite Es; lra).
  assert (Hs1 : (s <= 1000000 - (1 # 8589934592))%Q) by (rewrite Es; lra).
  clear Es Hx0 Hx1.
  assert (Hlo : (inject_Z (100000 * 2 ^ 33) * Qpower 2 (-33) == 100000)%Q)
    by reflexivity.
  assert (Hhi : (inject_Z (1000000 * 2 ^ 33 - 1) * Qpower 2 (-33)
                 == 1000000 - (1 # 8589934592))%Q) by reflexivity.
  assert (Hb : (binade s <= 19)%Z).
  { apply (binade_below s 20); [lia|].
    change (inject_Z (2 ^ 20)) with 1048576%Q. lra. }
  assert (Hr : (100000 <= round_to_double s)%Q /\
               (round_to_double s <= 1000000 - (1 # 8589934592))%Q).
  { unfold round_to_double.
    assert (C : Qcompare s 0 = Gt) by (apply Qgt_alt; lra).
    rewrite C. split.
    - rewrite <- Hlo.
      rewrite (grid_refines (100000 * 2 ^ 33) (-33)
                 (Z.max (binade s - 52) (-1074))) by lia.
      apply round_positive_ge.
      rewrite <- (grid_refines (100000 * 2 ^ 33) (-33)
                    (Z.max (binade s - 52) (-1074))) by lia.
      rewrite Hlo. exact Hs0.
    - rewrite <- Hhi.
      rewrite (grid_refines (1000000 * 2 ^ 33 - 1) (-33)
                 (Z.max (binade s - 52) (-1074))) by lia.
      apply round_positive_le.
      rewrite <- (grid_refines (1000000 * 2 ^ 33 - 1) (-33)
                    (Z.max (binade s - 52) (-1074))) by lia.
      rewrite Hhi. exact Hs1. }
  destruct Hr as [Hr0 Hr1].
  remember (round_to_double s) as t eqn:Et. clear Et.
  assert (H1 : (100000 <= Qfloor t)%Z).
  { apply Qfloor_resp_le in Hr0.
    change 100000%Q with (inject_Z 100000) in Hr0.
    now rewrite Qfloor_Z in Hr0. }
  assert (H2 : (Qfloor t < 1000000)%Z).
  { rewrite Zlt_Qlt. change (inject_Z 1000000) with 1000000%Q.
    pose proof (Qfloor_le t). lra. }
  lia.
Qed.

(** X14: for a [Math.random()] value that is a double in [0, 1), the
    identifier that [generateSessionId] computes, with the product and
    the sum rounded as doubles, lies between 100000 and 999999; drawing it
    touches neither the store nor the clock. *)
Theorem generateSessionId_in_range (env : Env) (w : World) :
  is_double (env_random env (randomReads w)) ->
  (0 <= env_random env (randomReads w))%Q ->
  (env_random env (randomReads w) < 1)%Q ->
  exists id w',
    generateSessionId env w = (Ok id, w') /\
    (100000 <= id <= 999999)%N /\
    sessions w' = sessions w /\ queue w' = queue w /\
    sessionCounter w' = sessionCounter w /\ clockReads w' = clockReads w.
Proof.
  intros Hd H0 H1.
  unfold generateSessionId, bind, Math_random, ret.
  do 2 eexists. split; [reflexivity|].
  split; [|repeat split].
  now apply sessionId_of_in_range.
Qed.

Lemma generateSessionId_in_range_witness :
  exists id w',
    generateSessionId (example_env never_shares) fresh_world = (Ok id, w') /\
    (100000 <= id <= 999999)%N /\
    sessions w' = sessions fresh_world /\ queue w' = queue fresh_world /\
    sessionCounter w' = sessionCounter fresh_world /\
    clockReads w' = clockReads fresh_world.
Proof.
  apply (generateSessionId_in_range (example_env never_shares) fresh_world).
  - vm_compute. reflexivity.
  - simpl. unfold Qle. simpl. lia.
  - simpl. unfold Qlt. simpl. lia.
Defined.

(** X15: an accepted submission (of the requests that [Request] holds:
    finite numbers, texts of characters with codes up to 255) stores its
    record in the queue under the drawn identifier, whatever was queued
    under that identifier before: an earlier request with the same
    identifier is replaced and lost.  Every other queue entry and the
    sessions stay as they were. *)
Theorem submit_replaces_entry_with_same_identifier
        (HEADER_VALUE : option string)
        (JSON_parse_array : string -> option (list cookie_item)) (env : Env)
        (req : Request) (w : World) :
  acceptable HEADER_VALUE JSON_parse_array req ->
  exists n w' rec amt,
    submit HEADER_VALUE JSON_parse_array env req w =
      (Ok (apiResponse 200 "Sharing process queued successfully"
                       (QueuedData (drawn_id env w) n)), w') /\
    body_amount req = Some amt /\
    status rec = queued /\
    totalShares rec = Qfloor amt /\
    completedShares rec = 0 /\
    JsObject.get (drawn_id env w) (queue w') = Some rec /\
    (forall k, k <> drawn_id env w ->
       JsObject.get k (queue w') = JsObject.get k (queue w)) /\
    sessions w' = sessions w.
Proof.
  intros Hacc.
  destruct (submit_outcome HEADER_VALUE JSON_parse_array env req w)
    as [(Hno & _)|(_ & cs & u & amt & itv & n & t & w' & _ & _ & Ha & _ & _
                   & E & Hs & Hq & _)]; [contradiction|].
  do 2 eexists. eexists. exists amt.
  split; [exact E|]. split; [exact Ha|]. rewrite Hq.
  split; [|split; [|split; [|split; [apply get_set_eq|]]]].
  - reflexivity.
  - reflexivity.
  - reflexivity.
  - split; [intros k Hk; now apply get_set_neq|exact Hs].
Qed.

Lemma submit_replaces_entry_with_same_identifier_witness :
  option_map totalShares
    (JsObject.get (drawn_id dead_cookie_env once_submitted_world)
                  (queue once_submitted_world)) = Some 20%Z /\
  exists n w' rec amt,
    example_submit dead_cookie_env 5 1 once_submitted_world =
      (Ok (apiResponse 200 "Sharing process queued successfully"
                       (QueuedData (drawn_id dead_cookie_env
                                             once_submitted_world) n)), w') /\
    body_amount (example_request 5 1) = Some amt /\
    status rec = queued /\
    totalShares rec = Qfloor amt /\
    completedShares rec = 0 /\
    JsObject.get (drawn_id dead_cookie_env once_submitted_world) (queue w')
      = Some rec /\
    (forall k, k <> drawn_id dead_cookie_env once_submitted_world ->
       JsObject.get k (queue w') = JsObject.get k (queue once_submitted_world)) /\
    sessions w' = sessions once_submitted_world.
Proof.
  split; [vm_compute; reflexivity|].
  apply (submit_replaces_entry_with_same_identifier example_HEADER_VALUE
           example_JSON_parse_array dead_cookie_env (example_request 5 1)
           once_submitted_world).
  split.
  - split; [reflexivity|].
    exists "c_user=1; xs=2", "https://www.facebook.com/post/1".
    repeat split; reflexivity.
  - exists 5%Q, 1%Q. split; [reflexivity|]. split; [reflexivity|].
    unfold admissible. repeat split; lra.
Defined.

(** ** Further properties: the server as a whole *)

Lemma get_In (V : Type) (k : sessionId) (v : V) (o : JsObject.t V) :
  JsObject.get k o = Some v -> In (k, v) o.
Proof.
  induction o as [|[k' v'] rest IH]; simpl; [discriminate|].
  destruct (N.eqb k k') eqn:E.
  - intros H. inversion H; subst. apply N.eqb_eq in E. subst. now left.
  - intros H. right. now apply IH.
Qed.

Lemma In_set (V : Type) (k k' : sessionId) (v v' : V) (o : JsObject.t V) :
  In (k', v') (JsObject.set k v o) -> (k' = k /\ v' = v) \/ In (k', v') o.
Proof.
  induction o as [|[k0 v0] rest IH]; simpl.
  - intros [H|[]]. inversion H. now left.
  - destruct (N.eqb k k0).
    + intros [H|H]; [inversion H; now left|right; now right].
    + intros [H|H]; [right; now left|].
      destruct (IH H) as [?|?]; [now left|right; now right].
Qed.

Lemma no_amount_set (k : sessionId) (v : Session) (o : JsObject.t Session) :
  no_amount o -> amount v = None -> no_amount (JsObject.set k v o).
Proof.
  intros Ho Hv k' s Hin.
  destruct (In_set _ k k' v s o Hin) as [[_ ->]|H]; [exact Hv|eauto].
Qed.

Lemma no_amount_remove (k : sessionId) (o : JsObject.t Session) :
  no_amount o -> no_amount (JsObject.remove k o).
Proof. intros Ho k' s Hin. apply (Ho k' s). eapply In_remove; eauto. Qed.

Lemma no_amount_recover (o : JsObject.t Session) :
  no_amount o -> no_amount (recover o).
Proof.
  intros Ho k s Hin. unfold recover in Hin. apply in_map_iff in Hin.
  destruct Hin as ([k0 s0] & E & Hin). simpl in E. inversion E; subst.
  unfold interrupt. destruct (Status_eqb (status s0) in_progress); simpl;
    apply (Ho k s0 Hin).
Qed.

Lemma unshared_ret {A} (c : nat) (a : A) (w : World) :
  unshared c w -> unshared c (run (ret a) w).
Proof. auto. Qed.

Lemma unshared_Date_now (c : nat) (env : Env) (w : World) :
  unshared c w -> unshared c (run (Date_now env) w).
Proof. intros H. exact H. Qed.

Lemma unshared_bind {A B} (c : nat) (m : M A) (k : A -> M B) :
  (forall w, unshared c w -> unshared c (run m w)) ->
  (forall a w, unshared c w -> unshared c (run (k a) w)) ->
  forall w, unshared c w -> unshared c (run (bind m k) w).
Proof.
  intros Hm Hk w Hw. rewrite run_bind.
  destruct (result m w); [apply Hk|]; now apply Hm.
Qed.

Lemma unshared_saveProgress (c : nat) (env : Env) (id : sessionId)
      (p : Progress) (w : World) :
  unshared c w -> unshared c (run (saveProgress env id p) w).
Proof.
  intros (Hs & Hq & Hc).
  unfold run, saveProgress, saveProgress_write, bind, readSessions, writeSessions,
    broadcastActiveSessions, bind, readSessions, Date_now, ret; simpl.
  destruct (JsObject.get id (sessions w)) as [base|] eqn:Hg; simpl;
    match goal with
    | |- context [existsb holds_undefined ?l] =>
        destruct (existsb holds_undefined l)
    end; simpl; repeat split; try assumption;
    apply no_amount_set; try assumption; simpl;
    [apply (Hs id base); now apply get_In|reflexivity].
Qed.

Lemma unshared_processSession (c : nat) (env : Env) (WORKER_COUNT : nat)
      (id : sessionId) (w : World) :
  unshared c w -> unshared c (run (processSession env WORKER_COUNT id) w).
Proof.
  intros Hw. rewrite processSession_world.
  unfold processSession_try. rewrite run_bind.
  unfold result, readSessions at 1. simpl.
  change (run readSessions w) with w.
  destruct (JsObject.get id (sessions w)) as [s|] eqn:Hg; [|exact Hw].
  assert (Ha : amount s = None).
  { destruct Hw as (Hs & _). apply (Hs id s). now apply get_In. }
  rewrite Ha.
  destruct (negb _); [now apply unshared_saveProgress|].
  destruct (match cookie s with Some c0 => _ | None => _ end);
    [|now apply unshared_saveProgress].
  destruct (env_getPostId env _); [|now apply unshared_saveProgress].
  revert w Hw Hg.
  intros w Hw _. revert w Hw.
  apply unshared_bind; [intros w; apply unshared_saveProgress|]. intros _.
  apply unshared_bind; [intros w; apply unshared_Date_now|]. intros _.
  apply unshared_bind; [intros w Hw; exact Hw|].
  intros [sc fc|] w Hw; [now apply unshared_saveProgress|exact Hw].
Qed.

Lemma unshared_processQueue (c : nat) (WORKER_COUNT : nat) (w : World) :
  unshared c w -> unshared c (run (processQueue WORKER_COUNT) w).
Proof.
  intros (Hs & Hq & Hc).
  unfold run, processQueue, try_catch, bind, readQueue, readSessions. simpl.
  destruct (Nat.leb _ _); [repeat split; assumption|].
  destruct (JsObject.keys (queue w)) as [|id t]; [repeat split; assumption|].
  destruct (JsObject.get id (queue w)) as [data|] eqn:Hg;
    [|repeat split; assumption].
  unfold sessions_child_set.
  destruct (holds_undefined data); simpl; [repeat split; assumption|].
  repeat split; try assumption.
  - apply no_amount_set; [assumption|]. apply (Hq id data). now apply get_In.
  - now apply no_amount_remove.
Qed.

Lemma unshared_startup (c : nat) (w : World) :
  unshared c w -> unshared c (run startup w).
Proof.
  intros (Hs & Hq & Hc).
  unfold run, startup, bind, readSessions, writeSessions. simpl.
  destruct (existsb _ (JsObject.values (sessions w))); simpl.
  - destruct (existsb holds_undefined _); simpl;
      destruct (Nat.eqb _ 0); simpl;
      try destruct (negb _); simpl; repeat split; try assumption;
      now apply no_amount_recover.
  - destruct (Nat.eqb _ 0); simpl;
      try destruct (negb _); simpl; repeat split; assumption.
Qed.

Lemma unshared_submit (c : nat) (HEADER_VALUE : option string)
      (JSON_parse_array : string -> option (list cookie_item)) (env : Env)
      (req : Request) (w : World) :
  unshared c w ->
  unshared c (run (submit HEADER_VALUE JSON_parse_array env req) w).
Proof.
  intros (Hs & Hq & Hc).
  destruct (submit_outcome HEADER_VALUE JSON_parse_array env req w)
    as [(_ & r & E & _)|(_ & cs & u & amt & itv & n & t & w' & _ & _ & _ & _
                         & _ & E & Es & Eq & Ec)];
    unfold run; rewrite E; simpl; [repeat split; assumption|].
  unfold unshared. rewrite Es, Eq, Ec. repeat split; try assumption.
  apply no_amount_set; [assumption|reflexivity].
Qed.

(** X16: as long as no stored or queued record has the property [amount]
    (the submission route writes none), nothing that the server does makes
    a call of [performShare]: whatever requests are submitted and however
    queue ticks, runs of [processSession] and restarts follow one another,
    the count of share calls stays where it was and still no record
    carries [amount]. *)
Theorem no_share_is_ever_performed
        (HEADER_VALUE : option string)
        (JSON_parse_array : string -> option (list cookie_item)) (env : Env)
        (WORKER_COUNT : nat) (w w' : World) :
  no_amount (sessions w) -> no_amount (queue w) ->
  steps HEADER_VALUE JSON_parse_array env WORKER_COUNT w w' ->
  shareCalls w' = shareCalls w /\
  no_amount (sessions w') /\ no_amount (queue w').
Proof.
  intros Hs Hq Hst.
  assert (H : unshared (shareCalls w) w') .
  { induction Hst.
    - repeat split; assumption.
    - now apply unshared_submit.
    - now apply unshared_processQueue.
    - now apply unshared_processSession.
    - now apply unshared_startup. }
  destruct H as (Hs' & Hq' & Hc). auto.
Qed.

Lemma no_share_is_ever_performed_witness :
  shareCalls served_world = 0 /\
  no_amount (sessions served_world) /\ no_amount (queue served_world).
Proof.
  apply (no_share_is_ever_performed example_HEADER_VALUE
           example_JSON_parse_array (example_env always_shares) 4
           fresh_world served_world).
  - intros k s [].
  - intros k s [].
  - unfold served_world, example_submit.
    apply steps_run, steps_tick, steps_submit, steps_none.
Defined.

(** ** Further properties: cookies and URLs of a submission *)

Lemma prefix_app (p s t : string) :
  String.prefix p s = true -> String.prefix p (s ++ t) = true.
Proof.
  revert s. induction p as [|a p IH]; intros s;
    [intros _; destruct (s ++ t)%string; reflexivity|].
  destruct s as [|b s]; simpl; [discriminate|].
  destruct (ascii_dec a b); [apply IH|discriminate].
Qed.

Lemma prefix_self_app (p t : string) : String.prefix p (p ++ t) = true.
Proof.
  induction p as [|a p IH]; [destruct t; reflexivity|]. simpl.
  destruct (ascii_dec a a); [exact IH|congruence].
Qed.

Lemma includes_app_l (s t sub : string) :
  includes s sub = true -> includes (s ++ t) sub = true.
Proof.
  induction s as [|c s IH]; simpl.
  - rewrite orb_false_r. intros H. destruct sub; [|discriminate].
    destruct t; reflexivity.
  - intros H. apply orb_true_iff in H. apply orb_true_iff.
    destruct H as [H|H]; [left|right; now apply IH].
    exact (prefix_app sub (String c s) t H).
Qed.

Lemma includes_app_r (s t sub : string) :
  includes t sub = true -> includes (s ++ t) sub = true.
Proof.
  intros H. induction s as [|c s IH]; [exact H|].
  simpl. rewrite IH. apply orb_true_r.
Qed.

Lemma includes_join (sep x sub : string) (l : list string) :
  In x l -> includes x sub = true -> includes (join sep l) sub = true.
Proof.
  intros Hin Hx. induction l as [|y rest IH]; [destruct Hin|].
  destruct rest as [|z rest'].
  - destruct Hin as [->|[]]. exact Hx.
  - change (join sep (y :: z :: rest'))
      with (y ++ sep ++ join sep (z :: rest'))%string.
    destruct Hin as [->|Hin].
    + now apply includes_app_l.
    + apply includes_app_r, includes_app_r. now apply IH.
Qed.

Lemma includes_starts (s t : string) : includes (s ++ t) s = true.
Proof.
  destruct s as [|c s]; simpl.
  - destruct t; reflexivity.
  - destruct (ascii_dec c c); [|congruence].
    now rewrite prefix_self_app.
Qed.

Lemma includes_self (s : string) : includes s s = true.
Proof.
  destruct s as [|c s]; [reflexivity|]. simpl.
  destruct (ascii_dec c c); [|congruence].
  replace (String.prefix s s) with true; [reflexivity|].
  clear. induction s as [|a s IH]; [reflexivity|]. simpl.
  destruct (ascii_dec a a); [exact IH|congruence].
Qed.

Lemma truthy_iff (s : string) : truthy s = true <-> s <> ""%string.
Proof. destruct s; simpl; split; congruence. Qed.

(** X17: [convertJsonToCookieString] throws on an array with a [null]
    element; on any other array it returns a string in which every entry
    with a non-empty key and a non-empty value occurs as [key=value], so
    that one such entry under the key [xs], [c_user], [fr] or [datr] is
    enough for the marker test of the submission route. *)
Theorem convertJsonToCookieString_keeps_complete_pairs
        (items : list cookie_item) :
  (In NullItem items -> convertJsonToCookieString items = None) /\
  (~ In NullItem items ->
   exists cs,
     convertJsonToCookieString items = Some cs /\
     (forall k v,
         In (Item k v) items -> k <> ""%string -> v <> ""%string ->
         includes cs (k ++ "=" ++ v) = true) /\
     (forall k v,
         In (Item k v) items -> In k ["xs"; "c_user"; "fr"; "datr"]%string ->
         v <> ""%string ->
         existsb (includes cs) requiredCookieKeys = true)).
Proof.
  unfold convertJsonToCookieString.
  destruct (existsb _ items) eqn:E.
  - split; [reflexivity|]. intros Hn. exfalso. apply Hn.
    apply existsb_exists in E. destruct E as ([k v|] & Hin & H);
      [discriminate|exact Hin].
  - split.
    + intros Hin. exfalso.
      assert (existsb (fun it => match it with NullItem => true | _ => false end)
                      items = true)
        by (apply existsb_exists; exists NullItem; auto).
      congruence.
    + intros _. eexists. split; [reflexivity|].
      assert (Hpair : forall k v sub,
                 In (Item k v) items -> k <> ""%string -> v <> ""%string ->
                 includes (k ++ "=" ++ v) sub = true ->
                 includes
                   (join "; "
                      (flat_map
                         (fun it =>
                            match it with
                            | Item k0 v0 =>
                                if truthy k0 && truthy v0
                                then [(k0 ++ "=" ++ v0)%string] else []
                            | NullItem => []
                            end) items)) sub = true).
      { intros k v sub Hin Hk Hv Hs.
        apply (includes_join "; " (k ++ "=" ++ v) sub); [|exact Hs].
        apply in_flat_map. exists (Item k v). split; [exact Hin|].
        apply truthy_iff in Hk. apply truthy_iff in Hv. rewrite Hk, Hv.
        now left. }
      split.
      * intros k v Hin Hk Hv. apply (Hpair k v); try assumption.
        apply includes_self.
      * intros k v Hin Hk Hv.
        apply existsb_exists. exists (k ++ "=")%string. split.
        { unfold requiredCookieKeys. simpl in Hk.
          destruct Hk as [<-|[<-|[<-|[<-|[]]]]]; simpl; auto. }
        apply (Hpair k v); try assumption.
        { destruct Hk as [<-|[<-|[<-|[<-|[]]]]]; discriminate. }
        change (k ++ "=" ++ v)%string with (k ++ ("=" ++ v))%string.
        replace (k ++ ("=" ++ v))%string with ((k ++ "=") ++ v)%string.
        -- apply includes_starts.
        -- clear. induction k as [|c k IH]; [reflexivity|].
           simpl. now rewrite IH.
Qed.

Lemma strip_prefix_spec (p s r : string) :
  strip_prefix p s = Some r <-> s = (p ++ r)%string.
Proof.
  revert s. induction p as [|a p IH]; intros s; simpl.
  - split; intros H; [now inversion H|now subst].
  - destruct s as [|b s].
    + split; discriminate.
    + destruct (Ascii.eqb a b) eqn:E.
      * apply Ascii.eqb_eq in E. subst b. rewrite IH.
        split; intros H; [now subst|now inversion H].
      * apply Ascii.eqb_neq in E. split; [discriminate|].
        intros H. inversion H. congruence.
Qed.

(** X18: on a text made of characters with codes up to 255, the URL test
    of the submission route accepts exactly the texts that, read without
    regard to the case of the letters A to Z, start with [http://] or
    [https://], then optionally [www.], then [facebook.com/] followed by
    at least one character that is neither a line feed (code 10) nor a
    carriage return (code 13); what comes after that character is not
    looked at. *)
Theorem url_matches_accepts_exactly (u : string) :
  url_matches u = true <->
  exists scheme www c rest,
    (scheme = "http://" \/ scheme = "https://")%string /\
    (www = "" \/ www = "www.")%string /\
    lower u = (scheme ++ www ++ "facebook.com/" ++ String c rest)%string /\
    nat_of_ascii c <> 10 /\ nat_of_ascii c <> 13.
Proof.
  assert (Hlt : forall c,
             is_line_terminator c = false <->
             nat_of_ascii c <> 10 /\ nat_of_ascii c <> 13).
  { intros c. unfold is_line_terminator.
    rewrite orb_false_iff, !Nat.eqb_neq. reflexivity. }
  unfold url_matches. split.
  - destruct (strip_prefix "http" (lower u)) as [r1|] eqn:E1; [|discriminate].
    apply strip_prefix_spec in E1.
    assert (H2 : exists sch,
               (sch = "http" \/ sch = "https")%string /\
               lower u = (sch ++ or_else (strip_prefix "s" r1) r1)%string).
    { destruct (strip_prefix "s" r1) as [r|] eqn:E2.
      - apply strip_prefix_spec in E2. subst r1.
        exists "https"%string. split; [now right|exact E1].
      - exists "http"%string. split; [now left|exact E1]. }
    destruct H2 as (sch & Hsch & Hu). clear E1.
    set (r2 := or_else (strip_prefix "s" r1) r1) in *.
    destruct (strip_prefix "://" r2) as [r3|] eqn:E3; [|discriminate].
    apply strip_prefix_spec in E3.
    assert (H4 : exists www,
               (www = "" \/ www = "www.")%string /\
               r3 = (www ++ or_else (strip_prefix "www." r3) r3)%string).
    { destruct (strip_prefix "www." r3) as [r|] eqn:E4.
      - apply strip_prefix_spec in E4.
        exists "www."%string. split; [now right|exact E4].
      - exists ""%string. split; [now left|reflexivity]. }
    destruct H4 as (www & Hwww & Hr3).
    set (r4 := or_else (strip_prefix "www." r3) r3) in *.
    destruct (strip_prefix "facebook.com/" r4) as [[|c rest]|] eqn:E5;
      try discriminate.
    apply strip_prefix_spec in E5. intros Hc.
    exists (sch ++ "://")%string, www, c, rest.
    split; [destruct Hsch as [->| ->]; auto|].
    split; [exact Hwww|].
    split; [|apply Hlt; now apply negb_true_iff].
    rewrite Hu, E3, Hr3, E5.
    destruct Hsch as [->| ->]; reflexivity.
  - intros (scheme & www & c & rest & Hs & Hw & Hu & Hc).
    apply Hlt in Hc. rewrite Hu.
    destruct Hs as [->| ->]; destruct Hw as [->| ->]; simpl;
      now rewrite Hc.
Qed.

(** ** Further properties: restarts and setup failures *)

Lemma recover_settled (o : JsObject.t Session) :
  existsb (fun s => Status_eqb (status s) in_progress)
          (JsObject.values (recover o)) = false.
Proof.
  induction o as [|[k v] rest IH]; simpl; [reflexivity|].
  rewrite IH, orb_false_r. unfold interrupt.
  destruct (Status_eqb (status v) in_progress) eqn:E; [reflexivity|exact E].
Qed.

Lemma startup_settled (w : World) :
  existsb (fun s => Status_eqb (status s) in_progress)
          (JsObject.values (sessions w)) = false ->
  (activeSessions (sessions w) = [] -> sessionCounter w = Some 0%Z) ->
  startup w = (Ok tt, w).
Proof.
  intros En Hz. unfold startup, bind, readSessions.
  fold (recover (sessions w)). rewrite En, (recover_nothing _ En).
  unfold ret.
  destruct (activeSessions (sessions w)) as [|a l]; simpl; [|reflexivity].
  rewrite (Hz eq_refl). reflexivity.
Qed.

(** X19: after startup no stored session is in progress, and starting
    again right away changes nothing at all: neither a record, nor the
    counter, nor the queue, and nothing is written. *)
Theorem startup_twice_is_startup_once (w : World) :
  clean (sessions w) ->
  exists w',
    startup w = (Ok tt, w') /\
    (forall id s,
        JsObject.get id (sessions w') = Some s -> status s <> in_progress) /\
    startup w' = (Ok tt, w').
Proof.
  intros Hc. destruct (startup_sessions w Hc) as (w' & E & Hs & _ & Hn).
  exists w'. split; [exact E|].
  pose proof (recover_settled (sessions w)) as Hr. rewrite <- Hs in Hr.
  split.
  - intros id s Hg Hst.
    assert (In s (JsObject.values (sessions w'))).
    { unfold JsObject.values. apply in_map_iff. exists (id, s).
      split; [reflexivity|]. now apply get_In. }
    assert (existsb (fun s0 => Status_eqb (status s0) in_progress)
                    (JsObject.values (sessions w')) = true).
    { apply existsb_exists. exists s. split; [assumption|].
      now apply Status_eqb_eq. }
    congruence.
  - apply startup_settled; [exact Hr|].
    intros Ha. rewrite <- Hs, Ha in Hn. exact Hn.
Qed.

Lemma startup_twice_is_startup_once_witness :
  exists w',
    startup interrupted_world = (Ok tt, w') /\
    (forall id s,
        JsObject.get id (sessions w') = Some s -> status s <> in_progress) /\
    startup w' = (Ok tt, w').
Proof.
  apply (startup_twice_is_startup_once interrupted_world). reflexivity.
Defined.

(** X20: when setup fails for a stored record that carries [amount], the
    run ends without a share call and leaves the session failed, with
    [amount] as its failed count and the message of the first step that
    failed: the cookie check, then the token, then the post. *)
Theorem processSession_setup_failure_names_the_failing_step
        (env : Env) (WORKER_COUNT : nat) (id : sessionId) (w : World)
        (s : Session) (q : Q) :
  clean (sessions w) ->
  JsObject.get id (sessions w) = Some s ->
  amount s = Some q ->
  setup_fails env s ->
  exists w' s' message,
    processSession env WORKER_COUNT id w = (Ok tt, w') /\
    shareCalls w' = shareCalls w /\
    JsObject.get id (sessions w') = Some s' /\
    status s' = failed /\
    error s' = Some message /\
    failedShares s' = Some (num q) /\
    completedShares s' = completedShares s /\
    (match cookie s with
     | None => True
     | Some c => env_validateCookie env c = false
     end -> message = "Invalid cookie"%string) /\
    (forall c,
        cookie s = Some c -> env_validateCookie env c = true ->
        env_getFacebookToken env c = None ->
        message = "Token retrieval failed"%string) /\
    (forall c token,
        cookie s = Some c -> env_validateCookie env c = true ->
        env_getFacebookToken env c = Some token ->
        message = "Invalid post ID"%string).
Proof.
  intros Hc Hg Ha Hf.
  assert (Hsave : forall message,
             exists w' s',
               saveProgress env id (setup_failure message (num q)) w
                 = (Ok tt, w') /\
               shareCalls w' = shareCalls w /\
               JsObject.get id (sessions w') = Some s' /\
               status s' = failed /\
               error s' = Some message /\
               failedShares s' = Some (num q) /\
               completedShares s' = completedShares s).
  { intros message.
    destruct (saveProgress_effect env id (setup_failure message (num q)) w s
                Hc Hg) as (w' & t & E & Hg' & _ & _ & Hs); [discriminate|].
    exists w'. eexists.
    split; [exact E|]. split; [exact Hs|]. split; [exact Hg'|].
    simpl. repeat split. }
  unfold processSession, try_catch, processSession_try.
  unfold bind at 1. unfold readSessions at 1. simpl.
  rewrite Hg, Ha. unfold setup_fails in Hf.
  destruct (cookie s) as [c|]; simpl.
  - destruct (env_validateCookie env c) eqn:Hv; simpl.
    + destruct (env_getFacebookToken env c) as [tok|] eqn:Ht.
      * destruct (env_getPostId env (or_else (url s) "undefined"))
          as [pid|] eqn:Hp.
        { destruct Hf as [Hf|[Hf|Hf]]; discriminate. }
        destruct (Hsave "Invalid post ID"%string)
          as (w' & s' & E & H1 & H2 & H3 & H4 & H5 & H6).
        rewrite E. exists w', s', "Invalid post ID"%string.
        repeat split; try assumption.
        -- discriminate.
        -- intros c0 Hc0 _ Hn. inversion Hc0; subst c0. congruence.
      * destruct (Hsave "Token retrieval failed"%string)
          as (w' & s' & E & H1 & H2 & H3 & H4 & H5 & H6).
        rewrite E. exists w', s', "Token retrieval failed"%string.
        repeat split; try assumption.
        -- discriminate.
        -- intros c0 tok Hc0 _ Hn. inversion Hc0; subst c0. congruence.
    + destruct (Hsave "Invalid cookie"%string)
        as (w' & s' & E & H1 & H2 & H3 & H4 & H5 & H6).
      rewrite E. exists w', s', "Invalid cookie"%string.
      repeat split; try assumption.
      * intros c0 Hc0 Hn. inversion Hc0; subst c0. congruence.
      * intros c0 tok Hc0 Hn. inversion Hc0; subst c0. congruence.
  - destruct (Hsave "Invalid cookie"%string)
      as (w' & s' & E & H1 & H2 & H3 & H4 & H5 & H6).
    rewrite E. exists w', s', "Invalid cookie"%string.
    repeat split; try assumption; intros; discriminate.
Qed.

Lemma processSession_setup_failure_names_the_failing_step_witness :
  exists w' s' message,
    processSession dead_cookie_env 4 550000%N (world_with_amount 20)
      = (Ok tt, w') /\
    shareCalls w' = shareCalls (world_with_amount 20) /\
    JsObject.get 550000%N (sessions w') = Some s' /\
    status s' = failed /\
    error s' = Some message /\
    failedShares s' = Some (num (inject_Z 20)) /\
    completedShares s' = completedShares (record_with_amount 20) /\
    (env_validateCookie dead_cookie_env "c_user=1; xs=2" = false ->
     message = "Invalid cookie"%string) /\
    (forall c,
        cookie (record_with_amount 20) = Some c ->
        env_validateCookie dead_cookie_env c = true ->
        env_getFacebookToken dead_cookie_env c = None ->
        message = "Token retrieval failed"%string) /\
    (forall c token,
        cookie (record_with_amount 20) = Some c ->
        env_validateCookie dead_cookie_env c = true ->
        env_getFacebookToken dead_cookie_env c = Some token ->
        message = "Invalid post ID"%string).
Proof.
  apply (processSession_setup_failure_names_the_failing_step dead_cookie_env 4
           550000%N (world_with_amount 20) (record_with_amount 20)
           (inject_Z 20)).
  - reflexivity.
  - reflexivity.
  - reflexivity.
  - simpl. left. reflexivity.
Defined.

(** ** The runner on the records that the server stores *)

Lemma saveProgress_returns (env : Env) (id : sessionId) (p : Progress)
      (w : World) :
  result (saveProgress env id p) w = Ok tt.
Proof.
  unfold result, saveProgress, saveProgress_write, bind, readSessions,
    writeSessions, broadcastActiveSessions, bind, readSessions, Date_now, ret;
    simpl.
  destruct (JsObject.get id (sessions w)) as [base|]; simpl;
    match goal with
    | |- context [existsb holds_undefined ?l] =>
        destruct (existsb holds_undefined l)
    end; reflexivity.
Qed.

(** On a store without [amount] the [try] block of the runner comes to
    its end: the loop has no turn, and nothing else in it can throw. *)
Lemma processSession_try_returns (env : Env) (id : sessionId) (w : World) :
  no_amount (sessions w) ->
  result (processSession_try env id) w = Ok tt.
Proof.
  intros Hs. unfold result, processSession_try.
  unfold bind at 1. unfold readSessions at 1. simpl.
  destruct (JsObject.get id (sessions w)) as [s|] eqn:Hg; [|reflexivity].
  rewrite (Hs id s (get_In _ id s (sessions w) Hg)).
  destruct (negb _); [apply saveProgress_returns|].
  destruct (match cookie s with Some c0 => _ | None => _ end);
    [|apply saveProgress_returns].
  destruct (env_getPostId env _); [|apply saveProgress_returns].
  unfold bind at 1.
  pose proof (saveProgress_returns env id
                (mkProgress (Some in_progress) None None None) w) as H1.
  unfold result in H1.
  destruct (saveProgress env id
              (mkProgress (Some in_progress) None None None) w)
    as [r1 w1]. simpl in H1. subst r1.
  unfold bind at 1. unfold Date_now at 1. simpl.
  unfold bind, ret. simpl.
  apply saveProgress_returns.
Qed.

(** The two writes of a run for a stored record without [amount] whose
    setup succeeds: the status in_progress, then the status completed with
    no share counted. *)
Lemma processSession_run_without_amount
      (env : Env) (WORKER_COUNT : nat) (id : sessionId) (w : World)
      (s : Session) :
  clean (sessions w) ->
  JsObject.get id (sessions w) = Some s ->
  amount s = None ->
  setup_ok env s ->
  exists w' s1 s2,
    processSession env WORKER_COUNT id w = (Ok tt, w') /\
    status s1 = in_progress /\
    status s2 = completed /\
    completedShares s2 = 0 /\
    failedShares s2 = Some (num (Qnat 0)) /\
    totalShares s2 = totalShares s /\
    sessions w' = JsObject.set id s2 (JsObject.set id s1 (sessions w)) /\
    history w' =
      JsObject.set id s2 (JsObject.set id s1 (sessions w))
        :: JsObject.set id s1 (sessions w) :: history w /\
    shareCalls w' = shareCalls w.
Proof.
  intros Hc Hg Ha (c & Hck & Hv & Ht & Hp).
  unfold processSession, try_catch, processSession_try.
  unfold bind at 1. unfold readSessions at 1. simpl.
  rewrite Hg, Ha, Hck, Hv. simpl.
  destruct (env_getFacebookToken env c) as [tok|]; [|now elim Ht].
  destruct (env_getPostId env (or_else (url s) "undefined")) as [pid|];
    [|now elim Hp].
  unfold bind at 1.
  rewrite (saveProgress_stored env id _ w s Hc Hg); [|discriminate].
  cbv zeta.
  unfold bind at 1. unfold Date_now at 1. simpl.
  unfold bind at 1. unfold ret at 1.
  match goal with
  | |- context [saveProgress env id ?p ?w1] =>
      rewrite (saveProgress_stored env id p w1
                 (merge_progress s (mkProgress (Some in_progress) None None None)
                                 (env_clock env (clockReads w))))
  end.
  - simpl. eexists.
    exists (merge_progress s (mkProgress (Some in_progress) None None None)
                           (env_clock env (clockReads w))).
    exists (merge_progress
              (merge_progress s
                 (mkProgress (Some in_progress) None None None)
                 (env_clock env (clockReads w)))
              (mkProgress (Some completed) None (Some 0)
                          (Some (num (Qnat 0))))
              (env_clock env (S (S (S (clockReads w)))))).
    split; [reflexivity|]. simpl.
    repeat (split; [reflexivity|]). reflexivity.
  - simpl. apply clean_set; [exact Hc|].
    apply holds_undefined_merge; [|discriminate].
    eapply clean_get; eauto.
  - simpl. apply get_set_eq.
  - discriminate.
Qed.

(** C2 (the code departs from it): the runner takes the number of actions
    from a property [amount] that no stored record has.  For a record as
    the server stores it, with a working setup and a share action that
    fails on every attempt, the run makes no attempt at all and marks the
    session completed with 0 completed and 0 failed shares: the session
    never reaches terminated, whatever count was requested. *)
Theorem processSession_never_trips_the_breaker
        (env : Env) (WORKER_COUNT : nat) (id : sessionId) (w : World)
        (s : Session) :
  clean (sessions w) ->
  JsObject.get id (sessions w) = Some s ->
  amount s = None ->
  setup_ok env s ->
  (forall k, env_performShare env k = NotShared) ->
  (exists w' s',
      processSession env WORKER_COUNT id w = (Ok tt, w') /\
      shareCalls w' = shareCalls w /\
      JsObject.get id (sessions w') = Some s' /\
      status s' = completed /\
      completedShares s' = 0 /\
      failedShares s' = Some (num (Qnat 0)) /\
      totalShares s' = totalShares s) /\
  ~ reaches_terminated env WORKER_COUNT id w.
Proof.
  intros Hc Hg Ha Hok _.
  destruct (processSession_run_without_amount env WORKER_COUNT id w s
              Hc Hg Ha Hok)
    as (w' & s1 & s2 & E & _ & Hst & Hcs & Hfs & Hts & Hs & _ & Hcalls).
  assert (Hg' : JsObject.get id (sessions w') = Some s2)
    by (rewrite Hs; apply get_set_eq).
  split.
  - exists w', s2. repeat split; assumption.
  - intros (s' & Hget & Hterm). unfold run in Hget. rewrite E in Hget.
    simpl in Hget. rewrite Hg' in Hget. inversion Hget; subst s'.
    rewrite Hst in Hterm. discriminate.
Qed.

Lemma processSession_never_trips_the_breaker_witness :
  (exists w' s',
      processSession (example_env never_shares) 4 550000%N
                     (promoted_world 20 1) = (Ok tt, w') /\
      shareCalls w' = shareCalls (promoted_world 20 1) /\
      JsObject.get 550000%N (sessions w') = Some s' /\
      status s' = completed /\
      completedShares s' = 0 /\
      failedShares s' = Some (num (Qnat 0)) /\
      totalShares s' = 20%Z) /\
  ~ reaches_terminated (example_env never_shares) 4 550000%N
      (promoted_world 20 1).
Proof.
  apply (processSession_never_trips_the_breaker (example_env never_shares) 4
           550000%N (promoted_world 20 1)
           (mkSession queued 20 0 None None
              (Some "https://www.facebook.com/post/1")
              (Some (parseFloat_toFixed1 1)) 0%N None (Some 1%Z)
              (Some "c_user=1; xs=2") None None)).
  - vm_compute. reflexivity.
  - vm_compute. reflexivity.
  - reflexivity.
  - exists "c_user=1; xs=2". simpl. repeat split; discriminate.
  - intros k. reflexivity.
Defined.

(** C8 (the code departs from it): for a record as the server stores it,
    whose setup succeeds, the loop of the runner has no turn, because the
    bound [amount] is missing.  The run writes twice, the status
    in_progress and the status completed with no share counted; no turn of
    the loop flushes, while the rule of the specification, for the
    requested count [n] of the record, has a flush at least at the last
    action (turn [n - 1]). *)
Theorem processSession_flushes_no_progress
        (env : Env) (WORKER_COUNT : nat) (id : sessionId) (w : World)
        (s : Session) :
  clean (sessions w) ->
  JsObject.get id (sessions w) = Some s ->
  amount s = None ->
  setup_ok env s ->
  (0 < totalShares s)%Z ->
  exists w' d1 d2 s1 s2,
    processSession env WORKER_COUNT id w = (Ok tt, w') /\
    history w' = d2 :: d1 :: history w /\
    JsObject.get id d1 = Some s1 /\ status s1 = in_progress /\
    JsObject.get id d2 = Some s2 /\ status s2 = completed /\
    completedShares s2 = 0 /\ failedShares s2 = Some (num (Qnat 0)) /\
    loop_indices (amount_read s) = [] /\
    (forall w0,
        flushing_iterations env id (amount_read s)
          (loop_indices (amount_read s)) 0 0 0 w0 = []) /\
    In (Nat.pred (Z.to_nat (totalShares s)))
       (filter (every_fifth_or_final (Z.to_nat (totalShares s)))
               (seq 0 (Z.to_nat (totalShares s)))).
Proof.
  intros Hc Hg Ha Hok Hpos.
  destruct (processSession_run_without_amount env WORKER_COUNT id w s
              Hc Hg Ha Hok)
    as (w' & s1 & s2 & E & Hst1 & Hst2 & Hcs & Hfs & _ & _ & Hh & _).
  exists w', (JsObject.set id s1 (sessions w)),
    (JsObject.set id s2 (JsObject.set id s1 (sessions w))), s1, s2.
  split; [exact E|]. split; [exact Hh|].
  split; [apply get_set_eq|]. split; [exact Hst1|].
  split; [apply get_set_eq|]. split; [exact Hst2|].
  split; [exact Hcs|]. split; [exact Hfs|].
  unfold amount_read. rewrite Ha.
  split; [reflexivity|]. split; [reflexivity|].
  apply filter_In. split.
  - apply in_seq. lia.
  - unfold every_fifth_or_final. apply orb_true_iff. right.
    apply Nat.eqb_eq. lia.
Qed.

Lemma processSession_flushes_no_progress_witness :
  exists w' d1 d2 s1 s2,
    processSession (example_env always_shares) 4 550000%N
                   (promoted_world 20 1) = (Ok tt, w') /\
    history w' = d2 :: d1 :: history (promoted_world 20 1) /\
    JsObject.get 550000%N d1 = Some s1 /\ status s1 = in_progress /\
    JsObject.get 550000%N d2 = Some s2 /\ status s2 = completed /\
    completedShares s2 = 0 /\ failedShares s2 = Some (num (Qnat 0)) /\
    loop_indices undefined = [] /\
    (forall w0,
        flushing_iterations (example_env always_shares) 550000%N undefined
          (loop_indices undefined) 0 0 0 w0 = []) /\
    In 19 (filter (every_fifth_or_final 20) (seq 0 20)).
Proof.
  apply (processSession_flushes_no_progress (example_env always_shares) 4
           550000%N (promoted_world 20 1)
           (mkSession queued 20 0 None None
              (Some "https://www.facebook.com/post/1")
              (Some (parseFloat_toFixed1 1)) 0%N None (Some 1%Z)
              (Some "c_user=1; xs=2") None None)).
  - vm_compute. reflexivity.
  - vm_compute. reflexivity.
  - reflexivity.
  - exists "c_user=1; xs=2". simpl. repeat split; discriminate.
  - reflexivity.
Defined.

(** X22: in every state that the server reaches from a store without
    [amount] (an empty one, say), by submissions, queue ticks, runs and
    restarts in any order, a run of [processSession] for any identifier
    returns normally, whatever the network, the limiter and the share
    action answer: its [try] block comes to its end, so no error arises in
    the runner and none leaves it (the [catch] block is never entered). *)
Theorem processSession_raises_nothing
        (HEADER_VALUE : option string)
        (JSON_parse_array : string -> option (list cookie_item)) (env : Env)
        (WORKER_COUNT : nat) (w w' : World) (id : sessionId) :
  no_amount (sessions w) -> no_amount (queue w) ->
  steps HEADER_VALUE JSON_parse_array env WORKER_COUNT w w' ->
  result (processSession_try env id) w' = Ok tt /\
  result (processSession env WORKER_COUNT id) w' = Ok tt.
Proof.
  intros Hs Hq Hst.
  assert (H : unshared (shareCalls w) w').
  { induction Hst.
    - repeat split; assumption.
    - now apply unshared_submit.
    - now apply unshared_processQueue.
    - now apply unshared_processSession.
    - now apply unshared_startup. }
  destruct H as (Hs' & _ & _).
  pose proof (processSession_try_returns env id w' Hs') as Ht.
  split; [exact Ht|].
  unfold result, processSession, try_catch in *.
  destruct (processSession_try env id w') as [[[]|e] w'']; simpl in *;
    [reflexivity|discriminate].
Qed.

Lemma processSession_raises_nothing_witness :
  result (processSession_try rejecting_env 550000%N)
         (run (processQueue 4)
              (run (example_submit rejecting_env 20 1) fresh_world)) = Ok tt /\
  result (processSession rejecting_env 4 550000%N)
         (run (processQueue 4)
              (run (example_submit rejecting_env 20 1) fresh_world)) = Ok tt.
Proof.
  apply (processSession_raises_nothing example_HEADER_VALUE
           example_JSON_parse_array rejecting_env 4 fresh_world).
  - intros k s [].
  - intros k s [].
  - unfold example_submit. apply steps_tick, steps_submit, steps_none.
Defined.
